(** * Web-World-Models: a shallow embedding of the three browser demos

    AI Spire (roguelike deckbuilder), AI Alchemy (falling-sand sandbox) and
    Cosmic Voyager (solar-system explorer).  The definitions below follow the
    TypeScript sources function by function; the theorems at the end of the
    file state the behaviour the specification describes.

    Conventions of the embedding:
    - a JavaScript [number] that the code only ever produces from integer
      literals, [parseInt] and integer arithmetic is a [JsNum]: [NaN] or an
      integer [Num z];
    - probabilities and interpolation weights are exact rationals ([Q]);
    - a JavaScript object used as a dictionary is a [gmap string _], an absent
      key reads as [None] (JavaScript [undefined]);
    - a React state cell is a field of a state record, [setX (prev => ..)] is
      an update of that field, and the values a handler reads from its closure
      are passed as a separate snapshot argument;
    - [Math.random], [Date.now] and the answers of the hosted model are inputs. *)

From Stdlib Require Import ZArith QArith Qminmax Qround String Ascii List Lia Lqa Bool.
From stdpp Require Import base gmap strings list option pretty.

Set Warnings "-register-all".

Open Scope string_scope.
Open Scope Z_scope.

(* ===================================================================== *)
(** * JavaScript primitives used by the sources *)
(* ===================================================================== *)

Module JS.

(** ** Numbers *)

Inductive JsNum := NaN | Num (z : Z).

#[global] Instance JsNum_eq_dec : EqDecision JsNum.
Proof. solve_decision. Defined.

(** [a + b], [a - b] *)
Definition jadd (a b : JsNum) : JsNum :=
  match a, b with Num x, Num y => Num (x + y) | _, _ => NaN end.
Definition jsub (a b : JsNum) : JsNum :=
  match a, b with Num x, Num y => Num (x - y) | _, _ => NaN end.

(** [Math.min(a, b)], [Math.max(a, b)]: NaN if either argument is NaN *)
Definition jmin (a b : JsNum) : JsNum :=
  match a, b with Num x, Num y => Num (Z.min x y) | _, _ => NaN end.
Definition jmax (a b : JsNum) : JsNum :=
  match a, b with Num x, Num y => Num (Z.max x y) | _, _ => NaN end.

(** Comparisons are false as soon as one side is NaN. *)
Definition jlt (a b : JsNum) : bool :=
  match a, b with Num x, Num y => x <? y | _, _ => false end.
Definition jle (a b : JsNum) : bool :=
  match a, b with Num x, Num y => x <=? y | _, _ => false end.
Definition jgt (a b : JsNum) : bool := jlt b a.
Definition jge (a b : JsNum) : bool := jle b a.

(** [Math.floor(a * 1.5)] and [Math.floor(a * 0.75)] on an integer [a] *)
Definition floor_x1_5 (a : JsNum) : JsNum :=
  match a with Num x => Num ((3 * x) / 2) | NaN => NaN end.
Definition floor_x0_75 (a : JsNum) : JsNum :=
  match a with Num x => Num ((3 * x) / 4) | NaN => NaN end.

(** Truthiness of a number: [0] and [NaN] are falsy. *)
Definition truthy (a : JsNum) : bool :=
  match a with Num x => negb (x =? 0) | NaN => false end.

(** [x || d] where [x] may be [undefined] *)
Definition num_or (x : option JsNum) (d : JsNum) : JsNum :=
  match x with
  | Some v => if truthy v then v else d
  | None => d
  end.

(** [x > 0] where [x] may be [undefined] ([undefined > 0] is false) *)
Definition opt_gt0 (x : option JsNum) : bool :=
  match x with Some v => jgt v (Num 0) | None => false end.

(** Number to string, as in a template literal. *)
Definition num_to_string (a : JsNum) : string :=
  match a with Num x => pretty x | NaN => "NaN" end.

(** ** Strings *)

Definition is_ws (c : ascii) : bool :=
  let n := nat_of_ascii c in
  (Nat.eqb n 32 || (Nat.leb 9 n && Nat.leb n 13))%bool.

Definition is_digit (c : ascii) : bool :=
  let n := nat_of_ascii c in (Nat.leb 48 n && Nat.leb n 57)%bool.

Definition is_lower (c : ascii) : bool :=
  let n := nat_of_ascii c in (Nat.leb 97 n && Nat.leb n 122)%bool.

Definition is_upper (c : ascii) : bool :=
  let n := nat_of_ascii c in (Nat.leb 65 n && Nat.leb n 90)%bool.

Definition is_alpha (c : ascii) : bool := (is_lower c || is_upper c)%bool.

Definition lower_char (c : ascii) : ascii :=
  if is_upper c then ascii_of_nat (nat_of_ascii c + 32) else c.
Definition upper_char (c : ascii) : ascii :=
  if is_lower c then ascii_of_nat (nat_of_ascii c - 32) else c.

Fixpoint map_string (f : ascii -> ascii) (s : string) : string :=
  match s with
  | EmptyString => EmptyString
  | String c s' => String (f c) (map_string f s')
  end.

(** [s.toLowerCase()], [s.toUpperCase()] (ASCII letters) *)
Definition toLowerCase : string -> string := map_string lower_char.
Definition toUpperCase : string -> string := map_string upper_char.

Definition is_empty (s : string) : bool :=
  match s with EmptyString => true | _ => false end.

Fixpoint trimStart (s : string) : string :=
  match s with
  | String c s' => if is_ws c then trimStart s' else s
  | EmptyString => EmptyString
  end.

Fixpoint trimEnd (s : string) : string :=
  match s with
  | EmptyString => EmptyString
  | String c s' =>
      let t := trimEnd s' in
      if (is_ws c && is_empty t)%bool then EmptyString else String c t
  end.

(** [s.trim()] *)
Definition trim (s : string) : string := trimEnd (trimStart s).

(** [s.split(sep)] for a one-character separator: never the empty list. *)
Fixpoint split (sep : ascii) (s : string) : list string :=
  match s with
  | EmptyString => [EmptyString]
  | String c s' =>
      if Ascii.eqb c sep then EmptyString :: split sep s'
      else match split sep s' with
           | p :: ps => String c p :: ps
           | [] => [String c EmptyString]
           end
  end.

(** [l.join(sep)] *)
Fixpoint join (sep : string) (l : list string) : string :=
  match l with
  | [] => EmptyString
  | [x] => x
  | x :: rest => x ++ sep ++ join sep rest
  end.

(** [s.startsWith(p)] *)
Definition startsWith (s p : string) : bool := String.prefix p s.

(** [s.includes(t)] *)
Fixpoint includes (s t : string) : bool :=
  (String.prefix t s ||
   match s with
   | EmptyString => false
   | String _ s' => includes s' t
   end)%bool.

(** [l.includes(x)] on an array of strings *)
Definition mem (x : string) (l : list string) : bool :=
  existsb (String.eqb x) l.

(** [x || d] on a possibly [undefined] string: the empty string is falsy. *)
Definition str_or (x : option string) (d : string) : string :=
  match x with
  | Some s => if is_empty s then d else s
  | None => d
  end.

(** Value of a character as a digit in the given radix. *)
Definition digit_val (radix : Z) (c : ascii) : option Z :=
  let n := Z.of_nat (nat_of_ascii c) in
  let v :=
    if is_digit c then n - 48
    else if is_lower c then n - 97 + 10
    else if is_upper c then n - 65 + 10
    else radix in
  if v <? radix then Some v else None.

(** Longest prefix of digits, accumulated left to right; [None] when the
    string does not start with a digit. *)
Fixpoint parse_digits (radix : Z) (s : string) (acc : option Z) : option Z :=
  match s with
  | EmptyString => acc
  | String c s' =>
      match digit_val radix c with
      | Some d =>
          parse_digits radix s' (Some (radix * default 0 acc + d))
      | None => acc
      end
  end.

Definition strip_hex_prefix (s : string) : option string :=
  match s with
  | String "0" (String "x" r) => Some r
  | String "0" (String "X" r) => Some r
  | _ => None
  end.

(** [parseInt(s)] without a radix argument: leading white space, an
    optional sign, an optional [0x] prefix, then the longest run of digits;
    [NaN] when there is none. *)
Definition parseInt (s : string) : JsNum :=
  let s := trimStart s in
  let '(sign, body) :=
    match s with
    | String "-" r => (-1, r)
    | String "+" r => (1, r)
    | _ => (1, s)
    end in
  let r :=
    match strip_hex_prefix body with
    | Some h => parse_digits 16 h None
    | None => parse_digits 10 body None
    end in
  match r with
  | Some v => Num (sign * v)
  | None => NaN
  end.

Fixpoint all_digits (s : string) : bool :=
  match s with
  | EmptyString => true
  | String c s' => (is_digit c && all_digits s')%bool
  end.

(** [Number(s)] on a string.  Modelled on the literals the sources and the
    model's schema use for amounts: the empty string (0) and optionally
    signed decimal integers.  Every other string that is not such a literal
    reads as [NaN] here; fractional, exponent and radix-prefixed literals
    are outside the modelled fragment. *)
Definition Number_of_string (s : string) : JsNum :=
  let s := trim s in
  if is_empty s then Num 0 else
  let '(sign, body) :=
    match s with
    | String "-" r => (-1, r)
    | String "+" r => (1, r)
    | _ => (1, s)
    end in
  if (negb (is_empty body) && all_digits body)%bool then
    match parse_digits 10 body None with
    | Some v => Num (sign * v)
    | None => NaN
    end
  else NaN.

End JS.
Export JS.

(** ** Values of unknown type ([any]) and JSON *)

Module Json.

(** What [JSON.parse] can return.  Numbers are the exact value of their
    decimal literal. *)
Inductive Json :=
| JNull
| JBool (b : bool)
| JNumber (q : Q)
| JString (s : string)
| JArray (l : list Json)
| JObject (fields : list (string * Json)).

(** Own property lookup [o.k] / [o?.k]: the last binding of a repeated key
    wins, as in [JSON.parse] and in object spread. *)
Fixpoint assoc_last (k : string) (fs : list (string * Json)) : option Json :=
  match fs with
  | [] => None
  | (k', v) :: rest =>
      match assoc_last k rest with
      | Some v' => Some v'
      | None => if String.eqb k k' then Some v else None
      end
  end.

Definition get (k : string) (j : Json) : option Json :=
  match j with JObject fs => assoc_last k fs | _ => None end.

(** Truthiness of a possibly [undefined] JSON value. *)
Definition truthy_json (o : option Json) : bool :=
  match o with
  | None | Some JNull => false
  | Some (JBool b) => b
  | Some (JNumber q) => negb (Qeq_bool q 0)
  | Some (JString s) => negb (is_empty s)
  | Some (JArray _) | Some (JObject _) => true
  end.

Fixpoint indexed_from (i : nat) (l : list Json) : list (string * Json) :=
  match l with
  | [] => []
  | x :: r => (pretty i, x) :: indexed_from (S i) r
  end.

Fixpoint chars_from (i : nat) (s : string) : list (string * Json) :=
  match s with
  | EmptyString => []
  | String c r => (pretty i, JString (String c EmptyString)) :: chars_from (S i) r
  end.

(** The own enumerable properties that [{...j}] copies. *)
Definition spread (j : Json) : list (string * Json) :=
  match j with
  | JObject fs => fs
  | JArray l => indexed_from 0 l
  | JString s => chars_from 0 s
  | _ => []
  end.

End Json.
Export Json.

(** A thrown value, as the [catch] blocks of the sources read it:
    [error.message] and [JSON.stringify(error)]. *)
Record JsError := { message : string; stringified : string }.

(** The result of a call that may throw. *)
Inductive Outcome (A : Type) :=
| Throws (error : JsError)
| Returns (a : A).
Arguments Throws {A} error.
Arguments Returns {A} a.

(** The part of a model response the sources read: [response.text]. *)
Record Response := { text : option string }.

(* ===================================================================== *)
(** * AI Spire: data model (types.ts, constants.ts) *)
(* ===================================================================== *)

Module Spire.

Inductive CardType := ATTACK | SKILL | POWER.
Inductive CardRarity := COMMON | RARE | LEGENDARY.

#[global] Instance CardType_eq_dec : EqDecision CardType.
Proof. solve_decision. Defined.
#[global] Instance CardRarity_eq_dec : EqDecision CardRarity.
Proof. solve_decision. Defined.

(** The string value of the enum member. *)
Definition CardType_str (t : CardType) : string :=
  match t with ATTACK => "ATTACK" | SKILL => "SKILL" | POWER => "POWER" end.

(** [ICard].  Optional fields are options; the numeric fields are the
    integers the response schema asks for. *)
Record ICard := {
  card_id : string;
  card_name : string;
  card_type : CardType;
  card_rarity : CardRarity;
  card_cost : Z;
  card_damage : option Z;
  card_block : option Z;
  card_description : string;
  card_specialEffect : option string;
  card_emoji : option string;
  card_price : option Z;
  card_exhaust : option bool;
  card_ethereal : option bool;
  card_innate : option bool;
  card_retain : option bool;
  card_multiHit : option Z
}.

#[global] Instance ICard_eq_dec : EqDecision ICard.
Proof. solve_decision. Defined.

Record IRelic := {
  relic_id : string;
  relic_name : string;
  relic_description : string;
  relic_effectType : string;
  relic_emoji : string;
  relic_price : option Z
}.

Record IPower := {
  power_id : string;
  power_name : string;
  power_description : string;
  power_effectType : string;
  power_icon : string
}.

(** [IPlayer extends IEntity] *)
Record IPlayer := {
  p_maxHp : JsNum;
  p_currentHp : JsNum;
  p_block : JsNum;
  p_statuses : gmap string JsNum;
  p_gold : JsNum;
  p_energy : JsNum;
  p_maxEnergy : JsNum;
  p_deck : list ICard;
  p_hand : list ICard;
  p_discardPile : list ICard;
  p_drawPile : list ICard;
  p_exhaustPile : list ICard;
  p_relics : list IRelic;
  p_powers : list IPower
}.

(** [IEnemy extends IEntity] *)
Record IEnemy := {
  e_maxHp : JsNum;
  e_currentHp : JsNum;
  e_block : JsNum;
  e_statuses : gmap string JsNum;
  e_name : string;
  e_intent : string;
  e_nextMoveDamage : JsNum;
  e_isElite : option bool;
  e_isBoss : option bool;
  e_emoji : option string
}.

Inductive RoomType := MONSTER | ELITE | SHOP_ROOM | REST_ROOM | BOSS.

Record MapNode := {
  node_id : string;
  node_type : RoomType;
  node_name : string;
  node_icon : string;
  node_level : Z
}.

Inductive GamePhase :=
| MENU | MAP_SELECTION | BATTLE_PLAYER_TURN | BATTLE_ENEMY_TURN
| BATTLE_WIN | BATTLE_LOSS | REWARD | SHOP | REST.

#[global] Instance GamePhase_eq_dec : EqDecision GamePhase.
Proof. solve_decision. Defined.
#[global] Instance RoomType_eq_dec : EqDecision RoomType.
Proof. solve_decision. Defined.

(** constants.ts *)
Definition INITIAL_ENERGY : Z := 3.
Definition CARDS_PER_TURN : Z := 3.
Definition INITIAL_HAND_SIZE : Z := 5.
Definition MAX_HAND_SIZE : Z := 10.
Definition STARTING_GOLD : Z := 99.

Definition createStrike (id : string) : ICard :=
  {| card_id := "strike-" ++ id; card_name := "Strike"; card_type := ATTACK;
     card_rarity := COMMON; card_cost := 1; card_damage := Some 6;
     card_block := None; card_description := "Deal 6 damage.";
     card_specialEffect := None; card_emoji := Some "🗡️"; card_price := None;
     card_exhaust := None; card_ethereal := None; card_innate := None;
     card_retain := None; card_multiHit := None |}.

Definition createDefend (id : string) : ICard :=
  {| card_id := "defend-" ++ id; card_name := "Defend"; card_type := SKILL;
     card_rarity := COMMON; card_cost := 1; card_damage := None;
     card_block := Some 5; card_description := "Gain 5 Block.";
     card_specialEffect := None; card_emoji := Some "🛡️"; card_price := None;
     card_exhaust := None; card_ethereal := None; card_innate := None;
     card_retain := None; card_multiHit := None |}.

Definition createBash (id : string) : ICard :=
  {| card_id := "bash-" ++ id; card_name := "Bash"; card_type := ATTACK;
     card_rarity := COMMON; card_cost := 2; card_damage := Some 8;
     card_block := Some 0;
     card_description := "Deal 8 damage. Apply 2 Vulnerable.";
     card_specialEffect := Some "vulnerable_2"; card_emoji := Some "💥";
     card_price := None;
     card_exhaust := None; card_ethereal := None; card_innate := None;
     card_retain := None; card_multiHit := None |}.

Definition getInitialDeck : list ICard :=
  [ createStrike "1"; createStrike "2"; createStrike "3"; createStrike "4";
    createDefend "1"; createDefend "2"; createDefend "3"; createDefend "4";
    createBash "1" ].

(* =================================================================== *)
(** * AI Spire: generative content service (services/geminiService.ts) *)
(* =================================================================== *)

(** A value of type [any] as the sanitizers receive it. *)
Inductive AnyVal :=
| VUndefined
| VNumber (n : JsNum)
| VString (s : string).

(** [Number(value)] *)
Definition Number (v : AnyVal) : JsNum :=
  match v with
  | VUndefined => NaN
  | VNumber n => n
  | VString s => Number_of_string s
  end.

Definition clampNumber (value : AnyVal) (min max fallback : Z) : Z :=
  match Number value with
  | NaN => fallback
  | Num num => Z.min max (Z.max min num)
  end.

Definition clamp01 (value : Q) : Q := Qmin 1 (Qmax 0 value).
Definition lerp (a b t : Q) : Q := (a + (b - a) * t)%Q.

Record RarityChances := { common : Q; rare : Q; legendary : Q }.

Definition getShopRarityChances (level : Q) : RarityChances :=
  let t := clamp01 ((level - 1) / 20)%Q in
  let legendary := lerp 0.02 0.15 t in
  let rare := lerp 0.22 0.55 t in
  let common := Qmax 0 (1 - legendary - rare)%Q in
  {| common := common; rare := rare; legendary := legendary |}.

(** [rollShopCardRarity]; [roll] is the value of [Math.random()]. *)
Definition rollShopCardRarity (level : Q) (roll : Q) : CardRarity :=
  let c := getShopRarityChances level in
  if Qlt_le_dec roll (legendary c) then LEGENDARY
  else if Qlt_le_dec roll (legendary c + rare c)%Q then RARE
  else COMMON.

Definition ALLOWED_FETCH_SOURCES := ["draw"; "discard"; "exhaust"; "deck"].
Definition ALLOWED_FETCH_FILTERS := ["ATTACK"; "SKILL"; "POWER"; "ANY"; "ALL"].
Definition ALLOWED_ENEMY_STATUS :=
  ["poison"; "burn"; "freeze"; "stun"; "weak"; "vulnerable"].
Definition ALLOWED_PLAYER_STATUS :=
  ["strength"; "dexterity"; "frail"; "reflect"; "metallicize"; "regen"].
Definition ALLOWED_RECURRING_ACTIONS :=
  ["energy"; "block"; "heal"; "draw"; "damage"; "poison"; "weak";
   "vulnerable"; "freeze"; "burn"; "regen"; "metallicize"; "plates"].
Definition ALLOWED_RELIC_TRIGGERS :=
  ["start_combat"; "end_combat"; "turn_start"; "play_attack"; "play_skill";
   "play_power"; "shop_enter"].
Definition ALLOWED_RELIC_ACTIONS :=
  ["heal"; "damage"; "block"; "energy"; "draw"; "strength"; "dexterity";
   "max_hp"; "apply"].
Definition ALLOWED_RELIC_APPLY := ["poison"; "weak"; "vulnerable"].

(** [set.has(x)] where [x] may be [undefined] *)
Definition has (set : list string) (x : option string) : bool :=
  match x with Some s => mem s set | None => false end.

(** [parts[i] ?? d] *)
Definition part_or (parts : list string) (i : nat) (d : Z) : AnyVal :=
  match parts !! i with
  | Some p => VString p
  | None => VNumber (Num d)
  end.

(** [s.split('_').map(p => p.trim()).filter(Boolean)] *)
Definition split_parts (s : string) : list string :=
  filter (fun p => is_empty p = false) (map trim (split "_" s)).

Definition sanitizeEffectToken (raw : string) : option string :=
  let effect := toLowerCase (trim raw) in
  if is_empty effect then None else
  let parts := split_parts effect in
  match parts with
  | [] => None
  | head :: _ =>
    if (String.eqb head "fetch" || String.eqb head "recover")%bool then
      let source := parts !! 1%nat in
      if negb (has ALLOWED_FETCH_SOURCES source) then None else
      let filterRaw := toUpperCase (str_or (parts !! 2%nat) "") in
      let source := default "" source in
      if mem filterRaw ALLOWED_FETCH_FILTERS
      then Some (head ++ "_" ++ source ++ "_" ++ filterRaw)
      else Some (head ++ "_" ++ source)
    else if (mem head ALLOWED_ENEMY_STATUS || mem head ALLOWED_PLAYER_STATUS)%bool then
      let amount := clampNumber (part_or parts 1 1) 1 50 1 in
      Some (head ++ "_" ++ pretty amount)
    else if (String.eqb head "draw" || String.eqb head "energy"
             || String.eqb head "heal" || String.eqb head "lifesteal")%bool then
      let amount := clampNumber (part_or parts 1 0) 0 50 0 in
      Some (head ++ "_" ++ pretty amount)
    else if (String.eqb head "self"
             && bool_decide (parts !! 1%nat = Some "damage"))%bool then
      let amount := clampNumber (part_or parts 2 0) 0 30 0 in
      Some ("self_damage_" ++ pretty amount)
    else if (String.eqb head "recurring" || String.eqb head "turn_start"
             || String.eqb head "start_turn")%bool then
      let action := parts !! 1%nat in
      if negb (has ALLOWED_RECURRING_ACTIONS action) then None else
      let amount := clampNumber (part_or parts 2 1) 1 50 1 in
      Some (head ++ "_" ++ default "" action ++ "_" ++ pretty amount)
    else None
  end.

(** [raw.split(',').map(sanitizeEffectToken).filter(Boolean)], rejoined. *)
Definition sanitizeSpecialEffect (raw : AnyVal) : option string :=
  match raw with
  | VString raw =>
      let sanitized :=
        filter (fun t => is_empty t = false)
               (omap sanitizeEffectToken (split "," raw)) in
      match sanitized with
      | [] => None
      | _ => Some (join "," sanitized)
      end
  | _ => None
  end.

Definition sanitizeRelicEffectType (raw : AnyVal) : option string :=
  match raw with
  | VString raw =>
    if is_empty (trim raw) then None else
    let parts := split_parts (toLowerCase raw) in
    match parts with
    | [] => None
    | p0 :: _ =>
      let two := match parts !! 1%nat with
                 | Some p1 => Some (p0 ++ "_" ++ p1)
                 | None => None
                 end in
      let '(trigger, index) :=
        if has ALLOWED_RELIC_TRIGGERS two then (default "" two, 2%nat)
        else if mem p0 ALLOWED_RELIC_TRIGGERS then (p0, 1%nat)
        else ("start_combat", 0%nat) in
      match parts !! index with
      | None => None
      | Some action =>
        if String.eqb action "apply" then
          let status := parts !! (index + 1)%nat in
          if negb (has ALLOWED_RELIC_APPLY status) then None else
          let amount := clampNumber (part_or parts (index + 2) 1) 1 50 1 in
          Some (trigger ++ "_apply_" ++ default "" status ++ "_" ++ pretty amount)
        else if (String.eqb action "max"
                 && bool_decide (parts !! (index + 1)%nat = Some "hp"))%bool then
          let amount := clampNumber (part_or parts (index + 2) 5) 1 50 5 in
          Some ("max_hp_" ++ pretty amount)
        else if negb (mem action ALLOWED_RELIC_ACTIONS) then None
        else
          let amount := clampNumber (part_or parts (index + 1) 1) 1 50 1 in
          Some (trigger ++ "_" ++ action ++ "_" ++ pretty amount)
      end
    end
  | _ => None
  end.

(** [mockGenerateCards]; [now i] is the value of the [i]-th [Date.now()]. *)
Definition mockGenerateCards (now : nat -> Z) (level : Z) : list ICard :=
  [ {| card_id := "mock-1-" ++ pretty (now 0%nat); card_name := "Venom Strike";
       card_type := ATTACK; card_rarity := COMMON; card_cost := 1;
       card_damage := Some (4 + level); card_block := None;
       card_description :=
         "Deal " ++ pretty (4 + level) ++ " dmg. Apply 4 Poison.";
       card_specialEffect := Some "poison_4"; card_emoji := Some "🐍";
       card_price := None; card_exhaust := None; card_ethereal := None;
       card_innate := None; card_retain := None; card_multiHit := None |};
    {| card_id := "mock-2-" ++ pretty (now 1%nat); card_name := "Seeker";
       card_type := SKILL; card_rarity := RARE; card_cost := 0;
       card_damage := None; card_block := None;
       card_description := "Put an Attack from your draw pile into your hand.";
       card_specialEffect := Some "fetch_draw_attack"; card_emoji := Some "🔭";
       card_price := None; card_exhaust := Some true; card_ethereal := None;
       card_innate := None; card_retain := None; card_multiHit := None |};
    {| card_id := "mock-3-" ++ pretty (now 2%nat); card_name := "Combustion";
       card_type := POWER; card_rarity := RARE; card_cost := 1;
       card_damage := None; card_block := None;
       card_description := "Apply 5 Burn.";
       card_specialEffect := Some "burn_5"; card_emoji := Some "🔥";
       card_price := None; card_exhaust := None; card_ethereal := None;
       card_innate := None; card_retain := None; card_multiHit := None |} ].

(** [generateRewardCards].  The inputs are the configured API key, the
    outcome of the model call, the builtin [JSON.parse] ([None]: it throws)
    and the fresh identifiers [Math.random] yields.  The single-card
    sanitizer enters only through the list [sanitizeCards] returns, so it
    is taken as an argument. *)
Section RewardCards.
Variable JSON_parse : string -> option Json.
Variable sanitizeCard : Json -> option ICard.
Variable freshId : nat -> string.

(** [(rawCards || []).map(sanitizeCard).filter(Boolean)] *)
Definition sanitizeCards (rawCards : list Json) : list ICard :=
  omap sanitizeCard rawCards.

(** [{ id: .., ...c }] *)
Definition with_id (id : string) (c : Json) : Json :=
  JObject (("id", JString id) :: spread c).

Definition generateRewardCards
    (apiKey : string) (now : nat -> Z) (reply : Outcome Response)
    (level : Z) : list ICard :=
  if is_empty apiKey then mockGenerateCards now level else
  match reply with
  | Throws _ => mockGenerateCards now level
  | Returns response =>
      let rawCards :=
        match JSON_parse (str_or (text response) "[]") with
        | Some j => j
        | None => JArray []
        end in
      match rawCards with
      | JArray cs =>
          let sanitized :=
            sanitizeCards
              (imap (fun i c =>
                       with_id ("gen-" ++ pretty level ++ "-" ++ freshId i) c)
                    cs) in
          match sanitized with
          | [] => mockGenerateCards now level
          | _ => sanitized
          end
      | _ =>
(* [rawCards.map] is not a function: the TypeError is caught *)
mockGenerateCards now level
end
end.
End RewardCards.

(* =================================================================== *)
(** * AI Spire: game orchestrator (App.tsx) *)
(* =================================================================== *)

Inductive PileSource := SrcDraw | SrcDiscard | SrcExhaust | SrcDeck.

(** The two callbacks the component installs as [onSelect]: the one of a
    fetch/recover effect (it captures [validSource]) and the one of the
    rest site. *)
Inductive OnSelect :=
| FetchToHand (validSource : PileSource)
| RemoveFromDeck.

Record SelectionState := {
  sel_isOpen : bool;
  sel_source : PileSource;
  sel_filter : option string;
  sel_title : string;
  sel_onSelect : OnSelect
}.

(** The [useState] cells of the component. *)
Record GameState := {
  phase : GamePhase;
  level : Z;
  logs : list string;
  player : IPlayer;
  enemy : IEnemy;
  selection : option SelectionState;
  currentRoom : option RoomType
}.

(** The values [Math.random] produces during one handler: the permutation
    the random-comparator sort yields and one uniform draw from [0,1). *)
Record Oracle := {
  shuffle : list ICard -> list ICard;
  random : Q
}.

(** Functional record update, one function per field that the
    handlers write ([{ ...p, field: v }]). *)
Definition set_p_maxHp (v : JsNum) (p : IPlayer) : IPlayer :=
  {| p_maxHp := v; p_currentHp := p_currentHp p; p_block := p_block p;
     p_statuses := p_statuses p; p_gold := p_gold p;
     p_energy := p_energy p; p_maxEnergy := p_maxEnergy p;
     p_deck := p_deck p; p_hand := p_hand p;
     p_discardPile := p_discardPile p; p_drawPile := p_drawPile p;
     p_exhaustPile := p_exhaustPile p; p_relics := p_relics p;
     p_powers := p_powers p |}.
Definition set_p_currentHp (v : JsNum) (p : IPlayer) : IPlayer :=
  {| p_maxHp := p_maxHp p; p_currentHp := v; p_block := p_block p;
     p_statuses := p_statuses p; p_gold := p_gold p;
     p_energy := p_energy p; p_maxEnergy := p_maxEnergy p;
     p_deck := p_deck p; p_hand := p_hand p;
     p_discardPile := p_discardPile p; p_drawPile := p_drawPile p;
     p_exhaustPile := p_exhaustPile p; p_relics := p_relics p;
     p_powers := p_powers p |}.
Definition set_p_block (v : JsNum) (p : IPlayer) : IPlayer :=
  {| p_maxHp := p_maxHp p; p_currentHp := p_currentHp p; p_block := v;
     p_statuses := p_statuses p; p_gold := p_gold p;
     p_energy := p_energy p; p_maxEnergy := p_maxEnergy p;
     p_deck := p_deck p; p_hand := p_hand p;
     p_discardPile := p_discardPile p; p_drawPile := p_drawPile p;
     p_exhaustPile := p_exhaustPile p; p_relics := p_relics p;
     p_powers := p_powers p |}.
Definition set_p_statuses (v : gmap string JsNum) (p : IPlayer) : IPlayer :=
  {| p_maxHp := p_maxHp p; p_currentHp := p_currentHp p;
     p_block := p_block p; p_statuses := v; p_gold := p_gold p;
     p_energy := p_energy p; p_maxEnergy := p_maxEnergy p;
     p_deck := p_deck p; p_hand := p_hand p;
     p_discardPile := p_discardPile p; p_drawPile := p_drawPile p;
     p_exhaustPile := p_exhaustPile p; p_relics := p_relics p;
     p_powers := p_powers p |}.
Definition set_p_gold (v : JsNum) (p : IPlayer) : IPlayer :=
  {| p_maxHp := p_maxHp p; p_currentHp := p_currentHp p;
     p_block := p_block p; p_statuses := p_statuses p; p_gold := v;
     p_energy := p_energy p; p_maxEnergy := p_maxEnergy p;
     p_deck := p_deck p; p_hand := p_hand p;
     p_discardPile := p_discardPile p; p_drawPile := p_drawPile p;
     p_exhaustPile := p_exhaustPile p; p_relics := p_relics p;
     p_powers := p_powers p |}.
Definition set_p_energy (v : JsNum) (p : IPlayer) : IPlayer :=
  {| p_maxHp := p_maxHp p; p_currentHp := p_currentHp p;
     p_block := p_block p; p_statuses := p_statuses p; p_gold := p_gold p;
     p_energy := v; p_maxEnergy := p_maxEnergy p; p_deck := p_deck p;
     p_hand := p_hand p; p_discardPile := p_discardPile p;
     p_drawPile := p_drawPile p; p_exhaustPile := p_exhaustPile p;
     p_relics := p_relics p; p_powers := p_powers p |}.
Definition set_p_deck (v : list ICard) (p : IPlayer) : IPlayer :=
  {| p_maxHp := p_maxHp p; p_currentHp := p_currentHp p;
     p_block := p_block p; p_statuses := p_statuses p; p_gold := p_gold p;
     p_energy := p_energy p; p_maxEnergy := p_maxEnergy p; p_deck := v;
     p_hand := p_hand p; p_discardPile := p_discardPile p;
     p_drawPile := p_drawPile p; p_exhaustPile := p_exhaustPile p;
     p_relics := p_relics p; p_powers := p_powers p |}.
Definition set_p_hand (v : list ICard) (p : IPlayer) : IPlayer :=
  {| p_maxHp := p_maxHp p; p_currentHp := p_currentHp p;
     p_block := p_block p; p_statuses := p_statuses p; p_gold := p_gold p;
     p_energy := p_energy p; p_maxEnergy := p_maxEnergy p;
     p_deck := p_deck p; p_hand := v; p_discardPile := p_discardPile p;
     p_drawPile := p_drawPile p; p_exhaustPile := p_exhaustPile p;
     p_relics := p_relics p; p_powers := p_powers p |}.
Definition set_p_discardPile (v : list ICard) (p : IPlayer) : IPlayer :=
  {| p_maxHp := p_maxHp p; p_currentHp := p_currentHp p;
     p_block := p_block p; p_statuses := p_statuses p; p_gold := p_gold p;
     p_energy := p_energy p; p_maxEnergy := p_maxEnergy p;
     p_deck := p_deck p; p_hand := p_hand p; p_discardPile := v;
     p_drawPile := p_drawPile p; p_exhaustPile := p_exhaustPile p;
     p_relics := p_relics p; p_powers := p_powers p |}.
Definition set_p_drawPile (v : list ICard) (p : IPlayer) : IPlayer :=
  {| p_maxHp := p_maxHp p; p_currentHp := p_currentHp p;
     p_block := p_block p; p_statuses := p_statuses p; p_gold := p_gold p;
     p_energy := p_energy p; p_maxEnergy := p_maxEnergy p;
     p_deck := p_deck p; p_hand := p_hand p;
     p_discardPile := p_discardPile p; p_drawPile := v;
     p_exhaustPile := p_exhaustPile p; p_relics := p_relics p;
     p_powers := p_powers p |}.
Definition set_p_exhaustPile (v : list ICard) (p : IPlayer) : IPlayer :=
  {| p_maxHp := p_maxHp p; p_currentHp := p_currentHp p;
     p_block := p_block p; p_statuses := p_statuses p; p_gold := p_gold p;
     p_energy := p_energy p; p_maxEnergy := p_maxEnergy p;
     p_deck := p_deck p; p_hand := p_hand p;
     p_discardPile := p_discardPile p; p_drawPile := p_drawPile p;
     p_exhaustPile := v; p_relics := p_relics p; p_powers := p_powers p |}.
Definition set_p_relics (v : list IRelic) (p : IPlayer) : IPlayer :=
  {| p_maxHp := p_maxHp p; p_currentHp := p_currentHp p;
     p_block := p_block p; p_statuses := p_statuses p; p_gold := p_gold p;
     p_energy := p_energy p; p_maxEnergy := p_maxEnergy p;
     p_deck := p_deck p; p_hand := p_hand p;
     p_discardPile := p_discardPile p; p_drawPile := p_drawPile p;
     p_exhaustPile := p_exhaustPile p; p_relics := v;
     p_powers := p_powers p |}.
Definition set_p_powers (v : list IPower) (p : IPlayer) : IPlayer :=
  {| p_maxHp := p_maxHp p; p_currentHp := p_currentHp p;
     p_block := p_block p; p_statuses := p_statuses p; p_gold := p_gold p;
     p_energy := p_energy p; p_maxEnergy := p_maxEnergy p;
     p_deck := p_deck p; p_hand := p_hand p;
     p_discardPile := p_discardPile p; p_drawPile := p_drawPile p;
     p_exhaustPile := p_exhaustPile p; p_relics := p_relics p;
     p_powers := v |}.
Definition set_e_currentHp (v : JsNum) (e : IEnemy) : IEnemy :=
  {| e_maxHp := e_maxHp e; e_currentHp := v; e_block := e_block e;
     e_statuses := e_statuses e; e_name := e_name e;
     e_intent := e_intent e; e_nextMoveDamage := e_nextMoveDamage e;
     e_isElite := e_isElite e; e_isBoss := e_isBoss e;
     e_emoji := e_emoji e |}.
Definition set_e_block (v : JsNum) (e : IEnemy) : IEnemy :=
  {| e_maxHp := e_maxHp e; e_currentHp := e_currentHp e; e_block := v;
     e_statuses := e_statuses e; e_name := e_name e;
     e_intent := e_intent e; e_nextMoveDamage := e_nextMoveDamage e;
     e_isElite := e_isElite e; e_isBoss := e_isBoss e;
     e_emoji := e_emoji e |}.
Definition set_e_statuses (v : gmap string JsNum) (e : IEnemy) : IEnemy :=
  {| e_maxHp := e_maxHp e; e_currentHp := e_currentHp e;
     e_block := e_block e; e_statuses := v; e_name := e_name e;
     e_intent := e_intent e; e_nextMoveDamage := e_nextMoveDamage e;
     e_isElite := e_isElite e; e_isBoss := e_isBoss e;
     e_emoji := e_emoji e |}.
Definition set_e_nextMoveDamage (v : JsNum) (e : IEnemy) : IEnemy :=
  {| e_maxHp := e_maxHp e; e_currentHp := e_currentHp e;
     e_block := e_block e; e_statuses := e_statuses e; e_name := e_name e;
     e_intent := e_intent e; e_nextMoveDamage := v;
     e_isElite := e_isElite e; e_isBoss := e_isBoss e;
     e_emoji := e_emoji e |}.
Definition set_phase (v : GamePhase) (s : GameState) : GameState :=
  {| phase := v; level := level s; logs := logs s; player := player s;
     enemy := enemy s; selection := selection s;
     currentRoom := currentRoom s |}.
Definition set_level (v : Z) (s : GameState) : GameState :=
  {| phase := phase s; level := v; logs := logs s; player := player s;
     enemy := enemy s; selection := selection s;
     currentRoom := currentRoom s |}.
Definition set_logs (v : list string) (s : GameState) : GameState :=
  {| phase := phase s; level := level s; logs := v; player := player s;
     enemy := enemy s; selection := selection s;
     currentRoom := currentRoom s |}.
Definition set_player (v : IPlayer) (s : GameState) : GameState :=
  {| phase := phase s; level := level s; logs := logs s; player := v;
     enemy := enemy s; selection := selection s;
     currentRoom := currentRoom s |}.
Definition set_enemy (v : IEnemy) (s : GameState) : GameState :=
  {| phase := phase s; level := level s; logs := logs s;
     player := player s; enemy := v; selection := selection s;
     currentRoom := currentRoom s |}.
Definition set_selection (v : option SelectionState) (s : GameState) : GameState :=
  {| phase := phase s; level := level s; logs := logs s;
     player := player s; enemy := enemy s; selection := v;
     currentRoom := currentRoom s |}.
Definition set_currentRoom (v : option RoomType) (s : GameState) : GameState :=
  {| phase := phase s; level := level s; logs := logs s;
     player := player s; enemy := enemy s; selection := selection s;
     currentRoom := v |}.

(** A queued state update. *)
Definition Upd := GameState -> GameState.

Definition setPlayer (f : IPlayer -> IPlayer) : Upd :=
  fun s => set_player (f (player s)) s.
Definition setEnemy (f : IEnemy -> IEnemy) : Upd :=
  fun s => set_enemy (f (enemy s)) s.
Definition setPhase (ph : GamePhase) : Upd := set_phase ph.
Definition setSelection (sel : option SelectionState) : Upd := set_selection sel.

(** Updates are applied in the order they were queued. *)
Definition batch (us : list Upd) : Upd := fun s => foldl (fun acc u => u acc) s us.
Definition forEach {A} (l : list A) (body : A -> Upd) : Upd :=
  fun s => foldl (fun acc x => body x acc) s l.
Definition when (b : bool) (u : Upd) : Upd := if b then u else (fun s => s).

(** [setLogs(prev => [msg, ...prev].slice(0, 4))] *)
Definition addLog (msg : string) : Upd :=
  fun s => set_logs (take 4 (msg :: logs s)) s.

(** [o === lit] for a possibly [undefined] string *)
Definition is_str (o : option string) (lit : string) : bool :=
  match o with Some s => String.eqb s lit | None => false end.

(** A possibly [undefined] string inside a template literal. *)
Definition show (o : option string) : string := default "undefined" o.

(** [statuses[k] = (statuses[k] || 0) + amount] *)
Definition add_status (k : string) (amount : JsNum)
    (m : gmap string JsNum) : gmap string JsNum :=
  <[k := jadd (num_or (m !! k) (Num 0)) amount]> m.

(** *** drawCards *)

(** [l.pop()]: the last element and the rest. *)
Definition pop {A} (l : list A) : option (A * list A) :=
  match reverse l with
  | [] => None
  | x :: r => Some (x, reverse r)
  end.

(** The [for] loop of [drawCards], [n] iterations left. *)
Fixpoint draw_loop (o : Oracle) (n : nat)
    (newHand newDraw newDiscard : list ICard)
    : list ICard * list ICard * list ICard :=
  match n with
  | O => (newHand, newDraw, newDiscard)
  | S n' =>
      match newDraw, newDiscard with
      | [], [] => (newHand, newDraw, newDiscard)          (* break *)
      | _, _ =>
          let '(newDraw, newDiscard) :=
            match newDraw with
            | [] => (shuffle o newDiscard, [])
            | _ => (newDraw, newDiscard)
            end in
          match pop newDraw with
          | Some (c, rest) =>
              draw_loop o n' (newHand ++ [c]) rest newDiscard
          | None => draw_loop o n' newHand newDraw newDiscard
          end
      end
  end.

(** The updater [drawCards] queues. *)
Definition drawCards_upd (o : Oracle) (count : JsNum) (prev : IPlayer) : IPlayer :=
  if MAX_HAND_SIZE <=? Z.of_nat (length (p_hand prev)) then prev else
  let cardsNeeded :=
    jmin count (Num (MAX_HAND_SIZE - Z.of_nat (length (p_hand prev)))) in
  if jle cardsNeeded (Num 0) then prev else
  let iterations :=
    match cardsNeeded with Num n => Z.to_nat n | NaN => O end in
  let '(newHand, newDraw, newDiscard) :=
    draw_loop o iterations (p_hand prev) (p_drawPile prev) (p_discardPile prev) in
  set_p_hand newHand (set_p_drawPile newDraw (set_p_discardPile newDiscard prev)).

Definition drawCards (o : Oracle) (count : JsNum) : Upd :=
  setPlayer (drawCards_upd o count).

(** *** processRelicTrigger *)

Record RelicDecode := {
  rTrigger : string;
  rAction : option string;
  rAmount : JsNum
}.

(** The decoding of [relic.effectType] at the top of the [forEach] body. *)
Definition decodeRelic (trigger effectType : string) : RelicDecode :=
  let parts := split "_" effectType in
  let p0 := default "" (parts !! 0%nat) in
  if mem p0 ["start"; "end"; "turn"; "play"; "shop"] then
    let rT := p0 ++ "_" ++ show (parts !! 1%nat) in
    if is_str (parts !! 2%nat) "apply" then
      {| rTrigger := rT; rAction := parts !! 3%nat;
         rAmount := parseInt (str_or (parts !! 4%nat) "1") |}
    else
      {| rTrigger := rT; rAction := parts !! 2%nat;
         rAmount := parseInt (str_or (parts !! 3%nat) "1") |}
  else if String.eqb trigger "start_combat" then
    if String.eqb p0 "apply" then
      {| rTrigger := "start_combat"; rAction := parts !! 1%nat;
         rAmount := parseInt (str_or (parts !! 2%nat) "1") |}
    else
      {| rTrigger := "start_combat"; rAction := parts !! 0%nat;
         rAmount := parseInt (str_or (parts !! 1%nat) "1") |}
  else
    {| rTrigger := p0; rAction := parts !! 1%nat;
       rAmount := parseInt (str_or (parts !! 2%nat) "1") |}.

(** The [case] labels that add to a status counter of the player, and of
    the enemy. *)
Definition is_player_status_action (rAction : option string) : bool :=
  (is_str rAction "strength" || is_str rAction "dexterity"
   || is_str rAction "reflect" || is_str rAction "metallicize"
   || is_str rAction "regen")%bool.
Definition is_enemy_status_action (rAction : option string) : bool :=
  (is_str rAction "poison" || is_str rAction "weak"
   || is_str rAction "vulnerable")%bool.

(** The [switch (rAction)] of the [forEach] body. *)
Definition relicAction (o : Oracle) (relic : IRelic) (d : RelicDecode) : Upd :=
  let rAction := rAction d in
  let rAmount := rAmount d in
  let n := num_to_string rAmount in
  if is_str rAction "heal" then
    batch [ setPlayer (fun p =>
            set_p_currentHp (jmin (p_maxHp p) (jadd (p_currentHp p) rAmount)) p);
          addLog (relic_name relic ++ " healed " ++ n ++ ".") ]
  else if is_str rAction "block" then
    batch [ setPlayer (fun p => set_p_block (jadd (p_block p) rAmount) p);
          addLog (relic_name relic ++ " gave " ++ n ++ " Block.") ]
  else if is_str rAction "damage" then
    batch [ setEnemy (fun e =>
            set_e_currentHp (jmax (Num 0) (jsub (e_currentHp e) rAmount)) e);
          addLog (relic_name relic ++ " dealt " ++ n ++ " damage.") ]
  else if is_str rAction "energy" then
    batch [ setPlayer (fun p => set_p_energy (jadd (p_energy p) rAmount) p);
          addLog (relic_name relic ++ " gave " ++ n ++ " Energy.") ]
  else if is_str rAction "draw" then
    batch [ drawCards o rAmount;
          addLog (relic_name relic ++ " drew " ++ n ++ " cards.") ]
  else if is_player_status_action rAction then
    let statusKey := default "" rAction in
    batch [ setPlayer (fun p =>
            set_p_statuses (add_status statusKey rAmount (p_statuses p)) p);
          addLog (relic_name relic ++ ": +" ++ n ++ " " ++ statusKey ++ ".") ]
  else if is_enemy_status_action rAction then
    let enemyDebuff := default "" rAction in
    batch [ setEnemy (fun e =>
            set_e_statuses (add_status enemyDebuff rAmount (e_statuses e)) e);
          addLog (relic_name relic ++ " applied " ++ n ++ " " ++ enemyDebuff ++ ".") ]
  else (fun s => s).

(** The body of [player.relics.forEach]. *)
Definition relicStep (o : Oracle) (trigger : string)
    (contextCard : option ICard) (relic : IRelic) : Upd :=
  if is_empty (relic_effectType relic) then (fun s => s) else
  let d := decodeRelic trigger (relic_effectType relic) in
  if negb (String.eqb trigger (rTrigger d)) then (fun s => s) else
  let filtered :=
    match contextCard with
    | Some card =>
        (startsWith trigger "play_" &&
         negb (String.eqb (CardType_str (card_type card))
                 (toUpperCase (show (split "_" trigger !! 1%nat)))))%bool
    | None => false
    end in
  if filtered then (fun s => s) else relicAction o relic d.

(** [c] is the state the handler closes over: it supplies [player.relics]. *)
Definition processRelicTrigger (o : Oracle) (c : GameState)
    (trigger : string) (contextCard : option ICard) : Upd :=
  forEach (p_relics (player c)) (relicStep o trigger contextCard).

Definition getPlayerStats (c : GameState) : JsNum * JsNum :=
  (num_or (p_statuses (player c) !! "strength") (Num 0),
   num_or (p_statuses (player c) !! "dexterity") (Num 0)).

Definition applyRelicPickupEffect (relic : IRelic) : Upd :=
  let parts := split "_" (relic_effectType relic) in
  if includes (relic_effectType relic) "max_hp" then
    let amount := parseInt (str_or (last parts) "0") in
    batch [ setPlayer (fun p =>
            set_p_maxHp (jadd (p_maxHp p) amount)
              (set_p_currentHp (jadd (p_currentHp p) amount) p));
          addLog ("Max HP increased by " ++ num_to_string amount) ]
  else (fun s => s).

(** *** triggerPlayerPowers *)

Fixpoint span (f : ascii -> bool) (s : string) : string * string :=
  match s with
  | String c s' =>
      if f c then let '(a, b) := span f s' in (String c a, b)
      else (EmptyString, s)
  | EmptyString => (EmptyString, EmptyString)
  end.

Fixpoint drop_string (n : nat) (s : string) : string :=
  match n, s with
  | S n', String _ s' => drop_string n' s'
  | _, _ => s
  end.

(** A match of
    [/(?:recurring|turn_start|start_turn)_([a-zA-Z]+)(?:_(\d+))?/]
    anchored at the start of [s]: the two capture groups. *)
Definition power_match_here (s : string) : option (string * option string) :=
  let try (pre : string) :=
    if String.prefix (pre ++ "_") s then
      let '(letters, rest) := span is_alpha (drop_string (String.length pre + 1) s) in
      if is_empty letters then None else
      match rest with
      | String "_" r =>
          let '(ds, _) := span is_digit r in
          if is_empty ds then Some (letters, None) else Some (letters, Some ds)
      | _ => Some (letters, None)
      end
    else None in
  match try "recurring" with
  | Some r => Some r
  | None =>
      match try "turn_start" with
      | Some r => Some r
      | None => try "start_turn"
      end
  end.

(** [eff.match(..)]: the leftmost match. *)
Fixpoint power_match (s : string) : option (string * option string) :=
  match power_match_here s with
  | Some r => Some r
  | None =>
      match s with
      | String _ s' => power_match s'
      | EmptyString => None
      end
  end.

Definition effect_keys : list string :=
  ["energy"; "block"; "heal"; "draw"; "damage"; "poison"; "weak";
   "vulnerable"; "freeze"; "burn"].

(** The local [effects] object, all fields initially 0. *)
Definition effects_init : gmap string JsNum :=
  list_to_map ((fun k => (k, Num 0)) <$> effect_keys).

Definition eff_get (effects : gmap string JsNum) (k : string) : JsNum :=
  default (Num 0) (effects !! k).
Definition eff_add (k : string) (amount : JsNum)
    (effects : gmap string JsNum) : gmap string JsNum :=
  <[k := jadd (eff_get effects k) amount]> effects.

(** The body of [rawEffects.forEach]. *)
Definition power_effect (eff : string)
    (effects : gmap string JsNum) : gmap string JsNum :=
  match power_match eff with
  | Some (m1, m2) =>
      let action := toLowerCase m1 in
      let amount := match m2 with Some ds => parseInt ds | None => Num 1 end in
      let effects :=
        if mem action effect_keys then eff_add action amount effects
        else effects in
      let effects :=
        if String.eqb action "regen" then eff_add "heal" amount effects
        else effects in
      let effects :=
        if String.eqb action "metallicize" then eff_add "block" amount effects
        else effects in
      let effects :=
        if String.eqb action "plates" then eff_add "block" amount effects
        else effects in
      if (String.eqb action "apply" && includes eff "freeze")%bool
      then <["freeze" := Num 1]> effects
      else effects
  | None =>
      if (String.eqb eff "recurring_freeze"
          || String.eqb eff "turn_start_freeze")%bool
      then <["freeze" := Num 1]> effects
      else effects
  end.

Definition collect_power_effects (powers : list IPower) : gmap string JsNum :=
  foldl (fun effects pow =>
           foldl (fun effects eff => power_effect eff effects) effects
                 (map trim (split "," (power_effectType pow))))
        effects_init powers.

Definition triggerPlayerPowers (o : Oracle) (c : GameState) : Upd :=
  let effects := collect_power_effects (p_powers (player c)) in
  let E := eff_get effects in
  let pos k := jgt (E k) (Num 0) in
  batch [
(* 1. apply to the player *)
when (pos "energy")
  (batch [ setPlayer (fun p => set_p_energy (jadd (p_energy p) (E "energy")) p);
           addLog ("Powers: +" ++ num_to_string (E "energy") ++ " Energy") ]);
when (pos "block")
  (batch [ setPlayer (fun p => set_p_block (jadd (p_block p) (E "block")) p);
           addLog ("Powers: +" ++ num_to_string (E "block") ++ " Block") ]);
when (pos "heal")
  (batch [ setPlayer (fun p =>
             set_p_currentHp
               (jmin (p_maxHp p) (jadd (p_currentHp p) (E "heal"))) p);
           addLog ("Powers: Healed " ++ num_to_string (E "heal")) ]);
(* 2. draw cards *)
when (pos "draw")
  (batch [ drawCards o (E "draw");
           addLog ("Powers: Drew " ++ num_to_string (E "draw")) ]);
(* 3. apply to the enemy *)
when (pos "damage" || pos "poison" || pos "weak" || pos "vulnerable"
      || pos "freeze" || pos "burn")%bool
  (batch [
    when (pos "damage")
      (batch [ setEnemy (fun e =>
                 set_e_currentHp
                   (jmax (Num 0) (jsub (e_currentHp e) (E "damage"))) e);
               addLog ("Powers: Dealt " ++ num_to_string (E "damage") ++ " dmg") ]);
    when (pos "poison")
      (batch [ setEnemy (fun e =>
                 set_e_statuses (add_status "poison" (E "poison") (e_statuses e)) e);
               addLog ("Powers: +" ++ num_to_string (E "poison") ++ " Poison") ]);
    when (pos "weak")
      (batch [ setEnemy (fun e =>
                 set_e_statuses (add_status "weak" (E "weak") (e_statuses e)) e);
               addLog ("Powers: +" ++ num_to_string (E "weak") ++ " Weak") ]);
    when (pos "vulnerable")
      (batch [ setEnemy (fun e =>
                 set_e_statuses
                   (add_status "vulnerable" (E "vulnerable") (e_statuses e)) e);
               addLog ("Powers: +" ++ num_to_string (E "vulnerable")
                       ++ " Vulnerable") ]);
    when (pos "burn")
      (batch [ setEnemy (fun e =>
                 set_e_statuses (add_status "burn" (E "burn") (e_statuses e)) e);
               addLog ("Powers: +" ++ num_to_string (E "burn") ++ " Burn") ]);
    when (pos "freeze")
      (batch [ setEnemy (fun e =>
                 set_e_statuses (<["freeze" := Num 1]> (e_statuses e)) e);
               addLog "Powers: Frozen!" ])
  ])
].

(** *** applyStatusEffect *)

Inductive Target := TargetPlayer | TargetEnemy.

Definition STATUS_NAMES : list string :=
  ["poison"; "burn"; "strength"; "dexterity"; "vulnerable"; "weak"; "frail";
   "reflect"; "metallicize"; "regen"].

(** The new [statuses] object the updater builds. *)
Definition status_update (realType : option string) (amount : JsNum)
    (statuses : gmap string JsNum) : gmap string JsNum :=
  if (is_str realType "freeze" || is_str realType "stun")%bool then
    <["freeze" := Num 1]> statuses
  else if has STATUS_NAMES realType then
    add_status (default "" realType) amount statuses
  else statuses.

(** [realType] and [amount] as [applyStatusEffect] reads them off the
    token. *)
Definition statusRealType (effectString : string) : option string :=
  let parts := split "_" effectString in
  let type := parts !! 0%nat in
  if is_str type "recurring" then parts !! 1%nat else type.
Definition statusAmount (effectString : string) : JsNum :=
  parseInt (str_or (last (split "_" effectString)) "1").

Definition applyStatusEffect (c : GameState) (target : Target)
    (effectString : string) : Upd :=
  let realType := statusRealType effectString in
  let amount := statusAmount effectString in
  let frozen := (is_str realType "freeze" || is_str realType "stun")%bool in
  match target with
  | TargetPlayer =>
      batch [ setPlayer (fun prev =>
                set_p_statuses (status_update realType amount (p_statuses prev)) prev);
              when frozen (addLog "Player Frozen!") ]
  | TargetEnemy =>
      batch [ setEnemy (fun prev =>
                set_e_statuses (status_update realType amount (e_statuses prev)) prev);
              when frozen (addLog (e_name (enemy c) ++ " Frozen!")) ]
  end.

(** *** playCard *)

(** One hit: the updater of [setEnemy] inside the damage loop. *)
Definition hit (dmg : JsNum) (e : IEnemy) : IEnemy :=
  let '(newBlock, remainingDmg) :=
    if jge (e_block e) dmg then (jsub (e_block e) dmg, Num 0)
    else (Num 0, jsub dmg (e_block e)) in
  set_e_currentHp (jmax (Num 0) (jsub (e_currentHp e) remainingDmg))
    (set_e_block newBlock e).

(** The damage of one hit, computed from the values the handler closes
    over. *)
Definition hitDamage (c : GameState) (card : ICard) : JsNum :=
  let dmg := jadd (Num (default 0 (card_damage card))) (fst (getPlayerStats c)) in
  let dmg := if opt_gt0 (e_statuses (enemy c) !! "vulnerable")
             then floor_x1_5 dmg else dmg in
  if opt_gt0 (p_statuses (player c) !! "weak") then floor_x0_75 dmg else dmg.

(** [card.multiHit || 1] *)
Definition hitsOf (card : ICard) : Z :=
  match card_multiHit card with
  | Some h => if h =? 0 then 1 else h
  | None => 1
  end.

Definition playDamage (c : GameState) (card : ICard) : Upd :=
  when (bool_decide (card_type card = ATTACK)
        || match card_damage card with Some d => 0 <? d | None => false end)%bool
    (forEach (replicate (Z.to_nat (hitsOf card)) tt)
       (fun _ => setEnemy (hit (hitDamage c card)))).

Definition playBlock (c : GameState) (card : ICard) : Upd :=
  match card_block card with
  | Some b =>
      when (0 <? b)
        (let blk := jadd (Num b) (snd (getPlayerStats c)) in
         let blk :=
           if jgt (num_or (p_statuses (player c) !! "frail") (Num 0)) (Num 0)
           then floor_x0_75 blk else blk in
         setPlayer (fun p => set_p_block (jadd (p_block p) blk) p))
  | None => fun s => s
  end.

Definition ENEMY_EFFECTS : list string :=
  ["vulnerable"; "weak"; "poison"; "burn"; "freeze"; "stun"].
Definition PLAYER_EFFECTS : list string :=
  ["reflect"; "strength"; "dexterity"; "frail"; "metallicize"; "regen"].

(** One token of [card.specialEffect]. *)
Definition playEffect (o : Oracle) (c : GameState) (eff : string) : Upd :=
  let parts := split "_" eff in
  let type := default "" (parts !! 0%nat) in
  if (String.eqb type "fetch" || String.eqb type "recover")%bool then
    let source := parts !! 1%nat in
    let filter :=
      match parts !! 2%nat with
      | Some f => if is_empty f then None else Some (toUpperCase f)
      | None => None
      end in
    let validSource :=
      if is_str source "deck" then SrcDeck
      else if is_str source "exhaust" then SrcExhaust
      else if is_str source "discard" then SrcDiscard
      else SrcDraw in
    setSelection (Some {|
      sel_isOpen := true;
      sel_source := validSource;
      sel_filter :=
        if (is_str filter "ANY" || is_str filter "ALL")%bool then None else filter;
      sel_title := "Choose card to hand";
      sel_onSelect := FetchToHand validSource |})
  else if mem type ENEMY_EFFECTS then
    applyStatusEffect c TargetEnemy eff
  else if mem type PLAYER_EFFECTS then
    applyStatusEffect c TargetPlayer eff
  else if String.eqb type "draw" then
    drawCards o (parseInt (str_or (parts !! 1%nat) "1"))
  else if String.eqb type "energy" then
    setPlayer (fun p =>
      set_p_energy (jadd (p_energy p) (parseInt (str_or (parts !! 1%nat) "1"))) p)
  else if (String.eqb type "heal" && negb (includes eff "lifesteal"))%bool then
    setPlayer (fun p =>
      set_p_currentHp
        (jmin (p_maxHp p)
              (jadd (p_currentHp p) (parseInt (str_or (parts !! 1%nat) "1")))) p)
  else if (String.eqb type "self" && is_str (parts !! 1%nat) "damage")%bool then
    let amt := parseInt (str_or (parts !! 2%nat) "0") in
    batch [ setPlayer (fun p =>
              set_p_currentHp (jmax (Num 1) (jsub (p_currentHp p) amt)) p);
            addLog ("Sacrificed " ++ num_to_string amt ++ " HP") ]
  else if includes eff "lifesteal" then
    let healAmt := parseInt (str_or (parts !! 1%nat) "0") in
    setPlayer (fun p =>
      set_p_currentHp (jmin (p_maxHp p) (jadd (p_currentHp p) healAmt)) p)
  else (fun s => s).

Definition playEffects (o : Oracle) (c : GameState) (card : ICard) : Upd :=
  match card_specialEffect card with
  | Some se =>
      if is_empty se then (fun s => s)
      else forEach (map trim (split "," se)) (playEffect o c)
  | None => fun s => s
  end.

Definition flag (b : option bool) : bool := default false b.

(** The last updater of [playCard]: the card leaves the hand. *)
Definition leaveHand (card : ICard) (index : nat) (prev : IPlayer) : IPlayer :=
  let newHand := delete index (p_hand prev) in
  if flag (card_exhaust card) then
    set_p_hand newHand (set_p_exhaustPile (p_exhaustPile prev ++ [card]) prev)
  else if bool_decide (card_type card = POWER) then
    set_p_hand newHand prev
  else
    set_p_hand newHand (set_p_discardPile (p_discardPile prev ++ [card]) prev).

Definition includes_opt (o : option string) (t : string) : bool :=
  match o with Some s => includes s t | None => false end.

Definition playCard (o : Oracle) (c : GameState) (card : ICard) (index : nat) : Upd :=
  if negb (bool_decide (phase c = BATTLE_PLAYER_TURN)) then (fun s => s) else
  let isPower := bool_decide (card_type card = POWER) in
  let logMsg :=
    "Played " ++ card_name card ++ "." ++
    (if (isPower && (includes_opt (card_specialEffect card) "recurring"
                     || includes_opt (card_specialEffect card) "turn_start"))%bool
     then " Power Active!" else "") in
  let triggerType :=
    match card_type card with
    | ATTACK => "play_attack" | SKILL => "play_skill" | POWER => "play_power"
    end in
  batch [
    setPlayer (fun p => set_p_energy (jsub (p_energy p) (Num (card_cost card))) p);
    processRelicTrigger o c triggerType (Some card);
    when isPower
      (setPlayer (fun p =>
         set_p_powers
           (p_powers p ++
            [ {| power_id := card_id card; power_name := card_name card;
                 power_description := card_description card;
                 power_effectType := str_or (card_specialEffect card) "none";
                 power_icon := str_or (card_emoji card) "⚡" |} ]) p));
    playDamage c card;
    playBlock c card;
    playEffects o c card;
    addLog logMsg;
    setPlayer (leaveHand card index)
  ].

(** *** The selection overlay *)

Definition pile_of (src : PileSource) (p : IPlayer) : list ICard :=
  match src with
  | SrcDraw => p_drawPile p
  | SrcDiscard => p_discardPile p
  | SrcExhaust => p_exhaustPile p
  | SrcDeck => p_deck p
  end.

(** The cards [renderSelectionOverlay] offers. *)
Definition filteredPile (sel : SelectionState) (p : IPlayer) : list ICard :=
  let pile := pile_of (sel_source sel) p in
  match sel_filter sel with
  | Some f =>
      if is_empty f then pile
      else filter (fun c => String.eqb (CardType_str (card_type c)) f = true) pile
  | None => pile
  end.

Definition without (id : string) (pile : list ICard) : list ICard :=
  filter (fun c => String.eqb (card_id c) id = false) pile.

(** The updater of the fetch/recover [onSelect] callback. *)
Definition fetchToHand (validSource : PileSource) (selectedCard : ICard)
    (p : IPlayer) : IPlayer :=
  let p' :=
    match validSource with
    | SrcDraw => set_p_drawPile (without (card_id selectedCard) (p_drawPile p)) p
    | SrcDiscard =>
        set_p_discardPile (without (card_id selectedCard) (p_discardPile p)) p
    | SrcExhaust =>
        set_p_exhaustPile (without (card_id selectedCard) (p_exhaustPile p)) p
    | SrcDeck => set_p_drawPile (without (card_id selectedCard) (p_drawPile p)) p
    end in
  set_p_hand (p_hand p ++ [selectedCard]) p'.

Definition generateNextPathsAndContinue : Upd := setPhase MAP_SELECTION.

Definition onSelect (cb : OnSelect) (selectedCard : ICard) : Upd :=
  match cb with
  | FetchToHand validSource =>
      batch [ setPlayer (fetchToHand validSource selectedCard);
              setSelection None;
              addLog ("Retrieved " ++ card_name selectedCard) ]
  | RemoveFromDeck =>
      batch [ setPlayer (fun p =>
                set_p_deck (without (card_id selectedCard) (p_deck p)) p);
              setSelection None;
              generateNextPathsAndContinue ]
  end.

(** *** Win check (the effect on [enemy.currentHp], [phase], [currentRoom]) *)

Definition in_battle (ph : GamePhase) : bool :=
  (bool_decide (ph = BATTLE_PLAYER_TURN) || bool_decide (ph = BATTLE_ENEMY_TURN))%bool.

Definition checkWin (o : Oracle) (c : GameState) : Upd :=
  when (in_battle (phase c) && jle (e_currentHp (enemy c)) (Num 0))%bool
    (let goldReward :=
       15 + Qfloor (random o * 15)
       + (if bool_decide (currentRoom c = Some ELITE) then 30 else 0)
       + (if bool_decide (currentRoom c = Some BOSS) then 100 else 0) in
     batch [ processRelicTrigger o c "end_combat" None;
             setPlayer (fun p => set_p_gold (jadd (p_gold p) (Num goldReward)) p);
             setPhase BATTLE_WIN ]).

(** *** endTurn *)

(** Pending [setTimeout] callbacks; each keeps the state its handler closed
    over. *)
Inductive Timer :=
| TimerStartCombat (c : GameState)   (* startBattle: triggers and opening draw *)
| TimerEnemyActs (c : GameState)     (* endTurn: the enemy's move *)
| TimerNextTurn (c : GameState)      (* endTurn: status decay and next turn *)
| TimerLoss.                         (* a lethal hit: the loss screen *)

(** The component together with its pending timers. *)
Record App := {
  state : GameState;
  timers : list Timer
}.

Definition update (u : Upd) (a : App) : App :=
  {| state := u (state a); timers := timers a |}.
Definition setTimeout (t : Timer) (a : App) : App :=
  {| state := state a; timers := timers a ++ [t] |}.

(** [if (s[k]) s[k]--] *)
Definition decrement (k : string) (s : gmap string JsNum) : gmap string JsNum :=
  match s !! k with
  | Some v => if truthy v then <[k := jsub v (Num 1)]> s else s
  | None => s
  end.

Definition etherealFade (prev : IPlayer) : IPlayer :=
  set_p_hand (filter (fun card => flag (card_ethereal card) = false) (p_hand prev))
    (set_p_exhaustPile
       (p_exhaustPile prev
        ++ filter (fun card => flag (card_ethereal card) = true) (p_hand prev))
       prev).

Definition dotDamage (e : IEnemy) : IEnemy :=
  let poison := num_or (e_statuses e !! "poison") (Num 0) in
  let burn := num_or (e_statuses e !! "burn") (Num 0) in
  let hp := e_currentHp e in
  let hp := if jgt poison (Num 0) then jsub hp poison else hp in
  let hp := if jgt burn (Num 0) then jsub hp burn else hp in
  set_e_currentHp (jmax (Num 0) hp) e.

Definition dotLogs (e : IEnemy) : Upd :=
  let poison := num_or (e_statuses e !! "poison") (Num 0) in
  let burn := num_or (e_statuses e !! "burn") (Num 0) in
  batch [ when (jgt poison (Num 0))
            (addLog ("Poison dealt " ++ num_to_string poison ++ " dmg."));
          when (jgt burn (Num 0))
            (addLog ("Burn dealt " ++ num_to_string burn ++ " dmg.")) ].

(** The updates [endTurn] queues; the log lines its two updaters write
    are computed from the state [prev] they run on. *)
Definition endTurnUpdates (prev : GameState) : Upd :=
  batch [ setPhase BATTLE_ENEMY_TURN;
          forEach (filter (fun card => flag (card_ethereal card) = true)
                          (p_hand (player prev)))
                  (fun card => addLog (card_name card ++ " faded away."));
          setPlayer etherealFade;
          dotLogs (enemy prev);
          setEnemy dotDamage ].

(** The synchronous part of [endTurn]. *)
Definition endTurn (c : GameState) (a : App) : App :=
  let a := update (fun s => endTurnUpdates s s) a in
  if jle (e_currentHp (enemy c)) (Num 0) then a
  else setTimeout (TimerEnemyActs c) a.

(** The enemy's attack: the updater of [setPlayer] in the first timeout. *)
Definition enemyAttack (c : GameState) (p : IPlayer) : JsNum * JsNum * JsNum :=
  let dmg := e_nextMoveDamage (enemy c) in
  let dmg := if jgt (num_or (e_statuses (enemy c) !! "weak") (Num 0)) (Num 0)
             then floor_x0_75 dmg else dmg in
  let dmg := if jgt (num_or (p_statuses p !! "vulnerable") (Num 0)) (Num 0)
             then floor_x1_5 dmg else dmg in
  let '(newBlock, dmg) :=
    if jge (p_block p) dmg then (jsub (p_block p) dmg, Num 0)
    else (Num 0, jsub dmg (p_block p)) in
  (newBlock, dmg, jmax (Num 0) (jsub (p_currentHp p) dmg)).

(** The first timeout of [endTurn]. *)
Definition enemyActs (c : GameState) (a : App) : App :=
  let isFrozen := jgt (num_or (e_statuses (enemy c) !! "freeze") (Num 0)) (Num 0) in
  let a :=
    if isFrozen then
      update (batch [ addLog (e_name (enemy c) ++ " is Frozen! Turn skipped.");
                      setEnemy (fun e =>
                        set_e_statuses (<["freeze" := Num 0]> (e_statuses e)) e) ]) a
    else
      let p := player (state a) in
      let '(newBlock, dmg, newHp) := enemyAttack c p in
      let reflectDmg := num_or (p_statuses p !! "reflect") (Num 0) in
      let a :=
        update (batch [
          addLog (e_name (enemy c) ++ " attacks!");
          setPlayer (fun p => set_p_currentHp newHp (set_p_block newBlock p));
          when (jgt reflectDmg (Num 0) && jge dmg (Num 0))%bool
            (batch [ setEnemy (fun e =>
                       set_e_currentHp
                         (jmax (Num 0) (jsub (e_currentHp e) reflectDmg)) e);
                     addLog ("Reflected " ++ num_to_string reflectDmg ++ " dmg!") ])
        ]) a in
      if jle newHp (Num 0) then setTimeout TimerLoss a else a in
  setTimeout (TimerNextTurn c) a.

Definition decayPlayer (p : IPlayer) : IPlayer :=
  set_p_energy (p_maxEnergy p)
    (set_p_block (Num 0)
       (set_p_statuses
          (decrement "frail" (decrement "weak" (decrement "vulnerable" (p_statuses p))))
          p)).

Definition decayEnemy (e : IEnemy) : IEnemy :=
  set_e_statuses
    (decrement "weak" (decrement "vulnerable" (decrement "poison" (e_statuses e)))) e.

(** The nested timeout of [endTurn]. *)
Definition nextTurn (o : Oracle) (c : GameState) : Upd :=
  when (jgt (p_currentHp (player c)) (Num 0))
    (let nextDmg := 5 + (3 * level c) / 2 + Qfloor (random o * 4) in
     batch [ setPlayer decayPlayer;
             setEnemy decayEnemy;
             triggerPlayerPowers o c;
             processRelicTrigger o c "turn_start" None;
             drawCards o (Num CARDS_PER_TURN);
             setEnemy (fun e => set_e_nextMoveDamage (Num nextDmg) (set_e_block (Num 0) e));
             setPhase BATTLE_PLAYER_TURN ]).

(** *** startBattle, selectPath *)

Definition startBattle (o : Oracle) (c : GameState) (node : MapNode) (a : App) : App :=
  let lvl := node_level node in
  let enemyHp := 20 + lvl * 8 in
  let damage := 5 + (6 * lvl) / 5 in          (* 5 + floor(level * 1.2) *)
  let '(enemyHp, damage, enemyName, enemyEmoji) :=
    match node_type node with
    | ELITE => ((9 * enemyHp) / 5, (3 * damage) / 2, "Elite Sentry", "🛡️")
    | BOSS => (enemyHp * 3, (9 * damage) / 5, "Level Boss", "👹")
    | _ => (enemyHp, damage, "Wanderer", "👾")
    end in
  let newEnemy :=
    {| e_maxHp := Num enemyHp; e_currentHp := Num enemyHp; e_block := Num 0;
       e_statuses := ∅; e_name := enemyName; e_intent := "Attack";
       e_nextMoveDamage := Num damage;
       e_isElite := Some (bool_decide (node_type node = ELITE));
       e_isBoss := Some (bool_decide (node_type node = BOSS));
       e_emoji := Some enemyEmoji |} in
  let resetPlayer (prev : IPlayer) : IPlayer :=
    let deckShuffled := shuffle o (p_deck prev) in
    let innateCards := filter (fun c => flag (card_innate c) = true) deckShuffled in
    let otherCards := filter (fun c => flag (card_innate c) = false) deckShuffled in
    {| p_maxHp := p_maxHp prev; p_currentHp := p_currentHp prev;
       p_block := Num 0; p_statuses := ∅; p_gold := p_gold prev;
       p_energy := p_maxEnergy prev; p_maxEnergy := p_maxEnergy prev;
       p_deck := p_deck prev; p_hand := []; p_discardPile := [];
       p_drawPile := otherCards ++ innateCards; p_exhaustPile := [];
       p_relics := p_relics prev; p_powers := [] |} in
  setTimeout (TimerStartCombat c)
    (update (batch [ setEnemy (fun _ => newEnemy);
                     setPlayer resetPlayer;
                     setPhase BATTLE_PLAYER_TURN ]) a).

(** The 500 ms timeout of [startBattle]. *)
Definition startCombat (o : Oracle) (c : GameState) : Upd :=
  batch [ processRelicTrigger o c "start_combat" None;
          drawCards o (Num INITIAL_HAND_SIZE) ].

Definition selectPath (o : Oracle) (c : GameState) (node : MapNode) (a : App) : App :=
  let a :=
    update (batch [ set_level (node_level node);
                    set_currentRoom (Some (node_type node));
                    set_logs [] ]) a in
  match node_type node with
  | SHOP_ROOM => update (setPhase SHOP) a
  | REST_ROOM => update (setPhase REST) a
  | _ => startBattle o c node a
  end.

(** The room types [generateNextPaths] can offer after [currentLevel]. *)
Definition offered (currentLevel : Z) (t : RoomType) : bool :=
  if (currentLevel + 1) mod 10 =? 0 then bool_decide (t = BOSS)
  else match t with
       | MONSTER => true
       | ELITE | SHOP_ROOM | REST_ROOM => 1 <? currentLevel
       | BOSS => false
       end.

Definition nodeFor (currentLevel : Z) (t : RoomType) : MapNode :=
  {| node_id := "node"; node_type := t;
     node_name := match t with
                  | BOSS => "The Guardian" | ELITE => "Elite"
                  | SHOP_ROOM => "Merchant" | REST_ROOM => "Rest Site"
                  | MONSTER => "Enemy"
                  end;
     node_icon := ""; node_level := currentLevel + 1 |}.

(** *** Shop and rest site *)

(** [x || d] on an optional price *)
Definition price_or (x : option Z) (d : Z) : Z :=
  match x with Some v => if v =? 0 then d else v | None => d end.

Definition buyCard (c : GameState) (card : ICard) : Upd :=
  when (jge (p_gold (player c)) (Num (price_or (card_price card) 999)))
    (batch [ setPlayer (fun p =>
               set_p_gold (jsub (p_gold p) (Num (price_or (card_price card) 0)))
                 (set_p_deck (p_deck p ++ [card]) p));
             addLog ("Bought " ++ card_name card) ]).

Definition buyRelic (c : GameState) (relic : IRelic) : Upd :=
  when (jge (p_gold (player c)) (Num (price_or (relic_price relic) 999)))
    (batch [ setPlayer (fun p =>
               set_p_gold (jsub (p_gold p) (Num (price_or (relic_price relic) 0)))
                 (set_p_relics (p_relics p ++ [relic]) p));
             applyRelicPickupEffect relic;
             addLog ("Bought " ++ relic_name relic) ]).

(** [Math.floor(p.maxHp * 0.3)] *)
Definition floor_x0_3 (a : JsNum) : JsNum :=
  match a with Num x => Num ((3 * x) / 10) | NaN => NaN end.

Definition restHeal : Upd :=
  batch [ setPlayer (fun p =>
            set_p_currentHp
              (jmin (p_maxHp p) (jadd (p_currentHp p) (floor_x0_3 (p_maxHp p)))) p);
          generateNextPathsAndContinue ].

Definition restRemove : Upd :=
  setSelection (Some {| sel_isOpen := true; sel_source := SrcDeck;
                        sel_filter := None; sel_title := "Choose card to Remove";
                        sel_onSelect := RemoveFromDeck |}).

(** The state after the "Start Ascension" button. *)
Definition initialPlayer : IPlayer :=
  {| p_maxHp := Num 60; p_currentHp := Num 60; p_block := Num 0;
     p_statuses := ∅; p_gold := Num STARTING_GOLD;
     p_energy := Num INITIAL_ENERGY; p_maxEnergy := Num INITIAL_ENERGY;
     p_deck := getInitialDeck; p_hand := []; p_discardPile := [];
     p_drawPile := []; p_exhaustPile := []; p_relics := []; p_powers := [] |}.

Definition initialEnemy : IEnemy :=
  {| e_maxHp := Num 20; e_currentHp := Num 20; e_block := Num 0;
     e_statuses := ∅; e_name := "Cultist"; e_intent := "Attack";
     e_nextMoveDamage := Num 5; e_isElite := None; e_isBoss := None;
     e_emoji := Some "🐦" |}.

Definition initialState : GameState :=
  {| phase := MAP_SELECTION; level := 1; logs := []; player := initialPlayer;
     enemy := initialEnemy; selection := None; currentRoom := None |}.

Definition initialApp : App := {| state := initialState; timers := [] |}.

(** *** The component as a transition system

    One transition per user action or timer.  A transition is enabled under
    the guards the code itself checks (a handler's [if], a button's
    [disabled], the screen that renders the control); content that arrives
    from the generative service (reward cards, shop items, the elite relic)
    is the payload of the event.  After every transition the component
    re-renders and the win-check effect runs. *)

Inductive Event :=
| EvSelectPath (t : RoomType)
| EvTimer (i : nat)
| EvPlayCard (index : nat)
| EvEndTurn
| EvSelect (card : ICard)
| EvCloseSelection
| EvOpenRewards
| EvCollectRelic (relic : IRelic)
| EvTakeReward (card : ICard)
| EvSkipReward
| EvBuyCard (card : ICard)
| EvBuyRelic (relic : IRelic)
| EvLeaveShop
| EvRestHeal
| EvRestRemove
| EvRestart.

Definition fireTimer (o : Oracle) (t : Timer) (a : App) : App :=
  match t with
  | TimerStartCombat c => update (startCombat o c) a
  | TimerEnemyActs c => enemyActs c a
  | TimerNextTurn c => update (nextTurn o c) a
  | TimerLoss => update (setPhase BATTLE_LOSS) a
  end.

(** The screens that render the selection overlay. *)
Definition overlay_rendered (ph : GamePhase) : bool :=
  match ph with
  | MAP_SELECTION | REST | BATTLE_PLAYER_TURN | BATTLE_ENEMY_TURN => true
  | _ => false
  end.

Definition card_in (card : ICard) (l : list ICard) : bool :=
  existsb (fun c => String.eqb (card_id c) (card_id card)) l.

(** The handler of an event, when its control is enabled. *)
Definition handle (o : Oracle) (ev : Event) (a : App) : option App :=
  let c := state a in
  match ev with
  | EvSelectPath t =>
      if (bool_decide (phase c = MAP_SELECTION) && offered (level c) t)%bool
      then Some (selectPath o c (nodeFor (level c) t) a) else None
  | EvTimer i =>
      match timers a !! i with
      | Some t =>
          Some (fireTimer o t {| state := c; timers := delete i (timers a) |})
      | None => None
      end
  | EvPlayCard index =>
      match p_hand (player c) !! index, selection c with
      | Some card, None =>
          if (bool_decide (phase c = BATTLE_PLAYER_TURN)
              && jge (p_energy (player c)) (Num (card_cost card)))%bool
          then Some (update (playCard o c card index) a) else None
      | _, _ => None
      end
  | EvEndTurn =>
      match selection c with
      | None =>
          if bool_decide (phase c = BATTLE_PLAYER_TURN)
          then Some (endTurn c a) else None
      | Some _ => None
      end
  | EvSelect card =>
      match selection c with
      | Some sel =>
          if (sel_isOpen sel && overlay_rendered (phase c)
              && bool_decide (card ∈ filteredPile sel (player c)))%bool
          then Some (update (onSelect (sel_onSelect sel) card) a) else None
      | None => None
      end
  | EvCloseSelection =>
      match selection c with
      | Some sel =>
          if (sel_isOpen sel && overlay_rendered (phase c))%bool
          then Some (update (setSelection None) a) else None
      | None => None
      end
  | EvOpenRewards =>
      if bool_decide (phase c = BATTLE_WIN)
      then Some (update (setPhase REWARD) a) else None
  | EvCollectRelic relic =>
      if (bool_decide (phase c = REWARD)
          && (bool_decide (currentRoom c = Some ELITE)
              || bool_decide (currentRoom c = Some BOSS)))%bool
      then Some (update (batch [
                   setPlayer (fun p => set_p_relics (p_relics p ++ [relic]) p);
                   applyRelicPickupEffect relic ]) a)
      else None
  | EvTakeReward card =>
      if bool_decide (phase c = REWARD)
      then Some (update (batch [
                   setPlayer (fun p => set_p_deck (p_deck p ++ [card]) p);
                   generateNextPathsAndContinue ]) a)
      else None
  | EvSkipReward =>
      if bool_decide (phase c = REWARD)
      then Some (update generateNextPathsAndContinue a) else None
  | EvBuyCard card =>
      if bool_decide (phase c = SHOP)
      then Some (update (buyCard c card) a) else None
  | EvBuyRelic relic =>
      if bool_decide (phase c = SHOP)
      then Some (update (buyRelic c relic) a) else None
  | EvLeaveShop =>
      if bool_decide (phase c = SHOP)
      then Some (update generateNextPathsAndContinue a) else None
  | EvRestHeal =>
      if bool_decide (phase c = REST)
      then Some (update restHeal a) else None
  | EvRestRemove =>
      if bool_decide (phase c = REST)
      then Some (update restRemove a) else None
  | EvRestart =>
      if bool_decide (phase c = BATTLE_LOSS) then Some initialApp else None
  end.

(** A transition: the handler, then the effects of the following render. *)
Definition step (o : Oracle) (ev : Event) (a : App) : option App :=
  match handle o ev a with
  | Some a' => Some (update (fun s => checkWin o s s) a')
  | None => None
  end.

(** Running a list of events, each with the random values it draws. *)
Fixpoint run (trace : list (Oracle * Event)) (a : App) : option App :=
  match trace with
  | [] => Some a
  | (o, ev) :: rest =>
      match step o ev a with
      | Some a' => run rest a'
      | None => None
      end
  end.

(** *** Vocabulary of the statements about the mock pool *)

(** A card with the two fields that mention the level blanked. *)
Definition without_level_text (c : ICard) : ICard :=
  {| card_id := card_id c; card_name := card_name c; card_type := card_type c;
     card_rarity := card_rarity c; card_cost := card_cost c;
     card_damage := None; card_block := card_block c;
     card_description := "";
     card_specialEffect := card_specialEffect c; card_emoji := card_emoji c;
     card_price := card_price c; card_exhaust := card_exhaust c;
     card_ethereal := card_ethereal c; card_innate := card_innate c;
     card_retain := card_retain c; card_multiHit := card_multiHit c |}.

(** *** Vocabulary of the statements about status counters

    What "the amounts are bounded by the sanitizers" means at the places
    where the orchestrator decodes a token. *)

(** A non-negative integer. *)
Definition amount_ok (n : JsNum) : bool :=
  match n with Num z => 0 <=? z | NaN => false end.

(** Every counter of a status dictionary is a non-negative integer. *)
Definition statuses_ok (m : gmap string JsNum) : Prop :=
  map_Forall (fun _ v => amount_ok v = true) m.

(** A special-effect token that [playCard] hands to [applyStatusEffect]
    adds a non-negative amount (or sets the freeze flag). *)
Definition token_ok (eff : string) : bool :=
  let type := default "" (split "_" eff !! 0%nat) in
  if (mem type ENEMY_EFFECTS || mem type PLAYER_EFFECTS)%bool then
    let realType := statusRealType eff in
    (is_str realType "freeze" || is_str realType "stun"
     || negb (has STATUS_NAMES realType)
     || amount_ok (statusAmount eff))%bool
  else true.

Definition effect_ok (specialEffect : option string) : bool :=
  match specialEffect with
  | Some se => forallb token_ok (map trim (split "," se))
  | None => true
  end.

Definition card_ok (c : ICard) : bool := effect_ok (card_specialEffect c).

(** A decoded relic that acts on a status counter adds a non-negative
    amount. *)
Definition decode_ok (d : RelicDecode) : bool :=
  if (is_player_status_action (rAction d) || is_enemy_status_action (rAction d))%bool
  then amount_ok (rAmount d) else true.

(** The decoding depends on the requested trigger only through the test
    [trigger === 'start_combat']. *)
Definition relic_ok (r : IRelic) : bool :=
  (decode_ok (decodeRelic "start_combat" (relic_effectType r))
   && decode_ok (decodeRelic "" (relic_effectType r)))%bool.

Definition player_cards (p : IPlayer) : list ICard :=
  p_deck p ++ p_hand p ++ p_drawPile p ++ p_discardPile p ++ p_exhaustPile p.

(** The content a player holds came through the sanitizers. *)
Definition content_ok (p : IPlayer) : Prop :=
  Forall (fun c => card_ok c = true) (player_cards p) /\
  Forall (fun r => relic_ok r = true) (p_relics p).

Definition timer_closure (t : Timer) : option GameState :=
  match t with
  | TimerStartCombat c | TimerEnemyActs c | TimerNextTurn c => Some c
  | TimerLoss => None
  end.

(** The random values of a handler: the shuffle is a permutation and the
    uniform draw lies in [0,1). *)
Definition oracle_ok (o : Oracle) : Prop :=
  (forall l, shuffle o l ≡ₚ l) /\ (0 <= random o)%Q /\ (random o < 1)%Q.

(** The payload of an event is sanitized content. *)
Definition payload_ok (ev : Event) : Prop :=
  match ev with
  | EvTakeReward card | EvBuyCard card => card_ok card = true
  | EvCollectRelic relic | EvBuyRelic relic => relic_ok relic = true
  | _ => True
  end.

(** The states of the component a play-through can reach. *)
Inductive reachable : App -> Prop :=
| reach_init : reachable initialApp
| reach_step o ev a a' :
    reachable a -> oracle_ok o -> payload_ok ev ->
    step o ev a = Some a' -> reachable a'.

(** *** The tokens the two sanitizers can return *)

Definition with_amounts (heads : list string) (lo n : Z) : list string :=
  h ← heads; a ← seqZ lo n; [h ++ "_" ++ pretty a].

Definition FETCH_TOKENS : list string :=
  h ← ["fetch"; "recover"]; src ← ALLOWED_FETCH_SOURCES;
  (h ++ "_" ++ src) :: (f ← ALLOWED_FETCH_FILTERS; [h ++ "_" ++ src ++ "_" ++ f]).

Definition RECURRING_TOKENS : list string :=
  h ← ["recurring"; "turn_start"; "start_turn"];
  action ← ALLOWED_RECURRING_ACTIONS; a ← seqZ 1 50;
  [h ++ "_" ++ action ++ "_" ++ pretty a].

Definition EFFECT_TOKENS : list string :=
  FETCH_TOKENS
  ++ with_amounts (ALLOWED_ENEMY_STATUS ++ ALLOWED_PLAYER_STATUS) 1 50
  ++ with_amounts ["draw"; "energy"; "heal"; "lifesteal"] 0 51
  ++ with_amounts ["self_damage"] 0 31
  ++ RECURRING_TOKENS.

Definition RELIC_TOKENS : list string :=
  (t ← ALLOWED_RELIC_TRIGGERS; st ← ALLOWED_RELIC_APPLY; a ← seqZ 1 50;
   [t ++ "_apply_" ++ st ++ "_" ++ pretty a])
  ++ with_amounts ["max_hp"] 1 50
  ++ (t ← ALLOWED_RELIC_TRIGGERS; action ← ALLOWED_RELIC_ACTIONS; a ← seqZ 1 50;
      [t ++ "_" ++ action ++ "_" ++ pretty a]).

Fixpoint no_char (sep : ascii) (s : string) : bool :=
  match s with
  | EmptyString => true
  | String c s' => (negb (Ascii.eqb c sep) && no_char sep s')%bool
  end.

(** *** Vocabulary of the proofs about queued updates

    Predicates on game states, and what it means for a queued update to
    preserve one. *)

Definition preserves (P : GameState -> Prop) (u : Upd) : Prop :=
  forall s, P s -> P (u s).

(** A predicate that only looks at the enemy is untouched by updates of the
    player, the log, the phase and the selection. *)
Definition enemy_only (P : GameState -> Prop) : Prop :=
  forall s s', enemy s = enemy s' -> P s -> P s'.
Definition player_only (P : GameState -> Prop) : Prop :=
  forall s s', player s = player s' -> P s -> P s'.

(** The enemy's hit points and block have the given values. *)
Definition enemy_hp_block (h b : JsNum) (s : GameState) : Prop :=
  e_currentHp (enemy s) = h /\ e_block (enemy s) = b.

Definition status_inv (s : GameState) : Prop :=
  statuses_ok (p_statuses (player s)) /\ statuses_ok (e_statuses (enemy s)).

Definition relics_ok (c : GameState) : Prop :=
  Forall (fun r => relic_ok r = true) (p_relics (player c)).

Definition content_inv (s : GameState) : Prop := content_ok (player s).

Abbreviation ok_cards := (Forall (fun c => card_ok c = true)).
Abbreviation ok_relics := (Forall (fun r => relic_ok r = true)).

Definition timers_ok (ts : list Timer) : Prop :=
  Forall (fun t => match timer_closure t with
                   | Some c => relics_ok c
                   | None => True
                   end) ts.

Definition app_inv (a : App) : Prop :=
  status_inv (state a) /\ content_inv (state a) /\ timers_ok (timers a).

Definition hand_size (r : option App) : option nat :=
  match r with
  | Some a => Some (length (p_hand (player (state a))))
  | None => None
  end.

(** *** Sample states, content and runs *)

(** The opening Strike against an enemy with 20 HP, 5 block and one stack
    of vulnerable. *)
Definition c1_state : GameState :=
  {| phase := BATTLE_PLAYER_TURN; level := 1; logs := [];
     player := set_p_hand [createStrike "1"] initialPlayer;
     enemy := set_e_block (Num 5)
                (set_e_statuses {[ "vulnerable" := Num 1 ]} initialEnemy);
     selection := None; currentRoom := Some MONSTER |}.

Definition c1_strike : ICard :=
  {| card_id := "strike-1"; card_name := "Strike"; card_type := ATTACK;
     card_rarity := COMMON; card_cost := 1; card_damage := Some 6;
     card_block := None; card_description := "Deal 6 damage.";
     card_specialEffect := None; card_emoji := None; card_price := None;
     card_exhaust := None; card_ethereal := None; card_innate := None;
     card_retain := None; card_multiHit := Some 1 |}.

Definition identity_oracle : Oracle := {| shuffle := fun l => l; random := 0 |}.

Definition vajra : IRelic :=
  {| relic_id := "relic-1"; relic_name := "Vajra";
     relic_description := "Start combat with 1 Strength.";
     relic_effectType := "start_combat_strength_1"; relic_emoji := "";
     relic_price := None |}.

Definition c3_state : GameState :=
  {| phase := BATTLE_PLAYER_TURN; level := 1; logs := [];
     player := set_p_relics [vajra] initialPlayer;
     enemy := initialEnemy; selection := None; currentRoom := Some MONSTER |}.

(** Events played with the identity shuffle and a uniform draw of 0. *)
Definition scripted (events : list Event) : list (Oracle * Event) :=
  map (fun ev => (identity_oracle, ev)) events.

(** The first fight of a run: Bash, Defend, then Strikes. *)
Definition first_turn : list Event :=
  [ EvSelectPath MONSTER; EvTimer 0; EvPlayCard 0; EvPlayCard 0 ].

(** A generated reward: an attack that deals 50 and returns a card from
    the discard pile. *)
Definition recall_slash : ICard :=
  {| card_id := "gen-2-recall"; card_name := "Recall Slash"; card_type := ATTACK;
     card_rarity := RARE; card_cost := 0; card_damage := Some 50;
     card_block := None;
     card_description := "Deal 50 damage. Return a card from your discard pile to your hand.";
     card_specialEffect := Some "fetch_discard_ANY"; card_emoji := Some "🗡️";
     card_price := None; card_exhaust := Some false; card_ethereal := Some false;
     card_innate := Some false; card_retain := Some false; card_multiHit := None |}.

(** A generated elite relic: draw 2 cards at the end of combat. *)
Definition spoils : IRelic :=
  {| relic_id := "elite-1"; relic_name := "Spoils";
     relic_description := "Draw 2 cards at the end of combat.";
     relic_effectType := "end_combat_draw_2"; relic_emoji := "🎒";
     relic_price := None |}.

(** The first fight: Bash and Defend, three Strikes, a last Strike; the
    reward is Recall Slash. *)
Definition fight_1 : list Event :=
  [ EvSelectPath MONSTER; EvTimer 0; EvPlayCard 0; EvPlayCard 0;
    EvEndTurn; EvTimer 0; EvTimer 0;
    EvPlayCard 3; EvPlayCard 3; EvPlayCard 3;
    EvEndTurn; EvTimer 0; EvTimer 0;
    EvPlayCard 3; EvOpenRewards; EvTakeReward recall_slash ].

(** An elite: Recall Slash, fetched back and played again; the elite relic
    and a fifth Strike are collected, the overlay is closed. *)
Definition fight_2 : list Event :=
  [ EvSelectPath ELITE; EvTimer 0; EvPlayCard 0; EvSelect recall_slash;
    EvPlayCard 4; EvOpenRewards; EvCollectRelic spoils;
    EvTakeReward (createStrike "5"); EvCloseSelection ].

(** The third fight: two idle turns fill the hand to 10 cards; Recall
    Slash is played, fetched back and played again, which kills the enemy
    with the selection overlay open; the relic draws the hand back to 10;
    on the map screen the overlay is still there and the card is chosen. *)
Definition fight_3 : list Event :=
  [ EvSelectPath MONSTER; EvTimer 0;
    EvEndTurn; EvTimer 0; EvTimer 0;
    EvEndTurn; EvTimer 0; EvTimer 0;
    EvPlayCard 1; EvSelect recall_slash; EvPlayCard 9;
    EvOpenRewards; EvSkipReward; EvSelect recall_slash ].

Definition overfull_run : list (Oracle * Event) :=
  scripted (fight_1 ++ fight_2 ++ fight_3).

(** *** Further vocabulary of the statements *)

(** [getShopCardPrice]; [roll] is the draw of [Math.random]. *)
Definition getShopCardPrice (rarity : CardRarity) (roll : Q) : Z :=
  50 + (match rarity with RARE => 50 | LEGENDARY => 100 | COMMON => 0 end)
  + Qfloor (roll * 20).

(** The gold the player holds is [g]. *)
Definition gold_is (g : JsNum) (s : GameState) : Prop := p_gold (player s) = g.

(** The cards in play during a combat. *)
Definition battle_piles (p : IPlayer) : list ICard :=
  (p_hand p ++ p_drawPile p ++ p_discardPile p ++ p_exhaustPile p)%list.

(** The hand still starts with the cards [hand0], the cards in play are
    those of [cards], and the deck is [deck]. *)
Definition piles_from (hand0 cards deck : list ICard) (s : GameState) : Prop :=
  (exists drawn, p_hand (player s) = (hand0 ++ drawn)%list) /\
  battle_piles (player s) ≡ₚ cards /\
  p_deck (player s) = deck.

(** Everything but the log is as given. *)
Definition snapshot (ph : GamePhase) (pl : IPlayer) (en : IEnemy)
    (s : GameState) : Prop :=
  phase s = ph /\ player s = pl /\ enemy s = en.

(** *** The inputs on which the model of [Number] is exact

    [Number_of_string] reads the empty string and signed decimal integers.
    On a part without any digit JavaScript's [Number] is [NaN] as well; a
    part with a digit must be such an integer of at most 15 digits. *)

Fixpoint forall_chars (f : ascii -> bool) (s : string) : bool :=
  match s with
  | EmptyString => true
  | String c s' => (f c && forall_chars f s')%bool
  end.

Definition is_ascii (c : ascii) : bool := Nat.ltb (nat_of_ascii c) 128.

Definition int_literal (p : string) : bool :=
  let body := match p with
              | String "-" r => r
              | String "+" r => r
              | _ => p
              end in
  (negb (is_empty body) && all_digits body && Nat.leb (String.length body) 15)%bool.

Definition plain_part (p : string) : bool :=
  (forall_chars (fun c => negb (is_digit c)) p || int_literal p)%bool.

Definition plain_effect (raw : string) : bool :=
  (forall_chars is_ascii raw &&
   forallb (fun tok => forallb plain_part (split_parts (toLowerCase (trim tok))))
           (split "," raw))%bool.

Definition plain_relic (raw : string) : bool :=
  (forall_chars is_ascii raw &&
   forallb plain_part (split_parts (toLowerCase raw)))%bool.

(** *** The tokens the sanitizers return *)

(** The actions of [ALLOWED_RELIC_ACTIONS] that can follow a trigger: a
    part of a split on [_] is never [max_hp], and [apply] has a case of
    its own. *)
Definition RELIC_PLAIN_ACTIONS : list string :=
  ["heal"; "damage"; "block"; "energy"; "draw"; "strength"; "dexterity"].

(** The effect types of relics that act at a trigger, with the trigger,
    the action and the amount each one is built from. *)
Definition TRIGGERED_RELIC_TOKENS : list (string * string * Z * string) :=
  (t ← ALLOWED_RELIC_TRIGGERS; st ← ALLOWED_RELIC_APPLY; a ← seqZ 1 50;
   [(t, st, a, t ++ "_apply_" ++ st ++ "_" ++ pretty a)])
  ++ (t ← ALLOWED_RELIC_TRIGGERS; action ← RELIC_PLAIN_ACTIONS; a ← seqZ 1 50;
      [(t, action, a, t ++ "_" ++ action ++ "_" ++ pretty a)]).

(** The effect types of relics that raise the maximum HP when picked up. *)
Definition MAX_HP_RELIC_TOKENS : list (Z * string) :=
  a ← seqZ 1 50; [(a, "max_hp_" ++ pretty a)].

(** The [case] labels of the [switch] in [processRelicTrigger]. *)
Definition relic_acts (rAction : option string) : bool :=
  (is_str rAction "heal" || is_str rAction "block" || is_str rAction "damage"
   || is_str rAction "energy" || is_str rAction "draw"
   || is_player_status_action rAction || is_enemy_status_action rAction)%bool.

Definition same_token (o : option string) (t : string) : bool :=
  match o with Some t' => String.eqb t' t | None => false end.

Definition decodes_to (d : RelicDecode) (t act : string) (a : Z) : bool :=
  (String.eqb (rTrigger d) t && is_str (rAction d) act
   && match rAmount d with Num z => z =? a | NaN => false end)%bool.

(** The special-effect tokens the card sanitizer can return.  The head of
    a token is its first part of the split on [_], so of the three
    recurring heads only [recurring] can match. *)
Definition CARD_TOKENS : list string :=
  FETCH_TOKENS
  ++ with_amounts (ALLOWED_ENEMY_STATUS ++ ALLOWED_PLAYER_STATUS) 1 50
  ++ with_amounts ["draw"; "energy"; "heal"; "lifesteal"] 0 51
  ++ with_amounts ["self_damage"] 0 31
  ++ (action ← ALLOWED_RECURRING_ACTIONS; a ← seqZ 1 50;
      ["recurring_" ++ action ++ "_" ++ pretty a]).

(** *** Vocabulary of the statements about hit points, block, energy and gold *)

(** The player's HP is an integer between 0 and the maximum HP, which is
    at least 1. *)
Definition hp_ok (p : IPlayer) : bool :=
  match p_currentHp p, p_maxHp p with
  | Num h, Num m => ((0 <=? h) && (h <=? m) && (1 <=? m))%bool
  | _, _ => false
  end.

Definition player_vitals (p : IPlayer) : bool :=
  (hp_ok p && amount_ok (p_block p) && amount_ok (p_energy p)
   && amount_ok (p_maxEnergy p) && amount_ok (p_gold p))%bool.

Definition enemy_vitals (e : IEnemy) : bool :=
  (amount_ok (e_currentHp e) && amount_ok (e_block e)
   && amount_ok (e_nextMoveDamage e))%bool.

Definition vitals (s : GameState) : Prop :=
  player_vitals (player s) = true /\ enemy_vitals (enemy s) = true /\ 0 <= level s.

(** A special-effect token that [playCard] applies to the player's energy
    or HP carries a non-negative amount. *)
Definition token_safe (eff : string) : bool :=
  let parts := split "_" eff in
  let type := default "" (parts !! 0%nat) in
  if (String.eqb type "fetch" || String.eqb type "recover")%bool then true
  else if mem type ENEMY_EFFECTS then true
  else if mem type PLAYER_EFFECTS then true
  else if String.eqb type "draw" then true
  else if String.eqb type "energy" then
    amount_ok (parseInt (str_or (parts !! 1%nat) "1"))
  else if (String.eqb type "heal" && negb (includes eff "lifesteal"))%bool then
    amount_ok (parseInt (str_or (parts !! 1%nat) "1"))
  else if (String.eqb type "self" && is_str (parts !! 1%nat) "damage")%bool then
    amount_ok (parseInt (str_or (parts !! 2%nat) "0"))
  else if includes eff "lifesteal" then
    amount_ok (parseInt (str_or (parts !! 1%nat) "0"))
  else true.

Definition effect_safe (specialEffect : option string) : bool :=
  match specialEffect with
  | Some se => forallb token_safe (map trim (split "," se))
  | None => true
  end.

Definition card_safe (c : ICard) : bool :=
  (card_ok c && effect_safe (card_specialEffect c))%bool.

(** A decoded relic that heals, blocks, damages or gives energy does so by
    a non-negative amount. *)
Definition decode_safe (d : RelicDecode) : bool :=
  if (is_str (rAction d) "heal" || is_str (rAction d) "block"
      || is_str (rAction d) "damage" || is_str (rAction d) "energy")%bool
  then amount_ok (rAmount d) else true.

(** A relic that raises the maximum HP when picked up raises it by a
    non-negative amount. *)
Definition pickup_safe (effectType : string) : bool :=
  if includes effectType "max_hp"
  then amount_ok (parseInt (str_or (last (split "_" effectType)) "0"))
  else true.

Definition relic_safe (r : IRelic) : bool :=
  (relic_ok r
   && decode_safe (decodeRelic "start_combat" (relic_effectType r))
   && decode_safe (decodeRelic "" (relic_effectType r))
   && pickup_safe (relic_effectType r))%bool.

(** Every card the player holds satisfies [C], every relic [R]. *)
Definition held (C : ICard -> Prop) (R : IRelic -> Prop) (p : IPlayer) : Prop :=
  Forall C (player_cards p) /\ Forall R (p_relics p).

Definition holds (C : ICard -> Prop) (R : IRelic -> Prop) (s : GameState) : Prop :=
  held C R (player s).

Definition safe_content : GameState -> Prop :=
  holds (fun c => card_safe c = true) (fun r => relic_safe r = true).

(** What every state of a play-through satisfies, and every state a
    pending timer has closed over. *)
Definition sound (s : GameState) : Prop :=
  status_inv s /\ vitals s /\ safe_content s.

Definition closures_sound (ts : list Timer) : Prop :=
  Forall (fun t => match timer_closure t with
                   | Some c => sound c
                   | None => True
                   end) ts.

Definition sound_app (a : App) : Prop :=
  sound (state a) /\ closures_sound (timers a).

(** The payload of an event is content the sanitizers let through. *)
Definition payload_safe (ev : Event) : Prop :=
  match ev with
  | EvTakeReward card | EvBuyCard card => card_safe card = true
  | EvCollectRelic relic | EvBuyRelic relic => relic_safe relic = true
  | _ => True
  end.

(** *** Vocabulary of the statements about decoded tokens *)

(** The field of the [effects] object a recurring action is added to:
    [regen] is an alias of [heal], [metallicize] and [plates] of [block]. *)
Definition power_key (action : string) : string :=
  if String.eqb action "regen" then "heal"
  else if (String.eqb action "metallicize" || String.eqb action "plates")%bool
  then "block"
  else action.

(** A number is the integer [n]. *)
Definition is_num (v : JsNum) (n : Z) : bool :=
  match v with Num z => z =? n | NaN => false end.

(** What [triggerPlayerPowers] makes of the token [recurring_<a>_<n>]. *)
Definition recurring_decodes (a : string) (n : Z) : bool :=
  match power_match ("recurring_" ++ a ++ "_" ++ pretty n) with
  | Some (m1, Some ds) => (String.eqb (toLowerCase m1) a && is_num (parseInt ds) n)%bool
  | _ => false
  end.

(** What [playCard] reads off the token [<head>_<n>]: the type, and the
    amount as part 1 with the default [d]. *)
Definition amount_decodes (head d : string) (n : Z) : bool :=
  let parts := split "_" (head ++ "_" ++ pretty n) in
  (String.eqb (default "" (parts !! 0%nat)) head
   && is_num (parseInt (str_or (parts !! 1%nat) d)) n
   && is_num (statusAmount (head ++ "_" ++ pretty n)) n
   && match statusRealType (head ++ "_" ++ pretty n) with
      | Some r => String.eqb r head
      | None => false
      end)%bool.

(** [if (s[k]) s[k]--] on the value of one counter. *)
Definition decremented (v : JsNum) : JsNum :=
  if truthy v then jsub v (Num 1) else v.

(** *** Further sample content and states *)

(** A generated attack that hits twice. *)
Definition twin_strike : ICard :=
  {| card_id := "gen-3-twin"; card_name := "Twin Strike"; card_type := ATTACK;
     card_rarity := COMMON; card_cost := 1; card_damage := Some 5;
     card_block := None; card_description := "Deal 5 damage twice.";
     card_specialEffect := None; card_emoji := None; card_price := None;
     card_exhaust := None; card_ethereal := None; card_innate := None;
     card_retain := None; card_multiHit := Some 2 |}.

(** A shop card with a price tag. *)
Definition shop_strike : ICard :=
  {| card_id := "shop-1"; card_name := "Heavy Strike"; card_type := ATTACK;
     card_rarity := RARE; card_cost := 2; card_damage := Some 14;
     card_block := None; card_description := "Deal 14 damage.";
     card_specialEffect := None; card_emoji := None; card_price := Some 60;
     card_exhaust := None; card_ethereal := None; card_innate := None;
     card_retain := None; card_multiHit := None |}.

(** The enemy's turn against a player with 3 block. *)
Definition x4_state : App :=
  {| state := set_player (set_p_block (Num 3) initialPlayer)
                (set_phase BATTLE_ENEMY_TURN initialState);
     timers := [] |}.

(** A shop visit with 100 gold. *)
Definition shop_state : GameState :=
  set_player (set_p_gold (Num 100) initialPlayer) (set_phase SHOP initialState).

(** A fight in which the enemy has just dropped to 0 HP. *)
Definition won_state : GameState :=
  set_enemy (set_e_currentHp (Num 0) initialEnemy)
    (set_phase BATTLE_PLAYER_TURN initialState).

(** A player in combat with three cards left to draw and one discarded. *)
Definition drawing_player : IPlayer :=
  set_p_drawPile [c1_strike; twin_strike; recall_slash]
    (set_p_discardPile [shop_strike] initialPlayer).

(** A turn that is about to end: 2 block left, one stack of weak. *)
Definition late_turn : GameState :=
  set_player
    (set_p_block (Num 2)
       (set_p_energy (Num 1)
          (set_p_statuses {[ "weak" := Num 1; "strength" := Num 2 ]}
             (set_p_drawPile [c1_strike; twin_strike; recall_slash; shop_strike]
                initialPlayer))))
    (set_phase BATTLE_ENEMY_TURN initialState).

End Spire.

(* ===================================================================== *)
(** * AI Alchemy *)
(* ===================================================================== *)

Module Alchemy.

Inductive PhysicsType :=
| EMPTY | SOLID | POWDER | LIQUID | GAS | ENERGY | MECHANISM | LIFE | BOT.

#[global] Instance PhysicsType_eq_dec : EqDecision PhysicsType.
Proof. solve_decision. Defined.

(** The fields of [ElementDef] the reaction bookkeeping reads. *)
Record ElementDef := {
  elem_id : Z;
  elem_name : string;
  elem_physics : PhysicsType
}.

(** ** services/geminiService.ts: discoverReaction *)

(** [ReactionResult]: every field is copied from [data.result] as it came
    out of [JSON.parse], [growthChance] after the safety clamp. *)
Record ReactionResult := {
  rr_name : option Json;
  rr_color : option Json;
  rr_physics : option Json;
  rr_description : option Json;
  rr_growthChance : option Json;
  rr_decayChance : option Json;
  rr_growthStyle : option Json;
  rr_relatedElementId : option Json
}.

Definition RATE_LIMIT : JsError :=
  {| message := "RATE_LIMIT"; stringified := "{}" |}.

(** [typeof gChance === 'number' && gChance > 0.15 ? 0.15 : gChance] *)
Definition clampGrowth (gChance : option Json) : option Json :=
  match gChance with
  | Some (JNumber q) =>
      if Qlt_le_dec 0.15 q then Some (JNumber 0.15) else Some (JNumber q)
  | other => other
  end.

(** [error.message || JSON.stringify(error)] *)
Definition errorMessage (e : JsError) : string :=
  if is_empty (message e) then stringified e else message e.

Definition looks_rate_limited (msg : string) : bool :=
  (includes msg "429" || includes msg "quota"
   || includes msg "RESOURCE_EXHAUSTED")%bool.

Section DiscoverReaction.
(** The builtin [JSON.parse]: the parsed value, or the SyntaxError it
    throws. *)
Variable JSON_parse : string -> Outcome Json.

(** The body of the [try] block.  [apiKey] is [process.env.API_KEY],
    [reply] the outcome of [ai.models.generateContent]. *)
Definition discoverReaction_try
    (apiKey : option string) (reply : Outcome Response)
    : Outcome (option ReactionResult) :=
  if is_empty (default "" apiKey) then
    Throws {| message := "API Key not found"; stringified := "{}" |}
  else
  match reply with
  | Throws e => Throws e
  | Returns response =>
      let jsonText := default "" (text response) in
      if is_empty jsonText then Returns None else
      match JSON_parse jsonText with
      | Throws e => Throws e
      | Returns data =>
          let result := get "result" data in
          if (truthy_json (get "reactionOccurred" data) && truthy_json result)%bool
          then
            let field k := match result with Some r => get k r | None => None end in
            Returns (Some {|
              rr_name := field "name";
              rr_color := field "color";
              rr_physics := field "physics";
              rr_description := field "description";
              rr_growthChance := clampGrowth (field "growthChance");
              rr_decayChance := field "decayChance";
              rr_growthStyle := field "growthStyle";
              rr_relatedElementId := field "relatedElementId" |})
          else Returns None
      end
  end.

(** [discoverReaction]: the [try] block under its [catch]. *)
Definition discoverReaction
    (apiKey : option string) (reply : Outcome Response)
    : Outcome (option ReactionResult) :=
  match discoverReaction_try apiKey reply with
  | Throws error =>
      if looks_rate_limited (errorMessage error) then Throws RATE_LIMIT
      else Returns None
  | Returns r => Returns r
  end.
End DiscoverReaction.

(** ** components/Sandbox.tsx: reaction discovery bookkeeping *)

Definition MAX_CONCURRENT_REQUESTS : Z := 4.
Definition MAX_QUEUE_SIZE : Z := 50.

(** The refs of the component that the reaction bookkeeping touches.
    [pendingReactions] is a JavaScript [Set]: insertion-ordered, without
    duplicates.  The two grids are typed arrays. *)
Record Sandbox := {
  reactionsCache : gmap string Z;
  pendingResolution : gmap string string;
  pendingReactions : list string;
  inflightReactions : gset string;
  activeRequestCount : Z;
  isRateLimited : bool;
  nextGrid : list Z;
  nextDensity : list Q
}.

Definition set_cache (v : gmap string Z) (s : Sandbox) : Sandbox :=
  {| reactionsCache := v; pendingResolution := pendingResolution s;
     pendingReactions := pendingReactions s;
     inflightReactions := inflightReactions s;
     activeRequestCount := activeRequestCount s;
     isRateLimited := isRateLimited s;
     nextGrid := nextGrid s; nextDensity := nextDensity s |}.
Definition set_resolution (v : gmap string string) (s : Sandbox) : Sandbox :=
  {| reactionsCache := reactionsCache s; pendingResolution := v;
     pendingReactions := pendingReactions s;
     inflightReactions := inflightReactions s;
     activeRequestCount := activeRequestCount s;
     isRateLimited := isRateLimited s;
     nextGrid := nextGrid s; nextDensity := nextDensity s |}.
Definition set_pending (v : list string) (s : Sandbox) : Sandbox :=
  {| reactionsCache := reactionsCache s;
     pendingResolution := pendingResolution s; pendingReactions := v;
     inflightReactions := inflightReactions s;
     activeRequestCount := activeRequestCount s;
     isRateLimited := isRateLimited s;
     nextGrid := nextGrid s; nextDensity := nextDensity s |}.
Definition set_inflight (v : gset string) (n : Z) (s : Sandbox) : Sandbox :=
  {| reactionsCache := reactionsCache s;
     pendingResolution := pendingResolution s;
     pendingReactions := pendingReactions s;
     inflightReactions := v; activeRequestCount := n;
     isRateLimited := isRateLimited s;
     nextGrid := nextGrid s; nextDensity := nextDensity s |}.
Definition set_rateLimited (v : bool) (s : Sandbox) : Sandbox :=
  {| reactionsCache := reactionsCache s;
     pendingResolution := pendingResolution s;
     pendingReactions := pendingReactions s;
     inflightReactions := inflightReactions s;
     activeRequestCount := activeRequestCount s;
     isRateLimited := v;
     nextGrid := nextGrid s; nextDensity := nextDensity s |}.
Definition set_cell (i : nat) (id : Z) (mass : Q) (s : Sandbox) : Sandbox :=
  {| reactionsCache := reactionsCache s;
     pendingResolution := pendingResolution s;
     pendingReactions := pendingReactions s;
     inflightReactions := inflightReactions s;
     activeRequestCount := activeRequestCount s;
     isRateLimited := isRateLimited s;
     nextGrid := <[i := id]> (nextGrid s);
     nextDensity := <[i := mass]> (nextDensity s) |}.
Definition set_grids (g : list Z) (d : list Q) (s : Sandbox) : Sandbox :=
  {| reactionsCache := reactionsCache s;
     pendingResolution := pendingResolution s;
     pendingReactions := pendingReactions s;
     inflightReactions := inflightReactions s;
     activeRequestCount := activeRequestCount s;
     isRateLimited := isRateLimited s;
     nextGrid := g; nextDensity := d |}.

(** The value an [Int32Array] cell holds after an integer is stored. *)
Definition toInt32 (z : Z) : Z := (z + 2 ^ 31) mod 2 ^ 32 - 2 ^ 31.

(** [set.add(k)] and [set.delete(k)] on the insertion-ordered set *)
Definition set_add (k : string) (l : list string) : list string :=
  if bool_decide (k ∈ l) then l else l ++ [k].
Definition set_delete (k : string) (l : list string) : list string :=
  filter (fun x => x ≠ k) l.

(** The key of an unordered pair of element ids. *)
Definition pairKey (id1 id2 : Z) : string :=
  if id1 <? id2 then pretty id1 ++ ":" ++ pretty id2
  else pretty id2 ++ ":" ++ pretty id1.

(** [queueReaction(id1, id2)] for the cell at index [i]. *)
Definition queueReaction (i : nat) (id1 id2 : Z) (s : Sandbox) : Sandbox :=
  if id1 =? id2 then s else
  let key := pairKey id1 id2 in
  match reactionsCache s !! key with
  | Some res =>
      if 0 <? res then set_cell i (toInt32 res) 1 s else s
  | None =>
      if (negb (bool_decide (key ∈ dom (pendingResolution s)))
          && negb (bool_decide (key ∈ inflightReactions s))
          && negb (isRateLimited s)
          && (Z.of_nat (length (pendingReactions s)) <? MAX_QUEUE_SIZE))%bool
      then set_pending (set_add key (pendingReactions s)) s
      else s
  end.

(** The reaction checks of one cell: its four neighbours in [grid], then
    the energy overlay on the cell itself.  An index of [None] is the
    [-1] of [getIdx]. *)
Definition cellReactions (grid : list Z) (i : nat) (cellId enId : Z)
    (neighbors : list (option nat)) (s : Sandbox) : Sandbox :=
  let s :=
    foldl (fun s nIdx =>
             match nIdx with
             | Some n =>
                 match grid !! n with
                 | Some g => if 0 <? g then queueReaction i cellId g s else s
                 | None => s
                 end
             | None => s
             end) s neighbors in
  if enId =? 0 then s else queueReaction i cellId enId s.

(** [nextGrid.fill(0); nextDensity.fill(0)] at the start of a tick *)
Definition beginTick (s : Sandbox) : Sandbox :=
  set_grids (replicate (length (nextGrid s)) 0)
            (replicate (length (nextDensity s)) 0%Q) s.

Definition find_by_id (elements : list ElementDef) (id : JsNum) : option ElementDef :=
  match id with
  | Num z => List.find (fun e => elem_id e =? z) elements
  | NaN => None
  end.

Definition find_by_name_ci (elements : list ElementDef) (name : string)
    : option ElementDef :=
  List.find (fun e => String.eqb (toLowerCase (elem_name e)) (toLowerCase name))
            elements.

(** The end of the [forEach] callback of [processReactions]. *)
Definition cleanup (reactionKey : string) (s : Sandbox) : Sandbox :=
  set_inflight (inflightReactions s ∖ {[reactionKey]}) (activeRequestCount s - 1) s.

(** The callback of [keysToProcess.forEach] up to its [await]: the new
    state, and whether a request for the pair is now in flight. *)
Definition dispatchKey (elements : list ElementDef) (reactionKey : string)
    (s : Sandbox) : Sandbox * bool :=
  let s := set_pending (set_delete reactionKey (pendingReactions s)) s in
  if (bool_decide (reactionKey ∈ dom (reactionsCache s))
      || bool_decide (reactionKey ∈ dom (pendingResolution s))
      || bool_decide (reactionKey ∈ inflightReactions s))%bool
  then (s, false) else
  let s := set_inflight ({[reactionKey]} ∪ inflightReactions s)
                        (activeRequestCount s + 1) s in
  let ids := map Number_of_string (split ":" reactionKey) in
  let elemA := find_by_id elements (default NaN (ids !! 0%nat)) in
  let elemB := find_by_id elements (default NaN (ids !! 1%nat)) in
  match elemA, elemB with
  | Some _, Some _ => (s, true)
  | _, _ => (cleanup reactionKey s, false)
  end.

(** What the awaited [discoverReaction] call came back with. *)
Inductive Discovery :=
| Proposed (name : string)      (* a result with this name *)
| NoReaction                    (* null *)
| RateLimited                   (* rejected with RATE_LIMIT *)
| Failed.                       (* rejected otherwise *)

(** The rest of the callback, after the [await]. *)
Definition resolveKey (elements : list ElementDef) (reactionKey : string)
    (d : Discovery) (s : Sandbox) : Sandbox :=
  let s :=
    match d with
    | Proposed name =>
        match find_by_name_ci elements name with
        | Some existing =>
            set_cache (<[reactionKey := elem_id existing]> (reactionsCache s)) s
        | None =>
            set_resolution (<[reactionKey := name]> (pendingResolution s)) s
        end
    | NoReaction | Failed =>
        set_cache (<[reactionKey := 0]> (reactionsCache s)) s
    | RateLimited => set_rateLimited true s
    end in
  cleanup reactionKey s.

(** The 10 s timeout after a rate-limit rejection. *)
Definition rateLimitReset (s : Sandbox) : Sandbox := set_rateLimited false s.

(** One run of [processReactions] up to the [await]s of its callbacks. *)
Definition processReactions (elements : list ElementDef) (s : Sandbox) : Sandbox :=
  if isRateLimited s then s
  else if MAX_CONCURRENT_REQUESTS <=? activeRequestCount s then s
  else
    let availableSlots := MAX_CONCURRENT_REQUESTS - activeRequestCount s in
    let keysToProcess := take (Z.to_nat availableSlots) (pendingReactions s) in
    foldl (fun s k => fst (dispatchKey elements k s)) s keysToProcess.

Definition getId (elements : list ElementDef) (n : string) : option Z :=
  elem_id <$> List.find (fun e => String.eqb (elem_name e) n) elements.

(** [ignore(id1, id2)] *)
Definition ignore (id1 id2 : option Z) (s : Sandbox) : Sandbox :=
  match id1, id2 with
  | Some a, Some b => set_cache (<[pairKey a b := 0]> (reactionsCache s)) s
  | _, _ => s
  end.

(** The effect that runs when [elements] changes: pending names that now
    exist get their id, and the fixed exclusions are (re)written. *)
Definition elementsEffect (elements : list ElementDef) (s : Sandbox) : Sandbox :=
  let s :=
    foldl (fun s '(key, name) =>
             match find_by_name_ci elements name with
             | Some existing =>
                 set_resolution (delete key (pendingResolution s))
                   (set_cache (<[key := elem_id existing]> (reactionsCache s)) s)
             | None => s
             end) s (map_to_list (pendingResolution s)) in
  let w := getId elements "Water" in
  let e := getId elements "Electricity" in
  let h := getId elements "Hydrogen" in
  let o := getId elements "Oxygen" in
  let f := getId elements "Fire" in
  let s := ignore o e (ignore h e (ignore o f (ignore h f (ignore h o (ignore w e s))))) in
  match w with
  | Some _ =>
      foldl (fun s elem =>
               if bool_decide (elem_physics elem = LIFE)
               then ignore w (Some (elem_id elem)) s else s) s elements
  | None => s
  end.

(** One atomic step of the bookkeeping, whoever takes it: the physics
    loop, the request scheduler, a returning request, the effect on the
    element catalogue or the back-off timer. *)
Inductive sandbox_step : Sandbox -> Sandbox -> Prop :=
| step_beginTick s :
    sandbox_step s (beginTick s)
| step_queueReaction i id1 id2 s :
    sandbox_step s (queueReaction i id1 id2 s)
| step_dispatch elements key s :
    sandbox_step s (fst (dispatchKey elements key s))
| step_resolve elements key d s :
    sandbox_step s (resolveKey elements key d s)
| step_elements elements s :
    sandbox_step s (elementsEffect elements s)
| step_rateLimitReset s :
    sandbox_step s (rateLimitReset s).

(** *** Sample answers and sandboxes *)

(** A parse error whose message carries the offset 429. *)
Definition parse_error_at_429 : JsError :=
  {| message := "Unexpected token } in JSON at position 429";
     stringified := "{}" |}.

(** A model answer proposing a reaction with growthChance 0.9: the result
    carries 0.15. *)
Definition sample_answer : Json :=
  JObject [ ("reactionOccurred", JBool true);
            ("result", JObject [ ("name", JString "Steam");
                                 ("physics", JString "GAS");
                                 ("growthChance", JNumber 0.9) ]) ].

(** A sandbox whose cache holds a non-reaction for the pair (1, 2) and the
    reaction 1 + 3 -> 4. *)
Definition c7_sandbox : Sandbox :=
  {| reactionsCache := {[ "1:2" := 0; "1:3" := 4 ]};
     pendingResolution := ∅; pendingReactions := [];
     inflightReactions := ∅; activeRequestCount := 0; isRateLimited := false;
     nextGrid := [0; 0; 0; 0]; nextDensity := [0; 0; 0; 0]%Q |}.

(** ** App.tsx: handleElementDiscovery *)

(** [Math.max(...prev.map(e => e.id))]; [None] is the [-Infinity] of an
    empty list. *)
Definition maxId (prev : list ElementDef) : option Z :=
  match prev with
  | [] => None
  | e :: rest => Some (foldl Z.max (elem_id e) (elem_id <$> rest))
  end.

(** The updater of [setElements] in [handleElementDiscovery].  [None]: the
    list was empty and the new id would be [-Infinity]. *)
Definition handleElementDiscovery (name : string) (physics : PhysicsType)
    (prev : list ElementDef) : option (list ElementDef) :=
  match find_by_name_ci prev name with
  | Some _ => Some prev
  | None =>
      match maxId prev with
      | Some m =>
          Some (prev ++ [ {| elem_id := m + 1; elem_name := name;
                             elem_physics := physics |} ])%list
      | None => None
      end
  end.

(** ** components/Sandbox.tsx: getIdx *)

Definition GRID_WIDTH : Z := 120.
Definition GRID_HEIGHT : Z := 100.

Definition getIdx (x y : Z) : Z :=
  if ((x <? 0) || (GRID_WIDTH <=? x) || (y <? 0) || (GRID_HEIGHT <=? y))%bool
  then -1 else y * GRID_WIDTH + x.

(** ** The request protocol

    [sandbox_step] lets any bookkeeping function run with any argument.
    In the component a request is resolved only for a key that is in
    flight, and keys are dispatched by [processReactions]. *)
Inductive sandbox_run : Sandbox -> Sandbox -> Prop :=
| run_beginTick s :
    sandbox_run s (beginTick s)
| run_queueReaction i id1 id2 s :
    sandbox_run s (queueReaction i id1 id2 s)
| run_processReactions elements s :
    sandbox_run s (processReactions elements s)
| run_resolve elements key d s :
    key ∈ inflightReactions s ->
    sandbox_run s (resolveKey elements key d s)
| run_elements elements s :
    sandbox_run s (elementsEffect elements s)
| run_rateLimitReset s :
    sandbox_run s (rateLimitReset s).

(** The counter of active requests is the number of keys in flight, and
    at most [MAX_CONCURRENT_REQUESTS]. *)
Definition inflight_ok (s : Sandbox) : Prop :=
  activeRequestCount s = Z.of_nat (size (inflightReactions s)) /\
  activeRequestCount s <= MAX_CONCURRENT_REQUESTS.

(** The pending set holds no key twice and at most [MAX_QUEUE_SIZE] keys. *)
Definition pending_ok (s : Sandbox) : Prop :=
  NoDup (pendingReactions s) /\
  Z.of_nat (length (pendingReactions s)) <= MAX_QUEUE_SIZE.

(** The requests in flight and their counter are the same in both
    sandboxes. *)
Definition same_inflight (s s' : Sandbox) : Prop :=
  inflightReactions s' = inflightReactions s /\
  activeRequestCount s' = activeRequestCount s.

(** One step of the loop of the elements effect over the parked names. *)
Definition resolve_entry (elements : list ElementDef) (s : Sandbox)
    (entry : string * string) : Sandbox :=
  let '(key, name) := entry in
  match find_by_name_ci elements name with
  | Some existing =>
      set_resolution (delete key (pendingResolution s))
        (set_cache (<[key := elem_id existing]> (reactionsCache s)) s)
  | None => s
  end.

(** The elements a fresh sandbox starts from, in part. *)
Definition basic_elements : list ElementDef :=
  [ {| elem_id := 0; elem_name := "Empty"; elem_physics := EMPTY |};
    {| elem_id := 1; elem_name := "Water"; elem_physics := LIQUID |};
    {| elem_id := 2; elem_name := "Fire"; elem_physics := ENERGY |} ].

End Alchemy.

(* ===================================================================== *)
(** * Cosmic Voyager: narration service (services/geminiService.ts) *)
(* ===================================================================== *)

Module Voyager.

(** Two line breaks, the [\n\n] of the source literals. *)
Definition nl2 : string := String "010" (String "010" EmptyString).

Definition FALLBACK_DESCRIPTIONS : list (string * string) :=
  [ ("Mercury",
     "Mercury is the smallest planet in the Solar System and the closest to the Sun. It orbits the Sun in just 88 Earth days. "
     ++ nl2 ++
     "Fun Fact: Despite being closest to the Sun, Mercury is not the hottest planet; Venus holds that title due to its thick atmosphere.");
    ("Venus",
     "Venus is the second planet from the Sun and is Earth's closest planetary neighbor. It has a thick, toxic atmosphere filled with carbon dioxide and shrouded in thick yellowish clouds of sulfuric acid that trap heat, causing a runaway greenhouse effect."
     ++ nl2 ++
     "Fun Fact: Venus spins in the opposite direction (retrograde rotation) to most other planets.");
    ("Earth",
     "Earth is the third planet from the Sun and the only astronomical object known to harbor life. About 29% of Earth's surface is land consisting of continents and islands, while the remaining 71% is covered with water."
     ++ nl2 ++
     "Fun Fact: Earth is the only planet not named after a Greek or Roman god or goddess.");
    ("Mars",
     "Mars is the fourth planet from the Sun and the second-smallest planet in the Solar System, being larger than only Mercury. It is often referred to as the 'Red Planet' because the iron oxide prevalent on its surface gives it a reddish appearance."
     ++ nl2 ++
     "Fun Fact: Mars is home to Olympus Mons, the tallest volcano and known mountain in the solar system.");
    ("Jupiter",
     "Jupiter is the fifth planet from the Sun and the largest in the Solar System. It is a gas giant with a mass more than two and a half times that of all the other planets in the Solar System combined, but slightly less than one-thousandth the mass of the Sun."
     ++ nl2 ++
     "Fun Fact: Jupiter has the shortest day of all the planets, spinning around its axis in just under 10 hours.");
    ("Saturn",
     "Saturn is the sixth planet from the Sun and the second-largest in the Solar System, after Jupiter. It is a gas giant with an average radius of about nine and a half times that of Earth. It is famous for its prominent ring system."
     ++ nl2 ++
     "Fun Fact: Saturn is the only planet in our solar system that is less dense than water; if there were a bathtub big enough, it would float.");
    ("Uranus",
     "Uranus is the seventh planet from the Sun. It has the third-largest planetary radius and fourth-largest planetary mass in the Solar System. Uranus is similar in composition to Neptune, and both have bulk chemical compositions which differ from that of the larger gas giants Jupiter and Saturn."
     ++ nl2 ++
     "Fun Fact: Uranus rotates on its side, making it the only planet whose equator is nearly at a right angle to its orbit.");
    ("Neptune",
     "Neptune is the eighth and farthest-known Solar planet from the Sun. In the Solar System, it is the fourth-largest planet by diameter, the third-most-massive planet, and the densest giant planet. It is 17 times the mass of Earth."
     ++ nl2 ++
     "Fun Fact: Neptune has the strongest winds in the solar system, reaching speeds of up to 1,300 miles per hour (2,100 km/h).");
    ("The Sun",
     "The Sun is the star at the center of the Solar System. It is a nearly perfect sphere of hot plasma, heated to incandescence by nuclear fusion reactions in its core. It radiates this energy mainly as visible light, ultraviolet light, and infrared radiation."
     ++ nl2 ++
     "Fun Fact: The Sun accounts for 99.86% of the mass in the solar system.") ].

(** [FALLBACK_DESCRIPTIONS[planetName]]: the own properties of the object
    literal. *)
Fixpoint fallback_lookup (table : list (string * string)) (planetName : string)
    : option string :=
  match table with
  | [] => None
  | (k, v) :: rest =>
      if String.eqb k planetName then Some v else fallback_lookup rest planetName
  end.

(** The fields of [PlanetDetailRequest] that decide the returned text; the
    view context only shapes the prompt. *)
Record PlanetDetailRequest := {
  name : string;
  bodyType : option string;
  fallbackText : option string
}.

Definition GENERIC_FAILURE : string :=
  "Communications with the Galactic Database (Gemini) are currently down. Please try again later.".

(** [getPlanetDetails]; [reply] is the outcome of the model call. *)
Definition getPlanetDetails (request : PlanetDetailRequest)
    (reply : Outcome Response) : string :=
  let planetName := name request in
  let fallbackText := trim <$> fallbackText request in
  match reply with
  | Returns response =>
      str_or (text response)
        (str_or (fallback_lookup FALLBACK_DESCRIPTIONS planetName)
           (str_or fallbackText "Unable to retrieve planetary data."))
  | Throws _ =>
      match fallback_lookup FALLBACK_DESCRIPTIONS planetName with
      | Some d =>
          if is_empty d then str_or fallbackText GENERIC_FAILURE else d
      | None => str_or fallbackText GENERIC_FAILURE
      end
  end.

Definition BODIES : list string :=
  ["Mercury"; "Venus"; "Earth"; "Mars"; "Jupiter"; "Saturn"; "Uranus";
   "Neptune"; "The Sun"].

(** The property names every object literal inherits from
    [Object.prototype].  A lookup [table[name]] with one of these names
    finds the inherited member instead of [undefined]; the tables below are
    modelled on all other names. *)
Definition OBJECT_PROTOTYPE_KEYS : list string :=
  ["constructor"; "hasOwnProperty"; "isPrototypeOf"; "propertyIsEnumerable";
   "toLocaleString"; "toString"; "valueOf"; "__proto__";
   "__defineGetter__"; "__defineSetter__"; "__lookupGetter__";
   "__lookupSetter__"].

Fixpoint ascii_only (s : string) : bool :=
  match s with
  | EmptyString => true
  | String c s' => (Nat.ltb (nat_of_ascii c) 128 && ascii_only s')%bool
  end.

(** ** services/geminiService.ts: getTerrainPreference *)

Inductive TerrainProfile := flat | balanced | mountainous.

Definition heuristicTerrain : list (string * TerrainProfile) :=
  [ ("Mercury", mountainous); ("Venus", mountainous); ("Earth", balanced);
    ("Mars", mountainous); ("Jupiter", flat); ("Saturn", flat);
    ("Uranus", flat); ("Neptune", flat) ].

Fixpoint terrain_lookup (table : list (string * TerrainProfile))
    (planetName : string) : option TerrainProfile :=
  match table with
  | [] => None
  | (k, v) :: rest =>
      if String.eqb k planetName then Some v else terrain_lookup rest planetName
  end.

(** [getTerrainPreference]; [terrainCache] is the module-level cache,
    [reply] the outcome of the model call.  Returns the profile and the
    cache afterwards. *)
Definition getTerrainPreference (planetName : string)
    (reply : Outcome Response) (terrainCache : gmap string TerrainProfile)
    : TerrainProfile * gmap string TerrainProfile :=
  match terrainCache !! planetName with
  | Some cached => (cached, terrainCache)
  | None =>
      let fallback := default balanced (terrain_lookup heuristicTerrain planetName) in
      match reply with
      | Returns response =>
          let raw := str_or (toLowerCase <$> text response) "" in
          let choice :=
            if includes raw "mountain" then mountainous
            else if includes raw "flat" then flat
            else balanced in
          (choice, <[planetName := choice]> terrainCache)
      | Throws _ => (fallback, <[planetName := fallback]> terrainCache)
      end
  end.

End Voyager.

(* ===================================================================== *)
(** * Theorems: AI Spire, generative content service *)
(* ===================================================================== *)

Section SpireService.
Import Spire.

(** ** Shop rarity *)

Lemma clamp01_inside (q : Q) : (0 <= q)%Q -> (q <= 1)%Q -> (clamp01 q == q)%Q.
Proof.
  intros H0 H1. unfold clamp01.
  rewrite (Q.max_r 0 q) by exact H0.
  apply Q.min_r. exact H1.
Qed.

Lemma clamp01_range (q : Q) : (0 <= clamp01 q)%Q /\ (clamp01 q <= 1)%Q.
Proof.
  unfold clamp01. split.
  - apply Q.min_glb; [discriminate | apply Q.le_max_l].
  - apply Q.le_min_l.
Qed.

(** The three chances always add up to one: the [max(0, ..)] guard of the
    common chance never clips. *)
Lemma shop_chances_sum (level : Q) :
  let c := getShopRarityChances level in
  (legendary c + rare c + common c == 1)%Q.
Proof.
  cbv zeta. unfold getShopRarityChances; cbn [legendary rare common].
  destruct (clamp01_range ((level - 1) / 20)) as [H0 H1].
  set (t := clamp01 ((level - 1) / 20)) in *.
  rewrite Q.max_r.
  - unfold lerp. ring.
  - unfold lerp.
    assert (E : (1 - (0.02 + (0.15 - 0.02) * t) - (0.22 + (0.55 - 0.22) * t)
                 == 0.30 + 0.46 * (1 - t))%Q) by ring.
    rewrite E.
    apply (Qle_trans _ (0.30 + 0)%Q); [discriminate |].
    apply Qplus_le_r. apply Qmult_le_0_compat; [discriminate |].
    unfold Qminus. apply Qle_minus_iff in H1. exact H1.
Qed.



(** ** Special-effect sanitizer *)

(** C5 as stated fails: the sanitizer does not return the all-lower-case
    string. *)
Lemma C5_counterexample :
  sanitizeSpecialEffect (VString "POISON_4,fetch_draw_attack,bogus_token,energy_2")
  <> Some "poison_4,fetch_draw_attack,energy_2".
Proof. vm_compute. discriminate. Qed.

(** C5 (amended): the example string sanitizes to
    "poison_4,fetch_draw_ATTACK,energy_2": the unrecognized token is
    dropped, the order is kept, and the canonical form of a fetch token
    carries its type filter in upper case. *)
Theorem C5_sanitize_example :
  sanitizeSpecialEffect (VString "POISON_4,fetch_draw_attack,bogus_token,energy_2")
  = Some "poison_4,fetch_draw_ATTACK,energy_2".
Proof. vm_compute. reflexivity. Qed.

(** The canonical string is a fixed point of the sanitizer. *)
Lemma sanitize_example_idempotent :
  sanitizeSpecialEffect (VString "poison_4,fetch_draw_ATTACK,energy_2")
  = Some "poison_4,fetch_draw_ATTACK,energy_2".
Proof. vm_compute. reflexivity. Qed.

(** ** Reward cards: the mock fallback *)

Lemma mock_has_three_cards now level :
  length (mockGenerateCards now level) = 3%nat.
Proof. reflexivity. Qed.

(** C6 as stated fails: with no API key the service returns three cards,
    not four, and a single one of them carries level-scaled damage. *)
Lemma C6_counterexample :
  let cards :=
    generateRewardCards (fun _ => None) (fun _ => None) (fun _ => "")
      "" (fun _ => 0) (Returns {| text := None |}) 1 in
  length cards <> 4%nat /\
  length (filter (fun c => card_damage c = Some (4 + 1)) cards) <> 2%nat.
Proof. vm_compute. split; discriminate. Qed.

(** C6 (amended): on a missing API key, a failed model call, a response
    that is not JSON or not an array, or an empty sanitized list,
    generateRewardCards returns the mock pool, which has three cards; only
    the first one (Venom Strike) depends on the level, through its damage
    4 + level and the description that quotes it. *)
Theorem C6_reward_cards_fallback :
  forall (JSON_parse : string -> option Json)
         (sanitizeCard : Json -> option ICard) (freshId : nat -> string)
         (apiKey : string) (now : nat -> Z) (reply : Outcome Response)
         (level : Z),
    (apiKey = "" \/
     (exists e, reply = Throws e) \/
     (exists response, reply = Returns response /\
        JSON_parse (str_or (text response) "[]") = None) \/
     (exists response j, reply = Returns response /\
        JSON_parse (str_or (text response) "[]") = Some j /\
        forall cs, j <> JArray cs) \/
     (exists response cs, reply = Returns response /\
        JSON_parse (str_or (text response) "[]") = Some (JArray cs) /\
        sanitizeCards sanitizeCard
          (imap (fun i c => with_id ("gen-" ++ pretty level ++ "-" ++ freshId i) c) cs)
        = [])) ->
    let cards :=
      generateRewardCards JSON_parse sanitizeCard freshId apiKey now reply level in
    cards = mockGenerateCards now level /\
    length cards = 3%nat /\
    card_damage <$> cards = [Some (4 + level); None; None] /\
    forall level',
      without_level_text <$> mockGenerateCards now level'
      = without_level_text <$> cards /\
      tail (mockGenerateCards now level') = tail cards.
Proof.
  intros JSON_parse sanitizeCard freshId apiKey now reply level H cards.
  assert (Hmock : cards = mockGenerateCards now level).
  { subst cards. unfold generateRewardCards.
    destruct (is_empty apiKey) eqn:Hkey; [reflexivity |].
    destruct H as [-> | [[e ->] | [(r & -> & Hp) | [(r & j & -> & Hp & Hj) | (r & cs & -> & Hp & Hs)]]]].
    - discriminate.
    - reflexivity.
    - rewrite Hp. cbn. reflexivity.
    - rewrite Hp. destruct j; try reflexivity. exfalso. eapply Hj. reflexivity.
    - rewrite Hp. cbv zeta. rewrite Hs. reflexivity. }
  rewrite Hmock. repeat split.
Qed.

(** The fallback at work: no API key, level 3. *)
Lemma C6_witness :
  card_damage <$>
    generateRewardCards (fun _ => None) (fun _ => None) (fun _ => "")
      "" (fun _ => 0) (Returns {| text := None |}) 3
  = [Some 7; None; None].
Proof.
  apply (C6_reward_cards_fallback (fun _ => None) (fun _ => None) (fun _ => "")
           "" (fun _ => 0) (Returns {| text := None |}) 3).
  left. reflexivity.
Defined.

End SpireService.

(* ===================================================================== *)
(** * Theorems: Cosmic Voyager *)
(* ===================================================================== *)

Section VoyagerNarration.
Import Voyager.

Lemma fallback_table_complete :
  Forall (fun body =>
            match fallback_lookup FALLBACK_DESCRIPTIONS body with
            | Some d => is_empty d = false /\ d <> GENERIC_FAILURE
            | None => False
            end) BODIES.
Proof.
  unfold BODIES.
  repeat (apply Forall_cons; split;
          [vm_compute; split; [reflexivity | discriminate] |]).
  apply Forall_nil. trivial.
Qed.



End VoyagerNarration.

(* ===================================================================== *)
(** * Theorems: AI Alchemy *)
(* ===================================================================== *)

Section AlchemyDiscovery.
Import Alchemy.

Lemma clampGrowth_bound (g : option Json) (q : Q) :
  clampGrowth g = Some (JNumber q) -> (q <= 0.15)%Q.
Proof.
  destruct g as [[| | q0 | | |] |]; cbn; try discriminate.
  destruct (Qlt_le_dec 0.15 q0) as [H | H]; intros [= <-].
  - discriminate.
  - exact H.
Qed.

Lemma clampGrowth_number (q : Q) :
  clampGrowth (Some (JNumber q))
  = Some (JNumber (if Qlt_le_dec 0.15 q then 0.15 else q)).
Proof. cbn. destruct (Qlt_le_dec 0.15 q); reflexivity. Qed.




End AlchemyDiscovery.

(* ===================================================================== *)
(** * Theorems: AI Spire, game orchestrator *)
(* ===================================================================== *)

Section SpireUpdates.
Import Spire.

(** ** Preservation of a state predicate by queued updates *)

Lemma preserves_id P : preserves P (fun s => s).
Proof. intros s H. exact H. Qed.

Lemma preserves_batch P (us : list Upd) :
  Forall (preserves P) us -> preserves P (batch us).
Proof.
  unfold batch. induction us as [| u us IH]; intros Hall s Hs; cbn.
  - exact Hs.
  - inversion Hall as [| ? ? Hu Hus]; subst.
    apply IH; [exact Hus | apply Hu, Hs].
Qed.

Lemma preserves_forEach {A} P (l : list A) (body : A -> Upd) :
  (forall x, x ∈ l -> preserves P (body x)) -> preserves P (forEach l body).
Proof.
  unfold forEach. induction l as [| x l IH]; intros Hall s Hs; cbn.
  - exact Hs.
  - apply IH.
    + intros y Hy. apply Hall. now constructor.
    + apply Hall; [constructor | exact Hs].
Qed.

Lemma preserves_when P (b : bool) (u : Upd) :
  (b = true -> preserves P u) -> preserves P (when b u).
Proof.
  destruct b; cbn; intros H.
  - apply H. reflexivity.
  - apply preserves_id.
Qed.

Lemma enemy_only_setPlayer P f : enemy_only P -> preserves P (setPlayer f).
Proof. intros H s Hs. eapply H; [| exact Hs]. reflexivity. Qed.
Lemma enemy_only_addLog P m : enemy_only P -> preserves P (addLog m).
Proof. intros H s Hs. eapply H; [| exact Hs]. reflexivity. Qed.
Lemma enemy_only_setPhase P ph : enemy_only P -> preserves P (setPhase ph).
Proof. intros H s Hs. eapply H; [| exact Hs]. reflexivity. Qed.
Lemma enemy_only_setSelection P sel : enemy_only P -> preserves P (setSelection sel).
Proof. intros H s Hs. eapply H; [| exact Hs]. reflexivity. Qed.
Lemma enemy_only_drawCards P o n : enemy_only P -> preserves P (drawCards o n).
Proof. intros H. apply enemy_only_setPlayer, H. Qed.

Lemma player_only_setEnemy P f : player_only P -> preserves P (setEnemy f).
Proof. intros H s Hs. eapply H; [| exact Hs]. reflexivity. Qed.
Lemma player_only_addLog P m : player_only P -> preserves P (addLog m).
Proof. intros H s Hs. eapply H; [| exact Hs]. reflexivity. Qed.
Lemma player_only_setPhase P ph : player_only P -> preserves P (setPhase ph).
Proof. intros H s Hs. eapply H; [| exact Hs]. reflexivity. Qed.
Lemma player_only_setSelection P sel : player_only P -> preserves P (setSelection sel).
Proof. intros H s Hs. eapply H; [| exact Hs]. reflexivity. Qed.

(** ** The relic trigger processor *)

Lemma decode_start_combat_strength_1 :
  decodeRelic "start_combat" "start_combat_strength_1"
  = {| rTrigger := "start_combat"; rAction := Some "strength"; rAmount := Num 1 |}.
Proof. vm_compute. reflexivity. Qed.

Lemma decode_turn_start_apply_poison_3 :
  decodeRelic "turn_start" "turn_start_apply_poison_3"
  = {| rTrigger := "turn_start"; rAction := Some "poison"; rAmount := Num 3 |}.
Proof. vm_compute. reflexivity. Qed.

(** A relic that decodes to the trigger play_attack stays silent while a
    SKILL card is the context, whichever of the two triggers is asked for. *)
Lemma play_attack_relic_silent o trigger card relic s :
  card_type card = SKILL ->
  trigger = "play_skill" \/ trigger = "play_attack" ->
  rTrigger (decodeRelic trigger (relic_effectType relic)) = "play_attack" ->
  relicStep o trigger (Some card) relic s = s.
Proof.
  intros Hty Htr Hdec. unfold relicStep.
  destruct (is_empty (relic_effectType relic)); [reflexivity |].
  cbv zeta. rewrite Hdec, Hty.
  destruct Htr as [-> | ->]; reflexivity.
Qed.

(** C3: at start_combat the token start_combat_strength_1 adds exactly 1
    to the player's strength counter; at turn_start the token
    turn_start_apply_poison_3 adds exactly 3 to the enemy's poison counter;
    and a relic whose decoded trigger is play_attack does nothing when a
    SKILL card is played. *)
Theorem C3_relic_trigger_decoding :
  forall (o : Oracle) (c s : GameState) (relic : IRelic),
    p_relics (player c) = [relic] ->
    (relic_effectType relic = "start_combat_strength_1" ->
     let s' := processRelicTrigger o c "start_combat" None s in
     player s' =
       set_p_statuses
         (<["strength" :=
              jadd (num_or (p_statuses (player s) !! "strength") (Num 0)) (Num 1)]>
            (p_statuses (player s)))
         (player s) /\
     enemy s' = enemy s) /\
    (relic_effectType relic = "turn_start_apply_poison_3" ->
     let s' := processRelicTrigger o c "turn_start" None s in
     enemy s' =
       set_e_statuses
         (<["poison" :=
              jadd (num_or (e_statuses (enemy s) !! "poison") (Num 0)) (Num 3)]>
            (e_statuses (enemy s)))
         (enemy s) /\
     player s' = player s) /\
    (forall card : ICard,
       card_type card = SKILL ->
       (forall trigger,
          trigger = "play_skill" \/ trigger = "play_attack" ->
          rTrigger (decodeRelic trigger (relic_effectType relic)) = "play_attack" ->
          processRelicTrigger o c trigger (Some card) s = s) /\
       (rTrigger (decodeRelic "play_skill" (relic_effectType relic)) = "play_attack" ->
        forall index,
          playCard o c card index s
          = playCard o (set_player (set_p_relics [] (player c)) c) card index s)).
Proof.
  intros o c s relic Hrelics. unfold processRelicTrigger. rewrite Hrelics.
  split; [| split].
  - intros Heff. cbn [forEach foldl]. unfold forEach; cbn [foldl].
    unfold relicStep. rewrite Heff.
    change (is_empty "start_combat_strength_1") with false. cbv iota.
    rewrite decode_start_combat_strength_1. cbn. split; reflexivity.
  - intros Heff. unfold forEach; cbn [foldl].
    unfold relicStep. rewrite Heff.
    change (is_empty "turn_start_apply_poison_3") with false. cbv iota.
    rewrite decode_turn_start_apply_poison_3. cbn. split; reflexivity.
  - intros card Hty.
    assert (Hsilent : forall trigger s0,
              trigger = "play_skill" \/ trigger = "play_attack" ->
              rTrigger (decodeRelic trigger (relic_effectType relic)) = "play_attack" ->
              forEach [relic] (relicStep o trigger (Some card)) s0 = s0).
    { intros trigger s0 Htr Hdec. unfold forEach; cbn [foldl].
      apply play_attack_relic_silent; assumption. }
    split.
    + intros trigger Htr Hdec. apply Hsilent; assumption.
    + intros Hdec index. unfold playCard.
      change (phase (set_player (set_p_relics [] (player c)) c)) with (phase c).
      destruct (negb (bool_decide (phase c = BATTLE_PLAYER_TURN))); [reflexivity |].
      rewrite Hty. unfold batch; cbn [foldl].
      unfold processRelicTrigger. rewrite Hrelics.
      rewrite Hsilent by (try (left; reflexivity); exact Hdec).
      reflexivity.
Qed.

(** ** Structural proof search over queued updates *)

Ltac pres leaf :=
  lazymatch goal with
  | |- preserves _ (fun s => s) => apply preserves_id
  | |- preserves _ (batch _) =>
      apply preserves_batch; repeat (constructor; [pres leaf |]); try constructor
  | |- preserves _ (when _ _) => apply preserves_when; intros ?; pres leaf
  | |- preserves _ (forEach _ _) => apply preserves_forEach; intros ? ?; pres leaf
  | |- preserves _ (if ?b then _ else _) => destruct b eqn:?; pres leaf
  | |- preserves _ (match ?x with _ => _ end) => destruct x eqn:?; pres leaf
  | |- _ => leaf
  end.

(** ** Combat damage *)

Lemma enemy_hp_block_setPlayer h b f : preserves (enemy_hp_block h b) (setPlayer f).
Proof. intros s H. exact H. Qed.
Lemma enemy_hp_block_addLog h b m : preserves (enemy_hp_block h b) (addLog m).
Proof. intros s H. exact H. Qed.
Lemma enemy_hp_block_setSelection h b x :
  preserves (enemy_hp_block h b) (setSelection x).
Proof. intros s H. exact H. Qed.
Lemma enemy_hp_block_statuses h b (f : gmap string JsNum -> gmap string JsNum) :
  preserves (enemy_hp_block h b)
    (setEnemy (fun prev => set_e_statuses (f (e_statuses prev)) prev)).
Proof. intros s H. exact H. Qed.

Ltac hp_block_leaf :=
  first [ apply enemy_hp_block_setPlayer
        | apply enemy_hp_block_addLog
        | apply enemy_hp_block_setSelection
        | apply (enemy_hp_block_statuses _ _ (status_update _ _)) ].

Lemma applyStatusEffect_hp_block h b c target eff :
  preserves (enemy_hp_block h b) (applyStatusEffect c target eff).
Proof. unfold applyStatusEffect. cbv zeta. pres hp_block_leaf. Qed.

Lemma playEffect_hp_block h b o c eff :
  preserves (enemy_hp_block h b) (playEffect o c eff).
Proof.
  unfold playEffect. cbv zeta.
  pres ltac:(first [ apply applyStatusEffect_hp_block
                   | apply enemy_hp_block_setPlayer
                   | hp_block_leaf ]).
Qed.

Lemma playEffects_hp_block h b o c card :
  preserves (enemy_hp_block h b) (playEffects o c card).
Proof. unfold playEffects. pres ltac:(apply playEffect_hp_block). Qed.

Lemma playBlock_hp_block h b c card :
  preserves (enemy_hp_block h b) (playBlock c card).
Proof. unfold playBlock. cbv zeta. pres hp_block_leaf. Qed.

Lemma playDamage_single_hit c card s :
  card_type card = ATTACK ->
  card_multiHit card = Some 1 ->
  playDamage c card s = setEnemy (hit (hitDamage c card)) s.
Proof.
  intros Hty Hhits. unfold playDamage, hitsOf. rewrite Hty, Hhits.
  rewrite bool_decide_eq_true_2 by reflexivity. reflexivity.
Qed.

(** A hit of 9 on 5 block: the block is used up and 4 points go through. *)
Lemma hit_through_block (e : IEnemy) (hp : Z) :
  e_block e = Num 5 -> e_currentHp e = Num hp ->
  e_currentHp (hit (Num 9) e) = Num (Z.max 0 (hp - 4)) /\
  e_block (hit (Num 9) e) = Num 0.
Proof.
  intros Hblk Hhp. unfold hit. rewrite Hblk, Hhp. cbn. split; reflexivity.
Qed.

(** C1: an attack card with damage 6 and multiHit 1, played by a player
    with strength 0 who is not weak against an enemy with one stack of
    vulnerable and 5 block: the hit is 6, times 1.5 floored is 9, the block
    absorbs 5 and ends at 0, and 4 points reach the enemy's HP (which is
    floored at 0). *)
Theorem C1_combat_damage_math :
  forall (o : Oracle) (c : GameState) (card : ICard) (index : nat) (hp : Z),
    phase c = BATTLE_PLAYER_TURN ->
    p_relics (player c) = [] ->
    card_type card = ATTACK ->
    card_damage card = Some 6 ->
    card_multiHit card = Some 1 ->
    fst (getPlayerStats c) = Num 0 ->
    opt_gt0 (p_statuses (player c) !! "weak") = false ->
    e_statuses (enemy c) !! "vulnerable" = Some (Num 1) ->
    e_block (enemy c) = Num 5 ->
    e_currentHp (enemy c) = Num hp ->
    jadd (Num (default 0 (card_damage card))) (fst (getPlayerStats c)) = Num 6 /\
    hitDamage c card = Num 9 /\
    let s' := playCard o c card index c in
    e_block (enemy s') = Num 0 /\
    e_currentHp (enemy s') = Num (Z.max 0 (hp - 4)) /\
    (4 <= hp -> e_currentHp (enemy s') = Num (hp - 4)).
Proof.
  intros o c card index hp Hph Hrel Hty Hdmg Hhits Hstr Hweak Hvul Hblk Hhp.
  assert (Hraw : jadd (Num (default 0 (card_damage card))) (fst (getPlayerStats c)) = Num 6)
    by (rewrite Hdmg, Hstr; reflexivity).
  assert (Hhit : hitDamage c card = Num 9).
  { unfold hitDamage. rewrite Hraw, Hvul, Hweak. reflexivity. }
  split; [exact Hraw |]. split; [exact Hhit |].
  assert (Hres : enemy_hp_block (Num (Z.max 0 (hp - 4))) (Num 0)
                   (playCard o c card index c)).
  { unfold playCard. rewrite Hph, Hty.
    rewrite bool_decide_eq_true_2 by reflexivity.
    rewrite bool_decide_eq_false_2 by discriminate.
    cbn [negb andb]. cbv zeta iota.
    unfold batch at 1. cbn [foldl].
    unfold processRelicTrigger. rewrite Hrel.
    unfold forEach at 1, when at 1. cbn [foldl].
    apply enemy_hp_block_setPlayer, enemy_hp_block_addLog.
    apply playEffects_hp_block, playBlock_hp_block.
    rewrite (playDamage_single_hit c card) by assumption.
    rewrite Hhit. unfold enemy_hp_block, setEnemy.
    cbn [enemy set_enemy set_player setPlayer].
    apply hit_through_block; assumption. }
  destruct Hres as [Hh Hb]. cbv zeta.
  split; [exact Hb |]. split; [exact Hh |].
  intros Hge. rewrite Hh. f_equal. lia.
Qed.

(** The sample Strike: 20 HP and 5 block become 16 HP and no block. *)
Lemma C1_witness :
  e_block (enemy (playCard identity_oracle c1_state c1_strike 0 c1_state)) = Num 0 /\
  e_currentHp (enemy (playCard identity_oracle c1_state c1_strike 0 c1_state)) = Num 16.
Proof.
  destruct (C1_combat_damage_math identity_oracle c1_state c1_strike 0 20)
    as (_ & _ & Hb & _ & Hh); try reflexivity.
  split; [exact Hb | apply Hh; lia].
Defined.

(** Vajra at the start of a combat: the player's strength goes from absent
    to 1 and the enemy is untouched. *)
Lemma C3_witness :
  p_statuses (player (processRelicTrigger identity_oracle c3_state
                        "start_combat" None c3_state)) !! "strength"
  = Some (Num 1) /\
  enemy (processRelicTrigger identity_oracle c3_state "start_combat" None c3_state)
  = initialEnemy.
Proof.
  destruct (C3_relic_trigger_decoding identity_oracle c3_state c3_state vajra
              eq_refl) as (Hstrength & _ & _).
  destruct (Hstrength eq_refl) as [Hp He].
  split; [rewrite Hp; reflexivity | exact He].
Defined.

(** ** Status counters stay non-negative *)

Lemma amount_ok_Num (n : JsNum) :
  amount_ok n = true <-> exists z, n = Num z /\ 0 <= z.
Proof.
  destruct n as [| z]; cbn.
  - split; [discriminate | intros (z & H & _); discriminate].
  - rewrite Z.leb_le. split.
    + intros H. exists z. auto.
    + intros (z' & [= <-] & H). exact H.
Qed.

Lemma statuses_ok_empty : statuses_ok ∅.
Proof. apply map_Forall_empty. Qed.

Lemma statuses_ok_insert k v (m : gmap string JsNum) :
  amount_ok v = true -> statuses_ok m -> statuses_ok (<[k := v]> m).
Proof. intros Hv Hm. apply map_Forall_insert_2; assumption. Qed.

Lemma num_or_ok (x : option JsNum) (m : gmap string JsNum) k :
  statuses_ok m -> amount_ok (num_or (m !! k) (Num 0)) = true.
Proof.
  intros Hm. unfold num_or.
  destruct (m !! k) as [v |] eqn:Hk; [| reflexivity].
  destruct (truthy v); [| reflexivity].
  exact (Hm k v Hk).
Qed.

Lemma jadd_ok a b : amount_ok a = true -> amount_ok b = true -> amount_ok (jadd a b) = true.
Proof.
  rewrite !amount_ok_Num. intros (x & -> & Hx) (y & -> & Hy).
  exists (x + y). split; [reflexivity | lia].
Qed.

Lemma add_status_ok k amount (m : gmap string JsNum) :
  amount_ok amount = true -> statuses_ok m -> statuses_ok (add_status k amount m).
Proof.
  intros Ha Hm. unfold add_status. apply statuses_ok_insert; [| exact Hm].
  apply jadd_ok; [apply (num_or_ok None), Hm | exact Ha].
Qed.

(** The guarded decrement: a truthy counter is at least 1. *)
Lemma decrement_ok k (m : gmap string JsNum) :
  statuses_ok m -> statuses_ok (decrement k m).
Proof.
  intros Hm. unfold decrement.
  destruct (m !! k) as [v |] eqn:Hk; [| exact Hm].
  destruct (truthy v) eqn:Ht; [| exact Hm].
  apply statuses_ok_insert; [| exact Hm].
  pose proof (Hm k v Hk) as Hv. apply amount_ok_Num in Hv as (z & -> & Hz).
  cbn in Ht. apply negb_true_iff, Z.eqb_neq in Ht.
  cbn. apply Z.leb_le. lia.
Qed.

Lemma status_update_ok realType amount (m : gmap string JsNum) :
  (is_str realType "freeze" || is_str realType "stun"
   || negb (has STATUS_NAMES realType) || amount_ok amount)%bool = true ->
  statuses_ok m -> statuses_ok (status_update realType amount m).
Proof.
  intros H Hm. unfold status_update.
  destruct (is_str realType "freeze" || is_str realType "stun")%bool eqn:Hf.
  - apply statuses_ok_insert; [reflexivity | exact Hm].
  - destruct (has STATUS_NAMES realType) eqn:Hh; [| exact Hm].
    cbn in H. apply add_status_ok; assumption.
Qed.

Lemma status_inv_setPlayer (f : IPlayer -> IPlayer) :
  (forall p, statuses_ok (p_statuses p) -> statuses_ok (p_statuses (f p))) ->
  preserves status_inv (setPlayer f).
Proof. intros Hf s [Hp He]. split; [apply Hf, Hp | exact He]. Qed.

Lemma status_inv_setEnemy (f : IEnemy -> IEnemy) :
  (forall e, statuses_ok (e_statuses e) -> statuses_ok (e_statuses (f e))) ->
  preserves status_inv (setEnemy f).
Proof. intros Hf s [Hp He]. split; [exact Hp | apply Hf, He]. Qed.

Lemma status_inv_same (u : Upd) :
  (forall s, p_statuses (player (u s)) = p_statuses (player s) /\
             e_statuses (enemy (u s)) = e_statuses (enemy s)) ->
  preserves status_inv u.
Proof.
  intros Hu s [Hp He]. destruct (Hu s) as [H1 H2].
  unfold status_inv. rewrite H1, H2. split; assumption.
Qed.

Lemma drawCards_upd_statuses o n p :
  p_statuses (drawCards_upd o n p) = p_statuses p.
Proof.
  unfold drawCards_upd.
  destruct (MAX_HAND_SIZE <=? _); [reflexivity |].
  destruct (jle _ _); [reflexivity |].
  destruct (draw_loop _ _ _ _ _) as [[h d] x]. reflexivity.
Qed.

Lemma status_inv_drawCards o n : preserves status_inv (drawCards o n).
Proof.
  apply status_inv_setPlayer. intros p Hp.
  rewrite drawCards_upd_statuses. exact Hp.
Qed.

(** Updates that write no status dictionary. *)
Ltac status_leaf :=
  first
    [ apply status_inv_drawCards
    | apply status_inv_setPlayer; (let H := fresh in intros ? H; exact H)
    | apply status_inv_setEnemy; (let H := fresh in intros ? H; exact H)
    | solve [ let H := fresh in intros ? H; exact H ] ].

Lemma relicAction_status_inv o relic d :
  decode_ok d = true -> preserves status_inv (relicAction o relic d).
Proof.
  intros Hd. unfold relicAction, decode_ok in *. cbv zeta.
  pres ltac:(first
    [ status_leaf
    | apply status_inv_setPlayer; intros ? Hst;
      apply add_status_ok; [| exact Hst]
    | apply status_inv_setEnemy; intros ? Hst;
      apply add_status_ok; [| exact Hst] ]).
  - exact Hd.
  - exact Hd.
Qed.

Lemma decodeRelic_trigger trigger e :
  decodeRelic trigger e
  = decodeRelic (if String.eqb trigger "start_combat" then "start_combat" else "") e.
Proof.
  unfold decodeRelic. destruct (String.eqb trigger "start_combat"); reflexivity.
Qed.

Lemma relic_ok_decode relic trigger :
  relic_ok relic = true -> decode_ok (decodeRelic trigger (relic_effectType relic)) = true.
Proof.
  unfold relic_ok. rewrite andb_true_iff. intros [H1 H2].
  rewrite decodeRelic_trigger. destruct (String.eqb trigger "start_combat"); assumption.
Qed.

Lemma relicStep_status_inv o trigger ctx relic :
  relic_ok relic = true -> preserves status_inv (relicStep o trigger ctx relic).
Proof.
  intros Hr. unfold relicStep. cbv zeta.
  pres ltac:(apply relicAction_status_inv, relic_ok_decode, Hr).
Qed.

Lemma processRelicTrigger_status_inv o c trigger ctx :
  relics_ok c -> preserves status_inv (processRelicTrigger o c trigger ctx).
Proof.
  intros Hc. unfold processRelicTrigger. apply preserves_forEach.
  intros relic Hin. apply relicStep_status_inv.
  unfold relics_ok in Hc. rewrite Forall_forall in Hc. apply Hc, Hin.
Qed.

Lemma jgt0_ok n : jgt n (Num 0) = true -> amount_ok n = true.
Proof.
  destruct n as [| z]; cbn; [discriminate |].
  rewrite Z.ltb_lt, Z.leb_le. lia.
Qed.

Lemma triggerPlayerPowers_status_inv o c :
  preserves status_inv (triggerPlayerPowers o c).
Proof.
  unfold triggerPlayerPowers. cbv zeta.
  pres ltac:(first
    [ status_leaf
    | apply status_inv_setEnemy; intros ? Hst;
      first [ apply add_status_ok; [apply jgt0_ok; assumption | exact Hst]
            | apply statuses_ok_insert; [reflexivity | exact Hst] ] ]).
Qed.

Lemma applyStatusEffect_status_inv c target eff :
  (is_str (statusRealType eff) "freeze" || is_str (statusRealType eff) "stun"
   || negb (has STATUS_NAMES (statusRealType eff))
   || amount_ok (statusAmount eff))%bool = true ->
  preserves status_inv (applyStatusEffect c target eff).
Proof.
  intros Hok. unfold applyStatusEffect. cbv zeta.
  destruct target;
    (apply preserves_batch; constructor; [| constructor; [| constructor]]);
    try (apply preserves_when; intros _; status_leaf).
  - apply status_inv_setPlayer. intros p Hp. apply status_update_ok; assumption.
  - apply status_inv_setEnemy. intros e He. apply status_update_ok; assumption.
Qed.

Lemma playEffect_status_inv o c eff :
  token_ok eff = true -> preserves status_inv (playEffect o c eff).
Proof.
  intros Htok. unfold token_ok in Htok. unfold playEffect. cbv zeta in *.
  pres ltac:(first
    [ status_leaf
    | apply applyStatusEffect_status_inv;
      repeat match goal with
             | H : mem _ _ = _ |- _ => rewrite H in Htok
             end;
      cbn [orb] in Htok; rewrite ?orb_true_r in Htok; exact Htok ]).
Qed.

Lemma playEffects_status_inv o c card :
  card_ok card = true -> preserves status_inv (playEffects o c card).
Proof.
  unfold card_ok, effect_ok, playEffects.
  destruct (card_specialEffect card) as [se |]; [| intros _; apply preserves_id].
  intros Hall. destruct (is_empty se); [apply preserves_id |].
  apply preserves_forEach. intros eff Hin. apply playEffect_status_inv.
  rewrite forallb_forall in Hall. apply Hall. apply list_elem_of_In. exact Hin.
Qed.

Lemma hit_statuses dmg e : e_statuses (hit dmg e) = e_statuses e.
Proof. unfold hit. destruct (jge _ _); reflexivity. Qed.

Lemma leaveHand_statuses card index p :
  p_statuses (leaveHand card index p) = p_statuses p.
Proof.
  unfold leaveHand. destruct (flag _); [reflexivity |].
  destruct (bool_decide _); reflexivity.
Qed.

Lemma playDamage_status_inv c card : preserves status_inv (playDamage c card).
Proof.
  unfold playDamage.
  pres ltac:(apply status_inv_setEnemy; intros e He; rewrite hit_statuses; exact He).
Qed.

Lemma playBlock_status_inv c card : preserves status_inv (playBlock c card).
Proof. unfold playBlock. cbv zeta. pres status_leaf. Qed.

Lemma playCard_status_inv o c card index :
  relics_ok c -> card_ok card = true ->
  preserves status_inv (playCard o c card index).
Proof.
  intros Hrel Hcard. unfold playCard. cbv zeta.
  pres ltac:(first
    [ apply processRelicTrigger_status_inv; exact Hrel
    | apply playDamage_status_inv
    | apply playBlock_status_inv
    | apply playEffects_status_inv; exact Hcard
    | apply status_inv_setPlayer; intros p Hp; rewrite leaveHand_statuses; exact Hp
    | status_leaf ]).
Qed.

Lemma checkWin_status_inv o c :
  relics_ok c -> preserves status_inv (checkWin o c).
Proof.
  intros Hrel. unfold checkWin. cbv zeta.
  pres ltac:(first
    [ apply processRelicTrigger_status_inv; exact Hrel | status_leaf ]).
Qed.

Lemma nextTurn_status_inv o c :
  relics_ok c -> preserves status_inv (nextTurn o c).
Proof.
  intros Hrel. unfold nextTurn. cbv zeta.
  pres ltac:(first
    [ apply processRelicTrigger_status_inv; exact Hrel
    | apply triggerPlayerPowers_status_inv
    | apply status_inv_setPlayer; intros p Hp; cbn; do 3 apply decrement_ok; exact Hp
    | apply status_inv_setEnemy; intros e He; cbn; do 3 apply decrement_ok; exact He
    | status_leaf ]).
Qed.

Lemma startCombat_status_inv o c :
  relics_ok c -> preserves status_inv (startCombat o c).
Proof.
  intros Hrel. unfold startCombat.
  pres ltac:(first
    [ apply processRelicTrigger_status_inv; exact Hrel | status_leaf ]).
Qed.

Lemma applyRelicPickupEffect_status_inv relic :
  preserves status_inv (applyRelicPickupEffect relic).
Proof. unfold applyRelicPickupEffect. cbv zeta. pres status_leaf. Qed.

Lemma onSelect_status_inv cb card : preserves status_inv (onSelect cb card).
Proof.
  unfold onSelect, generateNextPathsAndContinue.
  pres ltac:(first
    [ status_leaf
    | apply status_inv_setPlayer; intros p Hp; unfold fetchToHand;
      destruct validSource; exact Hp ]).
Qed.

(** ** Held content stays sanitized *)

Lemma content_ok_piles p :
  content_ok p <->
  (ok_cards (p_deck p) /\ ok_cards (p_hand p) /\ ok_cards (p_drawPile p) /\
   ok_cards (p_discardPile p) /\ ok_cards (p_exhaustPile p)) /\
  ok_relics (p_relics p).
Proof. unfold content_ok, player_cards. rewrite !Forall_app. tauto. Qed.

Lemma content_inv_relics s : content_inv s -> relics_ok s.
Proof. intros [_ H]. exact H. Qed.

Lemma content_inv_setPlayer (f : IPlayer -> IPlayer) :
  (forall p, content_ok p -> content_ok (f p)) -> preserves content_inv (setPlayer f).
Proof. intros Hf s Hs. apply Hf, Hs. Qed.

Lemma ok_cards_filter (P : ICard -> Prop) `{!forall c, Decision (P c)} l :
  ok_cards l -> ok_cards (filter P l).
Proof.
  rewrite !Forall_forall. intros Hall c Hc.
  apply list_elem_of_filter in Hc as [_ Hc]. apply Hall, Hc.
Qed.

Lemma ok_cards_delete i l : ok_cards l -> ok_cards (delete i l).
Proof. apply Forall_delete. Qed.

Lemma pop_spec {A} (l : list A) x rest : pop l = Some (x, rest) -> l = (rest ++ [x])%list.
Proof.
  unfold pop. destruct (reverse l) as [| y r] eqn:Hr; [discriminate |].
  intros [= <- <-].
  rewrite <- (reverse_involutive l), Hr, reverse_cons. reflexivity.
Qed.

Lemma pop_none {A} (l : list A) : pop l = None -> l = [].
Proof.
  unfold pop. destruct (reverse l) as [| y r] eqn:Hr; [| discriminate].
  intros _. rewrite <- (reverse_involutive l), Hr. reflexivity.
Qed.

(** The draw loop moves cards between the three piles: none is lost or
    invented, and the hand grows by at most the number of iterations. *)
Lemma draw_loop_spec o n h d x :
  (forall l, shuffle o l ≡ₚ l) ->
  let '(h', d', x') := draw_loop o n h d x in
  (h' ++ d' ++ x')%list ≡ₚ (h ++ d ++ x)%list /\
  (length h <= length h' <= length h + n)%nat.
Proof.
  intros Hsh. revert h d x. induction n as [| n IH]; intros h d x; cbn.
  - split; [reflexivity | lia].
  - destruct d as [| c0 d0].
    + destruct x as [| c1 x1]; [split; [reflexivity | lia] |].
      destruct (pop (shuffle o (c1 :: x1))) as [[c rest] |] eqn:Hpop.
      * apply pop_spec in Hpop.
        specialize (IH (h ++ [c])%list rest []).
        destruct (draw_loop o n (h ++ [c])%list rest []) as [[h' d'] x'].
        destruct IH as [IHp IHl]. rewrite length_app in IHl. cbn in IHl.
        split; [| lia].
        rewrite IHp. rewrite app_nil_r. cbn [app].
        rewrite <- (Hsh (c1 :: x1)), Hpop.
        rewrite <- app_assoc. apply Permutation_app_head.
        apply Permutation_app_comm.
      * apply pop_none in Hpop.
        pose proof (Hsh (c1 :: x1)) as Hp. rewrite Hpop in Hp.
        apply Permutation_nil_l in Hp. discriminate.
    + destruct (pop (c0 :: d0)) as [[c rest] |] eqn:Hpop.
      * apply pop_spec in Hpop.
        specialize (IH (h ++ [c])%list rest x).
        destruct (draw_loop o n (h ++ [c])%list rest x) as [[h' d'] x'].
        destruct IH as [IHp IHl]. rewrite length_app in IHl. cbn in IHl.
        split; [| lia].
        rewrite IHp, Hpop. rewrite <- !app_assoc.
        apply Permutation_app_head. rewrite !app_assoc.
        apply Permutation_app_tail. apply Permutation_app_comm.
      * apply pop_none in Hpop. discriminate.
Qed.

Lemma drawCards_upd_content o n p :
  (forall l, shuffle o l ≡ₚ l) -> content_ok p -> content_ok (drawCards_upd o n p).
Proof.
  intros Hsh Hp. unfold drawCards_upd.
  destruct (MAX_HAND_SIZE <=? _); [exact Hp |].
  destruct (jle _ _); [exact Hp |].
  set (k := match jmin n _ with Num z => Z.to_nat z | NaN => 0%nat end).
  pose proof (draw_loop_spec o k (p_hand p) (p_drawPile p) (p_discardPile p) Hsh) as Hd.
  destruct (draw_loop o k _ _ _) as [[h' d'] x']. destruct Hd as [Hperm _].
  apply content_ok_piles in Hp as [(Hdeck & Hh & Hd & Hx & He) Hr].
  apply content_ok_piles. cbn. split; [| exact Hr].
  assert (Hall : ok_cards (h' ++ d' ++ x')%list).
  { rewrite Hperm. rewrite !Forall_app. auto. }
  rewrite !Forall_app in Hall. tauto.
Qed.

Lemma content_inv_drawCards o n :
  (forall l, shuffle o l ≡ₚ l) -> preserves content_inv (drawCards o n).
Proof.
  intros Hsh. apply content_inv_setPlayer. intros p Hp.
  apply drawCards_upd_content; assumption.
Qed.

(** The cap of [drawCards]: from a hand of at most 10 cards it never
    builds a hand of more than 10. *)
Lemma drawCards_hand_capped o n p :
  (forall l, shuffle o l ≡ₚ l) ->
  (length (p_hand p) <= 10)%nat ->
  (length (p_hand (drawCards_upd o n p)) <= 10)%nat.
Proof.
  intros Hsh Hp. unfold drawCards_upd, MAX_HAND_SIZE.
  destruct (10 <=? Z.of_nat (length (p_hand p))) eqn:Hfull; [exact Hp |].
  apply Z.leb_gt in Hfull.
  destruct (jle _ _) eqn:Hle; [exact Hp |].
  set (k := match jmin n _ with Num z => Z.to_nat z | NaN => 0%nat end).
  assert (Hk : (k <= 10 - length (p_hand p))%nat).
  { subst k. destruct n as [| z]; cbn; [lia |]. lia. }
  pose proof (draw_loop_spec o k (p_hand p) (p_drawPile p) (p_discardPile p) Hsh) as Hd.
  destruct (draw_loop o k _ _ _) as [[h' d'] x']. destruct Hd as [_ Hlen].
  cbn. lia.
Qed.

Ltac content_leaf :=
  first
    [ apply content_inv_drawCards; assumption
    | apply content_inv_setPlayer; (let H := fresh in intros ? H; exact H)
    | solve [ let H := fresh in intros ? H; exact H ] ].

Lemma relicAction_content_inv o relic d :
  (forall l, shuffle o l ≡ₚ l) -> preserves content_inv (relicAction o relic d).
Proof. intros Hsh. unfold relicAction. cbv zeta. pres content_leaf. Qed.

Lemma processRelicTrigger_content_inv o c trigger ctx :
  (forall l, shuffle o l ≡ₚ l) ->
  preserves content_inv (processRelicTrigger o c trigger ctx).
Proof.
  intros Hsh. unfold processRelicTrigger, relicStep. cbv zeta.
  pres ltac:(apply relicAction_content_inv; exact Hsh).
Qed.

Lemma triggerPlayerPowers_content_inv o c :
  (forall l, shuffle o l ≡ₚ l) -> preserves content_inv (triggerPlayerPowers o c).
Proof. intros Hsh. unfold triggerPlayerPowers. cbv zeta. pres content_leaf. Qed.

Lemma applyStatusEffect_content_inv c target eff :
  preserves content_inv (applyStatusEffect c target eff).
Proof. unfold applyStatusEffect. cbv zeta. pres content_leaf. Qed.

Lemma playEffects_content_inv o c card :
  (forall l, shuffle o l ≡ₚ l) -> preserves content_inv (playEffects o c card).
Proof.
  intros Hsh. unfold playEffects, playEffect. cbv zeta.
  pres ltac:(first [ apply applyStatusEffect_content_inv | content_leaf ]).
Qed.

Lemma leaveHand_content card index p :
  card_ok card = true -> content_ok p -> content_ok (leaveHand card index p).
Proof.
  intros Hc Hp. apply content_ok_piles in Hp as [(Hdeck & Hh & Hd & Hx & He) Hr].
  unfold leaveHand.
  destruct (flag _); [| destruct (bool_decide _)];
    apply content_ok_piles; cbn; rewrite ?Forall_app;
    repeat split; auto using ok_cards_delete.
Qed.

Lemma playCard_content_inv o c card index :
  (forall l, shuffle o l ≡ₚ l) -> card_ok card = true ->
  preserves content_inv (playCard o c card index).
Proof.
  intros Hsh Hcard. unfold playCard, playDamage, playBlock. cbv zeta.
  pres ltac:(first
    [ apply processRelicTrigger_content_inv; exact Hsh
    | apply playEffects_content_inv; exact Hsh
    | apply content_inv_setPlayer; intros p Hp; apply leaveHand_content; assumption
    | content_leaf ]).
Qed.

Lemma checkWin_content_inv o c :
  (forall l, shuffle o l ≡ₚ l) -> preserves content_inv (checkWin o c).
Proof.
  intros Hsh. unfold checkWin. cbv zeta.
  pres ltac:(first
    [ apply processRelicTrigger_content_inv; exact Hsh | content_leaf ]).
Qed.

Lemma nextTurn_content_inv o c :
  (forall l, shuffle o l ≡ₚ l) -> preserves content_inv (nextTurn o c).
Proof.
  intros Hsh. unfold nextTurn. cbv zeta.
  pres ltac:(first
    [ apply processRelicTrigger_content_inv; exact Hsh
    | apply triggerPlayerPowers_content_inv; exact Hsh
    | content_leaf ]).
Qed.

Lemma startCombat_content_inv o c :
  (forall l, shuffle o l ≡ₚ l) -> preserves content_inv (startCombat o c).
Proof.
  intros Hsh. unfold startCombat.
  pres ltac:(first
    [ apply processRelicTrigger_content_inv; exact Hsh | content_leaf ]).
Qed.

Lemma applyRelicPickupEffect_content_inv relic :
  preserves content_inv (applyRelicPickupEffect relic).
Proof. unfold applyRelicPickupEffect. cbv zeta. pres content_leaf. Qed.

Lemma fetchToHand_content src card p :
  card_ok card = true -> content_ok p -> content_ok (fetchToHand src card p).
Proof.
  intros Hc Hp. apply content_ok_piles in Hp as [(Hdeck & Hh & Hd & Hx & He) Hr].
  unfold fetchToHand, without.
  destruct src; apply content_ok_piles; cbn; rewrite ?Forall_app;
    repeat split; auto using ok_cards_filter.
Qed.

Lemma onSelect_content_inv cb card :
  card_ok card = true -> preserves content_inv (onSelect cb card).
Proof.
  intros Hc. unfold onSelect, generateNextPathsAndContinue.
  pres ltac:(first
    [ apply content_inv_setPlayer; intros p Hp; apply fetchToHand_content; assumption
    | apply content_inv_setPlayer; intros p Hp;
      apply content_ok_piles in Hp as [(Hdeck & Hh & Hd & Hx & He) Hr];
      apply content_ok_piles; cbn; unfold without;
      repeat split; auto using ok_cards_filter
    | content_leaf ]).
Qed.

(** ** The invariant of the transition system *)

Lemma app_inv_update (u : Upd) a :
  preserves status_inv u -> preserves content_inv u ->
  app_inv a -> app_inv (update u a).
Proof.
  intros Hs Hc (Ha & Hb & Ht).
  split; [apply Hs, Ha |]. split; [apply Hc, Hb | exact Ht].
Qed.

Lemma app_inv_setTimeout t a :
  match timer_closure t with Some c => relics_ok c | None => True end ->
  app_inv a -> app_inv (setTimeout t a).
Proof.
  intros Hc (Ha & Hb & Ht). split; [exact Ha |]. split; [exact Hb |].
  unfold timers_ok. cbn. apply Forall_app. split; [exact Ht |].
  constructor; [exact Hc | constructor].
Qed.

Lemma etherealFade_content p : content_ok p -> content_ok (etherealFade p).
Proof.
  intros Hp. apply content_ok_piles in Hp as [(Hdeck & Hh & Hd & Hx & He) Hr].
  unfold etherealFade. apply content_ok_piles; cbn; rewrite ?Forall_app.
  repeat split; auto using ok_cards_filter.
Qed.

Lemma preserves_dep P (F : GameState -> Upd) :
  (forall prev, preserves P (F prev)) -> preserves P (fun s => F s s).
Proof. intros HF s Hs. apply (HF s s Hs). Qed.

Lemma endTurnUpdates_status_inv prev : preserves status_inv (endTurnUpdates prev).
Proof. unfold endTurnUpdates, dotLogs. cbv zeta. pres status_leaf. Qed.

Lemma endTurnUpdates_content_inv prev : preserves content_inv (endTurnUpdates prev).
Proof.
  unfold endTurnUpdates, dotLogs. cbv zeta.
  pres ltac:(first
    [ apply content_inv_setPlayer; intros p Hp; apply etherealFade_content; exact Hp
    | content_leaf ]).
Qed.

Lemma endTurn_inv c a : relics_ok c -> app_inv a -> app_inv (endTurn c a).
Proof.
  intros Hc Ha. unfold endTurn.
  assert (H1 : app_inv (update (fun s => endTurnUpdates s s) a)).
  { apply app_inv_update; [| | exact Ha]; apply preserves_dep; intros prev.
    - apply endTurnUpdates_status_inv.
    - apply endTurnUpdates_content_inv. }
  destruct (jle _ _); [exact H1 |].
  apply app_inv_setTimeout; [exact Hc | exact H1].
Qed.

Lemma enemyActs_inv c a : relics_ok c -> app_inv a -> app_inv (enemyActs c a).
Proof.
  intros Hc Ha. unfold enemyActs. cbv zeta.
  apply app_inv_setTimeout; [exact Hc |].
  destruct (jgt _ _).
  - apply app_inv_update; [| | exact Ha].
    + pres ltac:(first
        [ apply status_inv_setEnemy; intros e He;
          apply statuses_ok_insert; [reflexivity | exact He]
        | status_leaf ]).
    + pres content_leaf.
  - destruct (enemyAttack c (player (state a))) as [[newBlock dmg] newHp].
    assert (H1 : app_inv
      (update (batch [
          addLog (e_name (enemy c) ++ " attacks!");
          setPlayer (fun p => set_p_currentHp newHp (set_p_block newBlock p));
          when (jgt (num_or (p_statuses (player (state a)) !! "reflect") (Num 0)) (Num 0)
                && jge dmg (Num 0))%bool
            (batch [ setEnemy (fun e =>
                       set_e_currentHp
                         (jmax (Num 0)
                            (jsub (e_currentHp e)
                               (num_or (p_statuses (player (state a)) !! "reflect") (Num 0)))) e);
                     addLog ("Reflected " ++
                             num_to_string
                               (num_or (p_statuses (player (state a)) !! "reflect") (Num 0))
                             ++ " dmg!") ])
        ]) a)).
    { apply app_inv_update; [| | exact Ha].
      - pres status_leaf.
      - pres content_leaf. }
    destruct (jle newHp (Num 0)); [| exact H1].
    apply app_inv_setTimeout; [exact I | exact H1].
Qed.

Lemma startBattle_inv o c node a :
  (forall l, shuffle o l ≡ₚ l) -> relics_ok c ->
  app_inv a -> app_inv (startBattle o c node a).
Proof.
  intros Hsh Hc Ha. unfold startBattle. cbv zeta.
  destruct (match node_type node with
            | ELITE => _ | BOSS => _ | _ => _ end) as [[[enemyHp damage] enemyName] enemyEmoji].
  apply app_inv_setTimeout; [exact Hc |].
  apply app_inv_update; [| | exact Ha].
  - pres ltac:(first
      [ apply status_inv_setEnemy; intros e He; apply statuses_ok_empty
      | apply status_inv_setPlayer; intros p Hp; apply statuses_ok_empty
      | status_leaf ]).
  - pres ltac:(first
      [ apply content_inv_setPlayer; intros p Hp;
        apply content_ok_piles in Hp as [(Hdeck & Hh & Hd & Hx & He) Hr];
        apply content_ok_piles; cbn; rewrite ?Forall_app;
        repeat split; auto;
        apply ok_cards_filter; rewrite (Hsh (p_deck p)); exact Hdeck
      | content_leaf ]).
Qed.

Lemma selectPath_inv o c node a :
  (forall l, shuffle o l ≡ₚ l) -> relics_ok c ->
  app_inv a -> app_inv (selectPath o c node a).
Proof.
  intros Hsh Hc Ha. unfold selectPath.
  assert (H1 : app_inv
            (update (batch [ set_level (node_level node);
                             set_currentRoom (Some (node_type node));
                             set_logs [] ]) a)).
  { apply app_inv_update; [| | exact Ha]; [pres status_leaf | pres content_leaf]. }
  destruct (node_type node);
    try (apply startBattle_inv; assumption);
    (apply app_inv_update; [| | exact H1]; [pres status_leaf | pres content_leaf]).
Qed.

Lemma fireTimer_inv o t a :
  (forall l, shuffle o l ≡ₚ l) ->
  match timer_closure t with Some c => relics_ok c | None => True end ->
  app_inv a -> app_inv (fireTimer o t a).
Proof.
  intros Hsh Hc Ha. destruct t as [c | c | c |]; cbn in Hc |- *.
  - apply app_inv_update;
      [apply startCombat_status_inv | apply startCombat_content_inv | ]; assumption.
  - apply enemyActs_inv; assumption.
  - apply app_inv_update;
      [apply nextTurn_status_inv | apply nextTurn_content_inv | ]; assumption.
  - apply app_inv_update; [| | exact Ha]; [pres status_leaf | pres content_leaf].
Qed.

Lemma initialApp_inv : app_inv initialApp.
Proof.
  split; [split; apply statuses_ok_empty |].
  split; [split | constructor].
  - cbn. repeat (constructor; [reflexivity |]). constructor.
  - constructor.
Qed.

Lemma filteredPile_cards sel p card :
  content_ok p -> card ∈ filteredPile sel p -> card_ok card = true.
Proof.
  intros Hp Hin. apply content_ok_piles in Hp as [(Hdeck & Hh & Hd & Hx & He) Hr].
  assert (Hpile : ok_cards (pile_of (sel_source sel) p))
    by (destruct (sel_source sel); assumption).
  assert (Hfp : ok_cards (filteredPile sel p)).
  { unfold filteredPile. destruct (sel_filter sel) as [f |]; [| exact Hpile].
    destruct (is_empty f); [exact Hpile | apply ok_cards_filter, Hpile]. }
  rewrite Forall_forall in Hfp. apply Hfp, Hin.
Qed.

Lemma handle_inv o ev a a' :
  oracle_ok o -> payload_ok ev -> app_inv a ->
  handle o ev a = Some a' -> app_inv a'.
Proof.
  intros [Hsh _] Hpay Ha Hh.
  pose proof Ha as (Hst & Hco & Hti).
  pose proof (content_inv_relics _ Hco) as Hrel.
  destruct ev; cbn in Hh, Hpay.
  - (* EvSelectPath *)
    destruct (_ && _)%bool; [| discriminate]. injection Hh as <-.
    apply selectPath_inv; assumption.
  - (* EvTimer *)
    destruct (timers a !! i) as [t |] eqn:Hi; [| discriminate]. injection Hh as <-.
    apply fireTimer_inv; [exact Hsh | |].
    + unfold timers_ok in Hti. rewrite Forall_forall in Hti.
      apply Hti. eapply list_elem_of_lookup_2. exact Hi.
    + split; [exact Hst |]. split; [exact Hco |].
      cbn. apply Forall_delete. exact Hti.
  - (* EvPlayCard *)
    destruct (p_hand (player (state a)) !! index) as [card |] eqn:Hc; [| discriminate].
    destruct (selection (state a)); [discriminate |].
    destruct (_ && _)%bool; [| discriminate]. injection Hh as <-.
    assert (Hcard : card_ok card = true).
    { apply content_ok_piles in Hco as [(_ & Hh & _) _].
      rewrite Forall_forall in Hh. apply Hh. eapply list_elem_of_lookup_2. exact Hc. }
    apply app_inv_update;
      [apply playCard_status_inv | apply playCard_content_inv | ]; assumption.
  - (* EvEndTurn *)
    destruct (selection (state a)); [discriminate |].
    destruct (bool_decide _); [| discriminate]. injection Hh as <-.
    apply endTurn_inv; assumption.
  - (* EvSelect *)
    destruct (selection (state a)) as [sel |]; [| discriminate].
    destruct (sel_isOpen sel && overlay_rendered (phase (state a))
              && bool_decide (card ∈ filteredPile sel (player (state a))))%bool eqn:Hg;
      [| discriminate].
    injection Hh as <-.
    apply andb_true_iff in Hg as [_ Hin]. apply bool_decide_eq_true in Hin.
    assert (Hcard : card_ok card = true) by (eapply filteredPile_cards; eassumption).
    apply app_inv_update;
      [apply onSelect_status_inv | apply onSelect_content_inv | ]; assumption.
  - (* EvCloseSelection *)
    destruct (selection (state a)) as [sel |]; [| discriminate].
    destruct (_ && _)%bool; [| discriminate]. injection Hh as <-.
    apply app_inv_update; [| | exact Ha]; [pres status_leaf | pres content_leaf].
  - (* EvOpenRewards *)
    destruct (bool_decide _); [| discriminate]. injection Hh as <-.
    apply app_inv_update; [| | exact Ha]; [pres status_leaf | pres content_leaf].
  - (* EvCollectRelic *)
    destruct (_ && _)%bool; [| discriminate]. injection Hh as <-.
    apply app_inv_update; [| | exact Ha].
    + pres ltac:(first [ apply applyRelicPickupEffect_status_inv | status_leaf ]).
    + pres ltac:(first
        [ apply applyRelicPickupEffect_content_inv
        | apply content_inv_setPlayer; intros p Hp;
          apply content_ok_piles in Hp as [Hcards Hr];
          apply content_ok_piles; cbn; split; [exact Hcards |];
          apply Forall_app; split; [exact Hr | constructor; [exact Hpay | constructor]]
        | content_leaf ]).
  - (* EvTakeReward *)
    destruct (bool_decide _); [| discriminate]. injection Hh as <-.
    apply app_inv_update; [| | exact Ha].
    + unfold generateNextPathsAndContinue. pres status_leaf.
    + unfold generateNextPathsAndContinue.
      pres ltac:(first
        [ apply content_inv_setPlayer; intros p Hp;
          apply content_ok_piles in Hp as [(Hdeck & Hrest) Hr];
          apply content_ok_piles; cbn; rewrite ?Forall_app;
          repeat split; try tauto; constructor; [exact Hpay | constructor]
        | content_leaf ]).
  - (* EvSkipReward *)
    destruct (bool_decide _); [| discriminate]. injection Hh as <-.
    apply app_inv_update; [| | exact Ha];
      unfold generateNextPathsAndContinue; [pres status_leaf | pres content_leaf].
  - (* EvBuyCard *)
    destruct (bool_decide _); [| discriminate]. injection Hh as <-.
    apply app_inv_update; [| | exact Ha]; unfold buyCard.
    + pres status_leaf.
    + pres ltac:(first
        [ apply content_inv_setPlayer; intros p Hp;
          apply content_ok_piles in Hp as [(Hdeck & Hrest) Hr];
          apply content_ok_piles; cbn; rewrite ?Forall_app;
          repeat split; try tauto; constructor; [exact Hpay | constructor]
        | content_leaf ]).
  - (* EvBuyRelic *)
    destruct (bool_decide _); [| discriminate]. injection Hh as <-.
    apply app_inv_update; [| | exact Ha]; unfold buyRelic.
    + pres ltac:(first [ apply applyRelicPickupEffect_status_inv | status_leaf ]).
    + pres ltac:(first
        [ apply applyRelicPickupEffect_content_inv
        | apply content_inv_setPlayer; intros p Hp;
          apply content_ok_piles in Hp as [Hcards Hr];
          apply content_ok_piles; cbn; split; [exact Hcards |];
          apply Forall_app; split; [exact Hr | constructor; [exact Hpay | constructor]]
        | content_leaf ]).
  - (* EvLeaveShop *)
    destruct (bool_decide _); [| discriminate]. injection Hh as <-.
    apply app_inv_update; [| | exact Ha];
      unfold generateNextPathsAndContinue; [pres status_leaf | pres content_leaf].
  - (* EvRestHeal *)
    destruct (bool_decide _); [| discriminate]. injection Hh as <-.
    apply app_inv_update; [| | exact Ha];
      unfold restHeal, generateNextPathsAndContinue; [pres status_leaf | pres content_leaf].
  - (* EvRestRemove *)
    destruct (bool_decide _); [| discriminate]. injection Hh as <-.
    apply app_inv_update; [| | exact Ha];
      unfold restRemove; [pres status_leaf | pres content_leaf].
  - (* EvRestart *)
    destruct (bool_decide _); [| discriminate]. injection Hh as <-.
    apply initialApp_inv.
Qed.

Lemma step_inv o ev a a' :
  oracle_ok o -> payload_ok ev -> app_inv a ->
  step o ev a = Some a' -> app_inv a'.
Proof.
  intros Ho Hpay Ha Hstep. unfold step in Hstep.
  destruct (handle o ev a) as [a1 |] eqn:Hh; [| discriminate].
  injection Hstep as <-.
  pose proof (handle_inv _ _ _ _ Ho Hpay Ha Hh) as H1.
  pose proof H1 as (Hst & Hco & Hti).
  split; [| split; [| exact Hti]]; cbn.
  - apply checkWin_status_inv; [apply content_inv_relics, Hco | exact Hst].
  - apply checkWin_content_inv; [apply Ho | exact Hco].
Qed.

Lemma reachable_inv a : reachable a -> app_inv a.
Proof.
  induction 1 as [| o ev a a' _ IH Ho Hpay Hstep].
  - apply initialApp_inv.
  - eapply step_inv; eassumption.
Qed.

(** C10: in every state a play-through can reach, with shuffles that
    permute, uniform draws in [0,1) and generated cards and relics whose
    tokens are sanitizer-conformant, every status counter of the player
    and of the enemy is a non-negative integer: applications add
    non-negative amounts, and the end-of-round decrements only touch a
    counter that is not 0. *)
Theorem C10_status_counters_nonnegative :
  forall a : App,
    reachable a ->
    (forall k v, p_statuses (player (state a)) !! k = Some v ->
       exists z, v = Num z /\ 0 <= z) /\
    (forall k v, e_statuses (enemy (state a)) !! k = Some v ->
       exists z, v = Num z /\ 0 <= z).
Proof.
  intros a Hr. destruct (reachable_inv a Hr) as ((Hp & He) & _).
  split; intros k v Hk; apply amount_ok_Num.
  - exact (Hp k v Hk).
  - exact (He k v Hk).
Qed.

Lemma identity_oracle_ok : oracle_ok identity_oracle.
Proof. split; [reflexivity | split; [discriminate | reflexivity]]. Qed.

Lemma run_reachable trace a a' :
  reachable a ->
  Forall (fun oe => oracle_ok (fst oe) /\ payload_ok (snd oe)) trace ->
  run trace a = Some a' -> reachable a'.
Proof.
  revert a. induction trace as [| [o ev] trace IH]; intros a Ha Hall Hrun; cbn in Hrun.
  - injection Hrun as <-. exact Ha.
  - inversion Hall as [| ? ? [Ho Hp] Hrest]; subst.
    destruct (step o ev a) as [a1 |] eqn:Hstep; [| discriminate].
    apply (IH a1); [| exact Hrest | exact Hrun].
    eapply reach_step; eassumption.
Qed.

Lemma scripted_ok events :
  Forall payload_ok events ->
  Forall (fun oe => oracle_ok (fst oe) /\ payload_ok (snd oe)) (scripted events).
Proof.
  intros Hall. unfold scripted. rewrite Forall_fmap.
  eapply Forall_impl; [exact Hall |].
  intros ev Hev. split; [apply identity_oracle_ok | exact Hev].
Qed.

(** After Bash the enemy carries 2 vulnerable; the state is reachable and
    its counters are non-negative integers. *)
Lemma C10_witness :
  exists a,
    run (scripted first_turn) initialApp = Some a /\
    e_statuses (enemy (state a)) !! "vulnerable" = Some (Num 2) /\
    forall k v, e_statuses (enemy (state a)) !! k = Some v ->
                exists z, v = Num z /\ 0 <= z.
Proof.
  destruct (run (scripted first_turn) initialApp) as [a |] eqn:Hrun;
    [| vm_compute in Hrun; discriminate].
  exists a. split; [reflexivity |]. split.
  - assert (H : (fun r => match r with
                          | Some a => e_statuses (enemy (state a)) !! "vulnerable"
                          | None => None
                          end) (run (scripted first_turn) initialApp) = Some (Num 2))
      by (vm_compute; reflexivity).
    rewrite Hrun in H. exact H.
  - apply (C10_status_counters_nonnegative a).
    eapply run_reachable; [apply reach_init | | exact Hrun].
    apply scripted_ok. repeat constructor.
Defined.

(** ** The hand limit *)

(** The fetch callback appends to the hand whatever its size. *)
Lemma fetchToHand_grows src card p :
  length (p_hand (fetchToHand src card p)) = S (length (p_hand p)).
Proof.
  unfold fetchToHand. destruct src; cbn; rewrite length_app; cbn; lia.
Qed.

(** C4 fails on the code: a play-through from the start of a run reaches
    a state whose hand holds 11 cards.  Every event of the run is enabled
    by the guards of the component, the content is sanitizer-conformant,
    and the last event is the fetch callback, which does not look at the
    hand limit that drawCards enforces. *)
Theorem C4_fetch_exceeds_hand_limit :
  exists a,
    run overfull_run initialApp = Some a /\
    reachable a /\
    length (p_hand (player (state a))) = 11%nat /\
    (MAX_HAND_SIZE < Z.of_nat (length (p_hand (player (state a))))).
Proof.
  assert (Hsize : hand_size (run overfull_run initialApp) = Some 11%nat)
    by (vm_compute; reflexivity).
  destruct (run overfull_run initialApp) as [a |] eqn:Hrun; [| discriminate].
  injection Hsize as Hsize.
  exists a. split; [reflexivity |]. split; [| split].
  - eapply run_reachable; [apply reach_init | | exact Hrun].
    apply scripted_ok. repeat constructor.
  - exact Hsize.
  - rewrite Hsize. reflexivity.
Qed.

(** The state just before the last event: ten cards in hand and the
    overlay open on the discard pile. *)
Lemma overfull_run_last_step :
  hand_size (run (scripted (fight_1 ++ fight_2 ++ removelast fight_3)) initialApp)
  = Some 10%nat.
Proof. vm_compute. reflexivity. Qed.

(** ** What the sanitizers let through *)

Lemma mem_elem_of (x : string) (l : list string) : mem x l = true -> x ∈ l.
Proof.
  unfold mem. intros H. apply existsb_exists in H as (y & Hy & Heq).
  apply String.eqb_eq in Heq as ->. apply list_elem_of_In. exact Hy.
Qed.

Lemma has_elem_of (l : list string) (x : option string) :
  has l x = true -> exists s, x = Some s /\ s ∈ l.
Proof.
  destruct x as [s |]; cbn; [| discriminate].
  intros H. exists s. split; [reflexivity | apply mem_elem_of, H].
Qed.

Lemma clampNumber_range v lo hi fb :
  lo <= fb <= hi -> lo <= hi -> lo <= clampNumber v lo hi fb <= hi.
Proof. intros Hfb Hlh. unfold clampNumber. destruct (Number v); lia. Qed.

Lemma clampNumber_seqZ v lo hi fb :
  lo <= fb <= hi -> clampNumber v lo hi fb ∈ seqZ lo (hi - lo + 1).
Proof.
  intros Hfb. apply elem_of_seqZ.
  pose proof (clampNumber_range v lo hi fb Hfb ltac:(lia)). lia.
Qed.

Lemma with_amounts_intro heads lo n h a :
  h ∈ heads -> a ∈ seqZ lo n -> h ++ "_" ++ pretty a ∈ with_amounts heads lo n.
Proof.
  intros Hh Ha. unfold with_amounts.
  apply list_elem_of_bind. exists h. split; [| exact Hh].
  apply list_elem_of_bind. exists a. split; [| exact Ha].
  apply list_elem_of_singleton. reflexivity.
Qed.

Lemma eqb_or_elem (head a b : string) :
  (String.eqb head a || String.eqb head b)%bool = true -> head ∈ [a; b].
Proof.
  intros H. apply orb_true_iff in H as [H | H]; apply String.eqb_eq in H as ->.
  - constructor.
  - constructor. constructor.
Qed.

(** Every token the special-effect sanitizer returns is one of the
    finitely many canonical tokens. *)
Lemma sanitizeEffectToken_canonical raw t :
  sanitizeEffectToken raw = Some t -> t ∈ EFFECT_TOKENS.
Proof.
  unfold sanitizeEffectToken. cbv zeta.
  destruct (is_empty _); [discriminate |].
  destruct (split_parts _) as [| head rest] eqn:Hparts; [discriminate |].
  set (parts := head :: rest).
  unfold EFFECT_TOKENS.
  destruct (String.eqb head "fetch" || String.eqb head "recover")%bool eqn:Hfetch.
  { apply eqb_or_elem in Hfetch.
    destruct (has ALLOWED_FETCH_SOURCES (parts !! 1%nat)) eqn:Hsrc; [| discriminate].
    apply has_elem_of in Hsrc as (src & Hsrc & Hin). rewrite Hsrc. cbn [negb from_option id].
    intros Ht. apply elem_of_app. left. unfold FETCH_TOKENS.
    apply list_elem_of_bind. exists head. split; [| exact Hfetch].
    apply list_elem_of_bind. exists src. split; [| exact Hin].
    destruct (mem _ ALLOWED_FETCH_FILTERS) eqn:Hf; injection Ht as <-.
    - apply elem_of_cons. right.
      apply list_elem_of_bind. eexists.
      split; [apply list_elem_of_singleton; reflexivity |].
      apply mem_elem_of, Hf.
    - apply elem_of_cons. left. reflexivity. }
  destruct (mem head ALLOWED_ENEMY_STATUS || mem head ALLOWED_PLAYER_STATUS)%bool eqn:Hst.
  { intros [= <-]. apply elem_of_app. right. apply elem_of_app. left.
    apply with_amounts_intro.
    - apply elem_of_app. apply orb_true_iff in Hst as [H | H]; [left | right];
        apply mem_elem_of, H.
    - apply (clampNumber_seqZ _ 1 50 1). lia. }
  destruct (String.eqb head "draw" || String.eqb head "energy"
            || String.eqb head "heal" || String.eqb head "lifesteal")%bool eqn:Hd.
  { intros [= <-]. do 2 (apply elem_of_app; right). apply elem_of_app. left.
    apply with_amounts_intro.
    - repeat (apply orb_true_iff in Hd as [Hd | Hd]);
        apply String.eqb_eq in Hd as ->; repeat constructor.
    - apply (clampNumber_seqZ _ 0 50 0). lia. }
  destruct (String.eqb head "self" && bool_decide (parts !! 1%nat = Some "damage"))%bool.
  { intros [= <-]. do 3 (apply elem_of_app; right). apply elem_of_app. left.
    apply (with_amounts_intro ["self_damage"] 0 31 "self_damage").
    - constructor.
    - apply (clampNumber_seqZ _ 0 30 0). lia. }
  destruct (String.eqb head "recurring" || String.eqb head "turn_start"
            || String.eqb head "start_turn")%bool eqn:Hr; [| discriminate].
  destruct (has ALLOWED_RECURRING_ACTIONS (parts !! 1%nat)) eqn:Ha; [| discriminate].
  apply has_elem_of in Ha as (action & Ha & Hin). rewrite Ha. cbn [negb from_option id].
  intros [= <-]. do 4 (apply elem_of_app; right). unfold RECURRING_TOKENS.
  apply list_elem_of_bind. exists head. split.
  - apply list_elem_of_bind. exists action. split; [| exact Hin].
    apply list_elem_of_bind. eexists.
    split; [apply list_elem_of_singleton; reflexivity |].
    apply (clampNumber_seqZ _ 1 50 1). lia.
  - repeat (apply orb_true_iff in Hr as [Hr | Hr]);
      apply String.eqb_eq in Hr as ->; repeat constructor.
Qed.

(** Each canonical token is accepted by [token_ok], holds no comma and no
    surrounding white space, and is not empty. *)
Lemma effect_tokens_checked :
  forallb (fun t => token_ok t && no_char "," t && String.eqb (trim t) t
                    && negb (is_empty t))%bool EFFECT_TOKENS = true.
Proof. vm_compute. reflexivity. Qed.

Lemma split_cons sep c s :
  split sep (String c s)
  = if Ascii.eqb c sep then EmptyString :: split sep s
    else match split sep s with
         | p :: ps => String c p :: ps
         | [] => [String c EmptyString]
         end.
Proof. reflexivity. Qed.

Lemma split_no_char sep s : no_char sep s = true -> split sep s = [s].
Proof.
  induction s as [| c s IH]; [reflexivity |].
  intros H. apply andb_true_iff in H as [Hc Hs].
  apply negb_true_iff in Hc. rewrite split_cons, Hc, (IH Hs). reflexivity.
Qed.

Lemma split_app_sep sep a b :
  no_char sep a = true ->
  split sep (a ++ String sep b) = a :: split sep b.
Proof.
  induction a as [| c a IH].
  - intros _. change ("" ++ String sep b) with (String sep b).
    rewrite split_cons, Ascii.eqb_refl. reflexivity.
  - intros H. apply andb_true_iff in H as [Hc Ha].
    apply negb_true_iff in Hc.
    change (String c a ++ String sep b) with (String c (a ++ String sep b)).
    rewrite split_cons, Hc, (IH Ha). reflexivity.
Qed.

Lemma split_join (ts : list string) :
  ts <> [] -> Forall (fun t => no_char "," t = true) ts ->
  split "," (join "," ts) = ts.
Proof.
  induction ts as [| t ts IH]; [congruence |].
  intros _ Hall. inversion Hall as [| ? ? Ht Hts]; subst.
  destruct ts as [| t' ts'].
  - cbn. apply split_no_char, Ht.
  - change (join "," (t :: t' :: ts')) with (t ++ String "," (join "," (t' :: ts'))).
    rewrite split_app_sep by exact Ht. f_equal. apply IH; [discriminate | exact Hts].
Qed.

(** Every string the special-effect sanitizer returns satisfies
    [effect_ok]: its status tokens carry amounts between 1 and 50. *)
Lemma sanitizeSpecialEffect_ok raw se :
  sanitizeSpecialEffect raw = Some se -> effect_ok (Some se) = true.
Proof.
  destruct raw as [| n | raw]; cbn [sanitizeSpecialEffect]; try discriminate.
  set (toks := filter _ (omap sanitizeEffectToken (split "," raw))).
  assert (Hcanon : Forall (fun t => t ∈ EFFECT_TOKENS) toks).
  { subst toks. apply Forall_forall. intros t Ht.
    apply list_elem_of_filter in Ht as [_ Ht].
    apply list_elem_of_omap in Ht as (r & _ & Hr).
    eapply sanitizeEffectToken_canonical. exact Hr. }
  pose proof effect_tokens_checked as Hchk. rewrite forallb_forall in Hchk.
  assert (Hgood : Forall (fun t => token_ok t = true /\ no_char "," t = true
                                   /\ trim t = t) toks).
  { eapply Forall_impl; [exact Hcanon |]. intros t Ht.
    apply list_elem_of_In, Hchk in Ht.
    rewrite !andb_true_iff in Ht. destruct Ht as [[[H1 H2] H3] _].
    apply String.eqb_eq in H3. auto. }
  destruct toks as [| t0 ts] eqn:Htoks; [discriminate |].
  intros [= <-]. unfold effect_ok.
  change (match ts with [] => t0 | _ :: _ => _ end) with (join "," (t0 :: ts)).
  rewrite split_join.
  - apply forallb_forall. intros t Ht. apply in_map_iff in Ht as (t' & <- & Ht').
    rewrite Forall_forall in Hgood. apply list_elem_of_In in Ht'.
    destruct (Hgood t' Ht') as (H1 & _ & H3). rewrite H3. exact H1.
  - discriminate.
  - eapply Forall_impl; [exact Hgood |]. intros t (_ & H & _). exact H.
Qed.

(** Every effect type the relic sanitizer returns is one of the finitely
    many canonical relic tokens. *)
Lemma sanitizeRelicEffectType_canonical raw e :
  sanitizeRelicEffectType raw = Some e -> e ∈ RELIC_TOKENS.
Proof.
  destruct raw as [| n | raw]; cbn [sanitizeRelicEffectType]; try discriminate.
  destruct (is_empty (trim raw)); [discriminate |].
  cbv zeta.
  destruct (split_parts (toLowerCase raw)) as [| p0 rest] eqn:Hparts; [discriminate |].
  set (parts := p0 :: rest).
  set (two := match parts !! 1%nat with
              | Some p1 => Some (p0 ++ "_" ++ p1)
              | None => None
              end).
  assert (Htrig : forall trigger index,
            (if has ALLOWED_RELIC_TRIGGERS two then (default "" two, 2%nat)
             else if mem p0 ALLOWED_RELIC_TRIGGERS then (p0, 1%nat)
             else ("start_combat", 0%nat)) = (trigger, index) ->
            trigger ∈ ALLOWED_RELIC_TRIGGERS).
  { intros trigger index.
    destruct (has ALLOWED_RELIC_TRIGGERS two) eqn:H2.
    - apply has_elem_of in H2 as (t & -> & Hin). intros [= <- _]. exact Hin.
    - destruct (mem p0 ALLOWED_RELIC_TRIGGERS) eqn:H1; intros [= <- _].
      + apply mem_elem_of, H1.
      + unfold ALLOWED_RELIC_TRIGGERS. constructor. }
  destruct (if has ALLOWED_RELIC_TRIGGERS two then _ else _) as [trigger index] eqn:Hti.
  specialize (Htrig trigger index eq_refl).
  destruct (parts !! index) as [action |]; [| discriminate].
  unfold RELIC_TOKENS.
  destruct (String.eqb action "apply").
  { destruct (has ALLOWED_RELIC_APPLY (parts !! (index + 1)%nat)) eqn:Hs; [| discriminate].
    apply has_elem_of in Hs as (st & Hs & Hin). rewrite Hs. cbn [negb from_option id].
    intros [= <-]. apply elem_of_app. left.
    apply list_elem_of_bind. exists trigger. split; [| exact Htrig].
    apply list_elem_of_bind. exists st. split; [| exact Hin].
    apply list_elem_of_bind. eexists.
    split; [apply list_elem_of_singleton; reflexivity |].
    apply (clampNumber_seqZ _ 1 50 1). lia. }
  destruct (String.eqb action "max" && _)%bool.
  { intros [= <-]. apply elem_of_app. right. apply elem_of_app. left.
    apply (with_amounts_intro ["max_hp"] 1 50 "max_hp").
    - constructor.
    - apply (clampNumber_seqZ _ 1 50 5). lia. }
  destruct (mem action ALLOWED_RELIC_ACTIONS) eqn:Ha; [| discriminate].
  cbn [negb]. intros [= <-]. do 2 (apply elem_of_app; right).
  apply list_elem_of_bind. exists trigger. split; [| exact Htrig].
  apply list_elem_of_bind. exists action. split; [| apply mem_elem_of, Ha].
  apply list_elem_of_bind. eexists.
  split; [apply list_elem_of_singleton; reflexivity |].
  apply (clampNumber_seqZ _ 1 50 1). lia.
Qed.

Lemma relic_tokens_checked :
  forallb (fun e =>
             decode_ok (decodeRelic "start_combat" e)
             && decode_ok (decodeRelic "" e))%bool RELIC_TOKENS = true.
Proof. vm_compute. reflexivity. Qed.

(** Every relic whose effect type came out of the relic sanitizer
    satisfies [relic_ok]. *)
Lemma sanitizeRelicEffectType_ok raw relic :
  sanitizeRelicEffectType raw = Some (relic_effectType relic) ->
  relic_ok relic = true.
Proof.
  intros H. apply sanitizeRelicEffectType_canonical in H.
  pose proof relic_tokens_checked as Hchk. rewrite forallb_forall in Hchk.
  apply (Hchk (relic_effectType relic)). apply list_elem_of_In. exact H.
Qed.

(** The built-in content is accepted as well. *)
Lemma builtin_content_ok now level :
  Forall (fun c => card_ok c = true) getInitialDeck /\
  Forall (fun c => card_ok c = true) (mockGenerateCards now level).
Proof. split; repeat (constructor; [reflexivity |]); constructor. Qed.

(** ** The shop: rarity chances and prices *)

Lemma clamp01_mono (p q : Q) : (p <= q)%Q -> (clamp01 p <= clamp01 q)%Q.
Proof.
  intros H. unfold clamp01.
  apply Q.min_le_compat_l. apply Q.max_le_compat_l. exact H.
Qed.

Lemma lerp_mono (a b s t : Q) : (a <= b)%Q -> (s <= t)%Q -> (lerp a b s <= lerp a b t)%Q.
Proof.
  intros Hab Hst. unfold lerp. apply Qplus_le_r.
  rewrite (Qmult_comm _ s), (Qmult_comm _ t).
  apply Qmult_le_compat_r; [exact Hst |].
  unfold Qminus. rewrite <- Qle_minus_iff. exact Hab.
Qed.

Lemma shop_weight_mono (l l' : Q) :
  (l <= l')%Q -> (clamp01 ((l - 1) / 20) <= clamp01 ((l' - 1) / 20))%Q.
Proof.
  intros H. apply clamp01_mono.
  apply Qmult_le_compat_r; [| discriminate].
  unfold Qminus. apply Qplus_le_l. exact H.
Qed.

Lemma clamp01_low (q : Q) : (q <= 0)%Q -> (clamp01 q == 0)%Q.
Proof.
  intros H. unfold clamp01. rewrite (Q.max_l 0 q) by exact H.
  apply Q.min_r. discriminate.
Qed.

Lemma clamp01_high (q : Q) : (1 <= q)%Q -> (clamp01 q == 1)%Q.
Proof.
  intros H. unfold clamp01.
  rewrite (Q.max_r 0 q) by (apply (Qle_trans _ 1); [discriminate | exact H]).
  apply Q.min_l. exact H.
Qed.

Lemma floor_roll (roll : Q) (n : Z) :
  0 < n -> (0 <= roll)%Q -> (roll < 1)%Q -> 0 <= Qfloor (roll * inject_Z n) <= n - 1.
Proof.
  intros Hn H0 H1. split.
  - change 0 with (Qfloor 0). apply Qfloor_resp_le.
    apply Qmult_le_0_compat; [exact H0 |].
    change 0%Q with (inject_Z 0). rewrite <- Zle_Qle. lia.
  - assert (H : (roll * inject_Z n < inject_Z n)%Q).
    { rewrite <- (Qmult_1_l (inject_Z n)) at 2.
      apply Qmult_lt_compat_r; [| exact H1].
      change 0%Q with (inject_Z 0). rewrite <- Zlt_Qlt. lia. }
    pose proof (Qfloor_le (roll * inject_Z n)) as Hf.
    assert (Hlt : (inject_Z (Qfloor (roll * inject_Z n)) < inject_Z n)%Q)
      by (eapply Qle_lt_trans; eassumption).
    rewrite <- Zlt_Qlt in Hlt. lia.
Qed.



(** X2 (getShopCardPrice): with a uniform draw in [0,1) the price of a
    shop card is 50 to 69 gold for a common card, 100 to 119 for a rare one
    and 150 to 169 for a legendary one, so the price bands of the rarities
    do not overlap. *)
Theorem X2_shop_card_price_bands :
  forall (rarity : CardRarity) (roll : Q),
    (0 <= roll)%Q -> (roll < 1)%Q ->
    let price := getShopCardPrice rarity roll in
    match rarity with
    | COMMON => 50 <= price <= 69
    | RARE => 100 <= price <= 119
    | LEGENDARY => 150 <= price <= 169
    end.
Proof.
  intros rarity roll H0 H1 price. subst price. unfold getShopCardPrice.
  pose proof (floor_roll roll 20 ltac:(lia) H0 H1) as Hf.
  change (inject_Z 20) with 20%Q in Hf.
  destruct rarity; lia.
Qed.

Lemma X2_witness : 100 <= getShopCardPrice RARE (1 # 2) <= 119.
Proof.
  apply (X2_shop_card_price_bands RARE (1 # 2)); [discriminate | reflexivity].
Defined.

(** ** Multi-hit attacks *)

Lemma forEach_replicate_setEnemy (n : nat) (f : IEnemy -> IEnemy) s :
  forEach (replicate n tt) (fun _ => setEnemy f) s
  = set_enemy (Nat.iter n f (enemy s)) s.
Proof.
  unfold forEach. revert s. induction n as [| n IH]; intros s; cbn [replicate foldl].
  - destruct s; reflexivity.
  - rewrite IH. unfold setEnemy. cbn [enemy set_enemy].
    rewrite <- Nat.iter_succ_r. cbn. reflexivity.
Qed.

Lemma hit_block_hp (d b h : Z) (e : IEnemy) :
  0 <= d -> 0 <= h ->
  e_block e = Num b -> e_currentHp e = Num h ->
  e_block (hit (Num d) e) = Num (Z.max 0 (b - d)) /\
  e_currentHp (hit (Num d) e) = Num (Z.max 0 (h - Z.max 0 (d - b))).
Proof.
  intros Hd Hh Eb Eh. unfold hit. rewrite Eb, Eh.
  cbn [jge jle jsub jmax].
  destruct (d <=? b) eqn:Hc; [apply Z.leb_le in Hc | apply Z.leb_gt in Hc];
    cbn; split; f_equal; lia.
Qed.

Lemma hit_iter (n : nat) (d b h : Z) (e : IEnemy) :
  0 <= d -> 0 <= b -> 0 <= h ->
  e_block e = Num b -> e_currentHp e = Num h ->
  e_block (Nat.iter n (hit (Num d)) e) = Num (Z.max 0 (b - Z.of_nat n * d)) /\
  e_currentHp (Nat.iter n (hit (Num d)) e)
  = Num (Z.max 0 (h - Z.max 0 (Z.of_nat n * d - b))).
Proof.
  intros Hd Hb Hh Eb Eh. induction n as [| n [IHb IHh]].
  - change (Nat.iter 0 (hit (Num d)) e) with e. rewrite Eb, Eh.
    change (Z.of_nat 0) with 0. split; f_equal; lia.
  - rewrite Nat.iter_succ.
    destruct (hit_block_hp d _ _ _ Hd (Z.le_max_l 0 _) IHb IHh) as [Hb' Hh'].
    rewrite Hb', Hh'. rewrite Nat2Z.inj_succ.
    assert (Hm : 0 <= Z.of_nat n * d) by nia.
    replace (Z.succ (Z.of_nat n) * d) with (Z.of_nat n * d + d) by lia.
    set (m := Z.of_nat n * d) in *. clearbody m.
    split; f_equal; lia.
Qed.

(** X3 (playCard, damage loop): a card that hits [multiHit] times for a
    non-negative damage [d] each leaves the enemy's block and HP exactly
    where one hit of [multiHit * d] would: the block absorbs first and ends
    at max 0 (block - total), the rest goes to the HP, which is floored at
    0; the player is not touched. *)
Theorem X3_multi_hit_is_one_big_hit :
  forall (c s : GameState) (card : ICard) (d b h : Z),
    (card_type card = ATTACK \/ exists dmg, card_damage card = Some dmg /\ 0 < dmg) ->
    hitDamage c card = Num d -> 0 <= d ->
    e_block (enemy s) = Num b -> 0 <= b ->
    e_currentHp (enemy s) = Num h -> 0 <= h ->
    let total := Z.max 0 (hitsOf card) * d in
    let s' := playDamage c card s in
    e_block (enemy s') = Num (Z.max 0 (b - total)) /\
    e_currentHp (enemy s') = Num (Z.max 0 (h - Z.max 0 (total - b))) /\
    e_block (enemy s') = e_block (hit (Num total) (enemy s)) /\
    e_currentHp (enemy s') = e_currentHp (hit (Num total) (enemy s)) /\
    player s' = player s.
Proof.
  intros c s card d b h Hatk Hd Hd0 Eb Hb Eh Hh total s'.
  assert (Es' : s' = set_enemy (Nat.iter (Z.to_nat (hitsOf card)) (hit (Num d)) (enemy s)) s).
  { subst s'. unfold playDamage.
    replace (bool_decide (card_type card = ATTACK) || _)%bool with true.
    - cbn [when]. rewrite Hd. apply forEach_replicate_setEnemy.
    - symmetry. destruct Hatk as [-> | (dmg & -> & Hpos)].
      + reflexivity.
      + apply orb_true_iff. right. apply Z.ltb_lt. exact Hpos. }
  rewrite Es'. cbn [enemy player set_enemy].
  destruct (hit_iter (Z.to_nat (hitsOf card)) d b h (enemy s) Hd0 Hb Hh Eb Eh) as [Hbk Hhp].
  replace (Z.of_nat (Z.to_nat (hitsOf card)) * d) with total in Hbk, Hhp
    by (subst total; f_equal; lia).
  assert (Ht : 0 <= total) by (subst total; nia).
  destruct (hit_block_hp total b h (enemy s) Ht Hh Eb Eh) as [Hb1 Hh1].
  rewrite Hbk, Hhp, Hb1, Hh1. repeat split.
Qed.

Lemma X3_witness :
  let s' := playDamage c1_state twin_strike c1_state in
  e_block (enemy s') = Num 0 /\ e_currentHp (enemy s') = Num 11.
Proof.
  destruct (X3_multi_hit_is_one_big_hit c1_state c1_state twin_strike 7 5 20)
    as (Hb & Hh & _); try reflexivity; try lia.
  - left. reflexivity.
  - split; [exact Hb | exact Hh].
Defined.

(** ** The enemy's move, purchases and the win check *)

(** [(x || 0) > 0] is [x > 0], also for an absent [x]. *)
Lemma gt0_or0 (x : option JsNum) : jgt (num_or x (Num 0)) (Num 0) = opt_gt0 x.
Proof.
  destruct x as [[| z] |]; try reflexivity.
  unfold num_or, truthy, opt_gt0. destruct (z =? 0) eqn:Hz; [| reflexivity].
  apply Z.eqb_eq in Hz as ->. reflexivity.
Qed.

Lemma leb0_eqb0 (x : Z) : 0 <= x -> (x <=? 0) = (x =? 0).
Proof.
  intros H. destruct (Z.leb_spec x 0), (Z.eqb_spec x 0); try reflexivity; lia.
Qed.

(** X4 (endTurn, enemy action): a frozen enemy does not attack, its freeze
    counter is reset to 0 and the next turn is scheduled; otherwise, with
    no weak or vulnerable in play, an attack of [m] first eats the player's
    block and only the excess reaches the HP, which is floored at 0: an
    attack that the block covers costs no HP, and the loss screen is
    scheduled exactly when the HP reaches 0. *)
Theorem X4_enemy_move :
  forall (c : GameState) (a : App),
    let a' := enemyActs c a in
    let p := player (state a) in
    (opt_gt0 (e_statuses (enemy c) !! "freeze") = true ->
       player (state a') = p /\
       e_statuses (enemy (state a')) !! "freeze" = Some (Num 0) /\
       e_currentHp (enemy (state a')) = e_currentHp (enemy (state a)) /\
       timers a' = (timers a ++ [TimerNextTurn c])%list) /\
    (forall m b h : Z,
       opt_gt0 (e_statuses (enemy c) !! "freeze") = false ->
       opt_gt0 (e_statuses (enemy c) !! "weak") = false ->
       opt_gt0 (p_statuses p !! "vulnerable") = false ->
       e_nextMoveDamage (enemy c) = Num m -> 0 <= m ->
       p_block p = Num b -> 0 <= b ->
       p_currentHp p = Num h -> 0 <= h ->
       let h' := Z.max 0 (h - Z.max 0 (m - b)) in
       p_block (player (state a')) = Num (Z.max 0 (b - m)) /\
       p_currentHp (player (state a')) = Num h' /\
       (m <= b -> h' = h) /\
       timers a' =
         (timers a ++ (if h' =? 0 then [TimerLoss] else []) ++ [TimerNextTurn c])%list).
Proof.
  intros c a a' p. split.
  - intros Hfrozen. subst a'. unfold enemyActs. rewrite gt0_or0, Hfrozen.
    cbn. repeat split. apply lookup_insert_eq.
  - intros m b h Hfree Hweak Hvul Em Hm Eb Hb Eh Hh h'.
    subst a'. unfold enemyActs. rewrite gt0_or0, Hfree.
    unfold enemyAttack. rewrite !gt0_or0, Hweak. fold p. rewrite Hvul, Em, Eb, Eh.
    cbn [jge jle jsub jmax].
    destruct (m <=? b) eqn:Hc; [apply Z.leb_le in Hc | apply Z.leb_gt in Hc].
    + cbn [jsub jmax jle].
      replace (Z.max 0 (h - 0)) with h' by (subst h'; lia).
      rewrite (leb0_eqb0 h') by (subst h'; lia).
      destruct (h' =? 0) eqn:Hz; cbn;
        match goal with |- context [when ?rb _ _] => destruct rb end; cbn;
        (split; [f_equal; lia |]); (split; [reflexivity |]);
        (split; [intros _; subst h'; lia |]);
        rewrite <- ?app_assoc; reflexivity.
    + cbn [jsub jmax jle].
      replace (Z.max 0 (h - (m - b))) with h' by (subst h'; lia).
      rewrite (leb0_eqb0 h') by (subst h'; lia).
      destruct (h' =? 0) eqn:Hz; cbn;
        match goal with |- context [when ?rb _ _] => destruct rb end; cbn;
        (split; [f_equal; lia |]); (split; [reflexivity |]);
        (split; [intros ?; lia |]);
        rewrite <- ?app_assoc; reflexivity.
Qed.

Lemma X4_witness :
  p_block (player (state (enemyActs (state x4_state) x4_state))) = Num 0 /\
  p_currentHp (player (state (enemyActs (state x4_state) x4_state))) = Num 58.
Proof.
  destruct (X4_enemy_move (state x4_state) x4_state) as [_ Hatt].
  destruct (Hatt 5 3 60) as (Hb & Hh & _); try reflexivity; try lia.
  split; [exact Hb | exact Hh].
Defined.

(** *** The shop *)

(** X5 (buyCard): a shop card with a price other than 0 is bought only if
    the player's gold covers the price, the price is then deducted and the
    card is appended to the deck, and with too little gold nothing changes;
    a card with no price (or price 0) can only be taken with at least 999
    gold, and then costs nothing. *)
Theorem X5_purchases_need_gold :
  forall (s : GameState) (card : ICard) (g : Z),
    p_gold (player s) = Num g ->
    let s' := buyCard s card s in
    (forall pr, card_price card = Some pr -> pr <> 0 ->
       (g < pr -> s' = s) /\
       (pr <= g ->
          p_gold (player s') = Num (g - pr) /\
          p_deck (player s') = (p_deck (player s) ++ [card])%list)) /\
    (card_price card = None \/ card_price card = Some 0 ->
       (g < 999 -> s' = s) /\
       (999 <= g ->
          p_gold (player s') = Num g /\
          p_deck (player s') = (p_deck (player s) ++ [card])%list)).
Proof.
  intros s card g Eg s'. subst s'. unfold buyCard. rewrite Eg. split.
  - intros pr Ep Hnz. rewrite Ep. unfold price_or.
    rewrite (proj2 (Z.eqb_neq pr 0) Hnz). cbn [jge jle]. split.
    + intros Hlt. rewrite (proj2 (Z.leb_gt pr g) Hlt). reflexivity.
    + intros Hle. rewrite (proj2 (Z.leb_le pr g) Hle). cbn. rewrite Eg.
      split; reflexivity.
  - intros Hnone.
    assert (E999 : price_or (card_price card) 999 = 999)
      by (destruct Hnone as [-> | ->]; reflexivity).
    assert (E0 : price_or (card_price card) 0 = 0)
      by (destruct Hnone as [-> | ->]; reflexivity).
    rewrite E999, E0. cbn [jge jle]. split.
    + intros Hlt. rewrite (proj2 (Z.leb_gt 999 g) Hlt). reflexivity.
    + intros Hle. rewrite (proj2 (Z.leb_le 999 g) Hle). cbn -[Z.sub]. rewrite Eg.
      cbn -[Z.sub]. rewrite Z.sub_0_r. split; reflexivity.
Qed.

Lemma X5_witness :
  p_gold (player (buyCard shop_state shop_strike shop_state)) = Num 40 /\
  buyCard shop_state twin_strike shop_state = shop_state.
Proof.
  destruct (X5_purchases_need_gold shop_state shop_strike 100 eq_refl) as [Hpriced _].
  destruct (Hpriced 60 eq_refl) as [_ Hbuy]; [lia |].
  destruct Hbuy as [Hg _]; [lia |].
  destruct (X5_purchases_need_gold shop_state twin_strike 100 eq_refl) as [_ Hfree].
  destruct (Hfree (or_introl eq_refl)) as [Hstay _].
  split; [exact Hg | apply Hstay; lia].
Defined.

(** *** The win check *)

Lemma gold_is_setPlayer g (f : IPlayer -> IPlayer) :
  (forall p, p_gold (f p) = p_gold p) -> preserves (gold_is g) (setPlayer f).
Proof. intros Hf s Hs. unfold gold_is in *. cbn. rewrite Hf. exact Hs. Qed.

Lemma gold_is_player_only g : player_only (gold_is g).
Proof. intros s s' E H. unfold gold_is in *. rewrite <- E. exact H. Qed.

Lemma drawCards_upd_gold o n p : p_gold (drawCards_upd o n p) = p_gold p.
Proof.
  unfold drawCards_upd.
  destruct (MAX_HAND_SIZE <=? _); [reflexivity |].
  destruct (jle _ _); [reflexivity |].
  destruct (draw_loop _ _ _ _ _) as [[? ?] ?]. reflexivity.
Qed.

Ltac gold_leaf :=
  first
    [ apply gold_is_setPlayer; intros ?; first [ reflexivity | apply drawCards_upd_gold ]
    | apply player_only_setEnemy, gold_is_player_only
    | apply player_only_addLog, gold_is_player_only
    | apply player_only_setPhase, gold_is_player_only
    | apply player_only_setSelection, gold_is_player_only ].

Lemma processRelicTrigger_gold g o c trigger ctx :
  preserves (gold_is g) (processRelicTrigger o c trigger ctx).
Proof.
  unfold processRelicTrigger, relicStep, relicAction, drawCards. cbv zeta.
  pres gold_leaf.
Qed.



(** ** Drawing cards *)

(** The draw loop appends to the hand exactly as many cards as asked for,
    or all that are left in the draw and discard piles. *)
Lemma draw_loop_count o n h d x :
  (forall l, shuffle o l ≡ₚ l) ->
  let '(h', d', x') := draw_loop o n h d x in
  exists drawn,
    h' = (h ++ drawn)%list /\
    length drawn = Nat.min n (length d + length x) /\
    (drawn ++ d' ++ x')%list ≡ₚ (d ++ x)%list.
Proof.
  intros Hsh. revert h d x. induction n as [| n IH]; intros h d x; cbn [draw_loop].
  - exists []. rewrite app_nil_r. repeat split; reflexivity.
  - destruct d as [| c0 d0].
    + destruct x as [| c1 x1].
      { exists []. rewrite app_nil_r. repeat split; reflexivity. }
      destruct (pop (shuffle o (c1 :: x1))) as [[c rest] |] eqn:Hpop.
      * apply pop_spec in Hpop.
        specialize (IH (h ++ [c])%list rest []).
        destruct (draw_loop o n (h ++ [c])%list rest []) as [[h' d'] x'].
        destruct IH as (drawn & -> & Hlen & Hperm).
        exists (c :: drawn). rewrite <- app_assoc. split; [reflexivity |].
        assert (Hl : length (shuffle o (c1 :: x1)) = length (c1 :: x1))
          by (apply Permutation_length, Hsh).
        rewrite Hpop, length_app in Hl. cbn in Hl.
        split.
        -- cbn [length] in *. rewrite Hlen. lia.
        -- cbn [app]. rewrite <- (Hsh (c1 :: x1)), Hpop.
           rewrite app_nil_r in Hperm.
           rewrite Hperm. apply Permutation_cons_append.
      * apply pop_none in Hpop.
        pose proof (Hsh (c1 :: x1)) as Hp. rewrite Hpop in Hp.
        apply Permutation_nil_l in Hp. discriminate.
    + destruct (pop (c0 :: d0)) as [[c rest] |] eqn:Hpop.
      * apply pop_spec in Hpop.
        specialize (IH (h ++ [c])%list rest x).
        destruct (draw_loop o n (h ++ [c])%list rest x) as [[h' d'] x'].
        destruct IH as (drawn & -> & Hlen & Hperm).
        exists (c :: drawn). rewrite <- app_assoc. split; [reflexivity |].
        assert (Hl : length (c0 :: d0) = length (rest ++ [c])%list) by (rewrite Hpop; reflexivity).
        rewrite length_app in Hl. cbn in Hl.
        split.
        -- cbn [length]. rewrite Hlen. cbn [length]. lia.
        -- rewrite Hpop. cbn [app]. rewrite Hperm.
           rewrite <- app_assoc. cbn [app].
           rewrite Permutation_middle. reflexivity.
      * apply pop_none in Hpop. discriminate.
Qed.

(** X7 (drawCards): drawing [n] cards appends to the hand exactly
    min(n, room left in the hand, cards left in the draw and discard piles)
    cards, or none if that is not positive; the cards drawn come out of the
    draw and discard piles, no card is lost or duplicated, deck and exhaust
    pile are untouched, and a hand within the limit of 10 stays within
    it. *)
Theorem X7_drawCards_count_and_conservation :
  forall (o : Oracle) (n : Z) (p : IPlayer),
    (forall l, shuffle o l ≡ₚ l) ->
    let p' := drawCards_upd o (Num n) p in
    let room := MAX_HAND_SIZE - Z.of_nat (length (p_hand p)) in
    let left := Z.of_nat (length (p_drawPile p) + length (p_discardPile p)) in
    exists drawn,
      p_hand p' = (p_hand p ++ drawn)%list /\
      Z.of_nat (length drawn) = Z.max 0 (Z.min (Z.min n room) left) /\
      (drawn ++ p_drawPile p' ++ p_discardPile p')%list
        ≡ₚ (p_drawPile p ++ p_discardPile p)%list /\
      battle_piles p' ≡ₚ battle_piles p /\
      p_deck p' = p_deck p /\ p_exhaustPile p' = p_exhaustPile p /\
      (Z.of_nat (length (p_hand p)) <= MAX_HAND_SIZE ->
       Z.of_nat (length (p_hand p')) <= MAX_HAND_SIZE).
Proof.
  intros o n p Hsh p' room left. subst p'. unfold drawCards_upd.
  assert (Hnone : forall q, q = p -> Z.min (Z.min n room) left <= 0 ->
            exists drawn,
              p_hand q = (p_hand p ++ drawn)%list /\
              Z.of_nat (length drawn) = Z.max 0 (Z.min (Z.min n room) left) /\
              (drawn ++ p_drawPile q ++ p_discardPile q)%list
                ≡ₚ (p_drawPile p ++ p_discardPile p)%list /\
              battle_piles q ≡ₚ battle_piles p /\
              p_deck q = p_deck p /\ p_exhaustPile q = p_exhaustPile p /\
              (Z.of_nat (length (p_hand p)) <= MAX_HAND_SIZE ->
               Z.of_nat (length (p_hand q)) <= MAX_HAND_SIZE)).
  { intros q -> Hle. exists []. rewrite app_nil_r. cbn [length app].
    repeat split; try reflexivity; [lia | auto]. }
  destruct (MAX_HAND_SIZE <=? Z.of_nat (length (p_hand p))) eqn:Hfull.
  { apply Z.leb_le in Hfull. apply Hnone; [reflexivity | subst room; lia]. }
  apply Z.leb_gt in Hfull. cbn [jmin jle]. fold room.
  destruct (Z.min n room <=? 0) eqn:Hneed.
  { apply Z.leb_le in Hneed. apply Hnone; [reflexivity | lia]. }
  apply Z.leb_gt in Hneed.
  pose proof (draw_loop_count o (Z.to_nat (Z.min n room)) (p_hand p)
                (p_drawPile p) (p_discardPile p) Hsh) as Hd.
  destruct (draw_loop _ _ _ _ _) as [[h' d'] x'].
  destruct Hd as (drawn & -> & Hlen & Hperm).
  exists drawn. cbn [p_hand p_drawPile p_discardPile p_deck p_exhaustPile
                    set_p_hand set_p_drawPile set_p_discardPile].
  split; [reflexivity |]. split; [subst left; lia |]. split; [exact Hperm |].
  split.
  { unfold battle_piles. cbn. rewrite <- !app_assoc.
    apply Permutation_app_head. rewrite !app_assoc.
    apply Permutation_app_tail. rewrite <- app_assoc. exact Hperm. }
  split; [reflexivity |]. split; [reflexivity |].
  intros _. rewrite length_app. subst room. lia.
Qed.

Lemma X7_witness :
  exists drawn,
    p_hand (drawCards_upd identity_oracle (Num 5) drawing_player) = drawn /\
    length drawn = 4%nat.
Proof.
  destruct (X7_drawCards_count_and_conservation identity_oracle 5 drawing_player)
    as (drawn & Hh & Hlen & _); [intros l; reflexivity |].
  exists drawn. split; [exact Hh |]. apply Nat2Z.inj. exact Hlen.
Defined.

Lemma pop_reverse {A} (l : list A) c rest :
  pop l = Some (c, rest) -> reverse l = c :: reverse rest /\ length l = S (length rest).
Proof.
  intros H. apply pop_spec in H. subst l.
  rewrite reverse_app, length_app. cbn. split; [reflexivity | lia].
Qed.

(** Cards are taken from the end of the draw pile, last card first, as
    long as the draw pile lasts. *)
Lemma draw_loop_top o n h d x :
  (n <= length d)%nat \/ x = [] ->
  draw_loop o n h d x
  = ((h ++ take n (reverse d))%list, take (length d - n) d, x).
Proof.
  revert h d. induction n as [| n IH]; intros h d Hn; cbn [draw_loop].
  - rewrite take_0, app_nil_r, Nat.sub_0_r, firstn_all. reflexivity.
  - destruct d as [| c0 d0].
    + destruct Hn as [Hn | ->]; [cbn in Hn; lia |].
      cbn. rewrite app_nil_r. reflexivity.
    + destruct (pop (c0 :: d0)) as [[c rest] |] eqn:Hpop.
      * pose proof (pop_spec _ _ _ Hpop) as Hl.
        apply pop_reverse in Hpop as [Hrev Hlen].
        rewrite IH by (destruct Hn as [Hn | ->]; [left; lia | right; reflexivity]).
        rewrite Hrev. cbn [take]. rewrite <- app_assoc. cbn [app].
        rewrite Hlen. cbn [Nat.sub]. rewrite Hl.
        rewrite take_app_le by lia. reflexivity.
      * apply pop_none in Hpop. discriminate.
Qed.

Lemma opening_draw o (p : IPlayer) :
  p_hand p = [] -> p_discardPile p = [] ->
  drawCards_upd o (Num INITIAL_HAND_SIZE) p
  = set_p_hand (take 5 (reverse (p_drawPile p)))
      (set_p_drawPile (take (length (p_drawPile p) - 5) (p_drawPile p))
         (set_p_discardPile [] p)).
Proof.
  intros Hh Hx. unfold drawCards_upd. rewrite Hh, Hx.
  change (MAX_HAND_SIZE <=? Z.of_nat (length [])) with false.
  change (jle (jmin (Num INITIAL_HAND_SIZE) (Num (MAX_HAND_SIZE - Z.of_nat (length []))))
              (Num 0)) with false.
  cbv iota.
  change (match jmin (Num INITIAL_HAND_SIZE) (Num (MAX_HAND_SIZE - Z.of_nat (length [])))
          with Num n => Z.to_nat n | NaN => 0%nat end) with 5%nat.
  rewrite draw_loop_top by (right; reflexivity). reflexivity.
Qed.

Lemma take_reverse_perm {A} (l : list A) (k : nat) :
  (take k (reverse l) ++ take (length l - k) l)%list ≡ₚ l.
Proof.
  rewrite take_reverse, reverse_Permutation, Permutation_app_comm.
  rewrite take_drop. reflexivity.
Qed.

(** X8 (startBattle and its start-of-combat timer): without relics,
    starting a battle schedules the opening draw, and that draw deals the
    top five cards of a draw pile that has the innate cards of the shuffled
    deck on top; the cards in play are then exactly the deck, and if the
    deck has at most five innate cards every one of them is in the opening
    hand. *)
Theorem X8_opening_hand :
  forall (o o' : Oracle) (c : GameState) (node : MapNode) (a : App),
    (forall l, shuffle o l ≡ₚ l) ->
    p_relics (player c) = [] ->
    let deck := p_deck (player (state a)) in
    let shuffled := shuffle o deck in
    let innate := filter (fun card => flag (card_innate card) = true) shuffled in
    let others := filter (fun card => flag (card_innate card) = false) shuffled in
    let a1 := startBattle o c node a in
    let s2 := startCombat o' c (state a1) in
    timers a1 = (timers a ++ [TimerStartCombat c])%list /\
    p_hand (player s2) = take 5 (reverse innate ++ reverse others) /\
    battle_piles (player s2) ≡ₚ deck /\
    ((length innate <= 5)%nat ->
     forall card, card ∈ deck -> flag (card_innate card) = true ->
                  card ∈ p_hand (player s2)).
Proof.
  intros o o' c node a Hsh Hrel deck shuffled innate others a1 s2.
  assert (Hp : player s2
               = drawCards_upd o' (Num INITIAL_HAND_SIZE) (player (state a1))).
  { subst s2. unfold startCombat, processRelicTrigger. rewrite Hrel. reflexivity. }
  assert (Hp1 : p_hand (player (state a1)) = [] /\
                p_discardPile (player (state a1)) = [] /\
                p_exhaustPile (player (state a1)) = [] /\
                p_drawPile (player (state a1)) = (others ++ innate)%list /\
                timers a1 = (timers a ++ [TimerStartCombat c])%list).
  { subst a1. unfold startBattle. destruct (node_type node); repeat split. }
  destruct Hp1 as (Hh1 & Hx1 & He1 & Hd1 & Ht1).
  rewrite (opening_draw o' _ Hh1 Hx1) in Hp.
  split; [exact Ht1 |].
  assert (Hhand : p_hand (player s2) = take 5 (reverse innate ++ reverse others)).
  { rewrite Hp. cbn. rewrite Hd1, reverse_app. reflexivity. }
  split; [exact Hhand |]. split.
  - unfold battle_piles. rewrite Hp. cbn. rewrite He1, Hd1, !app_nil_r.
    rewrite take_reverse_perm.
    rewrite Permutation_app_comm. subst innate others.
    rewrite (list_filter_iff (fun card => flag (card_innate card) = false)
                             (fun card => ¬ flag (card_innate card) = true)).
    + rewrite filter_app_complement. apply Hsh.
    + intros card. destruct (flag (card_innate card)); split; congruence.
  - intros Hfew card Hin Hflag. rewrite Hhand.
    rewrite take_app, take_ge by (rewrite length_reverse; exact Hfew).
    apply elem_of_app. left.
    rewrite elem_of_reverse. subst innate. apply list_elem_of_filter.
    split; [exact Hflag |]. subst shuffled. rewrite (Hsh deck). exact Hin.
Qed.

Lemma X8_witness :
  length (p_hand (player
            (startCombat identity_oracle initialState
               (state (startBattle identity_oracle initialState
                         (nodeFor 0 MONSTER) initialApp))))) = 5%nat.
Proof.
  destruct (X8_opening_hand identity_oracle identity_oracle initialState
              (nodeFor 0 MONSTER) initialApp) as (_ & Hhand & _);
    [intros l; reflexivity | reflexivity |].
  rewrite Hhand. vm_compute. reflexivity.
Defined.

(** ** Where a played card goes *)

Lemma drawCards_upd_piles o n p :
  (forall l, shuffle o l ≡ₚ l) ->
  (exists drawn, p_hand (drawCards_upd o n p) = (p_hand p ++ drawn)%list) /\
  battle_piles (drawCards_upd o n p) ≡ₚ battle_piles p /\
  p_deck (drawCards_upd o n p) = p_deck p.
Proof.
  intros Hsh. unfold drawCards_upd.
  assert (Hsame : (exists drawn, p_hand p = (p_hand p ++ drawn)%list) /\
                  battle_piles p ≡ₚ battle_piles p /\ p_deck p = p_deck p).
  { split; [exists []; rewrite app_nil_r; reflexivity |]. split; reflexivity. }
  destruct (MAX_HAND_SIZE <=? _); [exact Hsame |].
  destruct (jle _ _); [exact Hsame |].
  match goal with
  | |- context [draw_loop o ?k ?h ?d ?x] =>
      pose proof (draw_loop_count o k h d x Hsh) as Hd
  end.
  destruct (draw_loop _ _ _ _ _) as [[h' d'] x'].
  destruct Hd as (drawn & -> & _ & Hperm).
  split; [exists drawn; reflexivity |]. split; [| reflexivity].
  unfold battle_piles. cbn. rewrite <- !app_assoc.
  apply Permutation_app_head. rewrite !app_assoc.
  apply Permutation_app_tail. rewrite <- app_assoc. exact Hperm.
Qed.

Lemma piles_from_setPlayer h0 L D (f : IPlayer -> IPlayer) :
  (forall p, (exists drawn, p_hand (f p) = (p_hand p ++ drawn)%list) /\
             battle_piles (f p) ≡ₚ battle_piles p /\ p_deck (f p) = p_deck p) ->
  preserves (piles_from h0 L D) (setPlayer f).
Proof.
  intros Hf s ([drawn Hh] & Hperm & Hdeck).
  destruct (Hf (player s)) as ([drawn' Hh'] & Hperm' & Hdeck').
  unfold piles_from. cbn. split; [| split].
  - exists (drawn ++ drawn')%list. rewrite Hh', Hh, app_assoc. reflexivity.
  - rewrite Hperm'. exact Hperm.
  - rewrite Hdeck'. exact Hdeck.
Qed.

Lemma piles_from_player_only h0 L D : player_only (piles_from h0 L D).
Proof. intros s s' E H. unfold piles_from in *. rewrite <- E. exact H. Qed.

Ltac same_piles :=
  intros ?; split; [exists []; rewrite app_nil_r; reflexivity |]; split; reflexivity.

Ltac piles_leaf Hsh :=
  first
    [ apply piles_from_setPlayer; intros ?; apply drawCards_upd_piles; exact Hsh
    | apply piles_from_setPlayer; same_piles
    | apply player_only_setEnemy, piles_from_player_only
    | apply player_only_addLog, piles_from_player_only
    | apply player_only_setPhase, piles_from_player_only
    | apply player_only_setSelection, piles_from_player_only ].

Lemma processRelicTrigger_piles h0 L D o c trigger ctx :
  (forall l, shuffle o l ≡ₚ l) ->
  preserves (piles_from h0 L D) (processRelicTrigger o c trigger ctx).
Proof.
  intros Hsh.
  unfold processRelicTrigger, relicStep, relicAction, drawCards. cbv zeta.
  pres ltac:(piles_leaf Hsh).
Qed.

Lemma playEffects_piles h0 L D o c card :
  (forall l, shuffle o l ≡ₚ l) ->
  preserves (piles_from h0 L D) (playEffects o c card).
Proof.
  intros Hsh.
  unfold playEffects, playEffect, applyStatusEffect, drawCards. cbv zeta.
  pres ltac:(piles_leaf Hsh).
Qed.

Lemma playDamage_piles h0 L D c card :
  preserves (piles_from h0 L D) (playDamage c card).
Proof.
  unfold playDamage.
  pres ltac:(first [ apply player_only_setEnemy, piles_from_player_only ]).
Qed.

Lemma playBlock_piles h0 L D c card :
  preserves (piles_from h0 L D) (playBlock c card).
Proof.
  unfold playBlock. cbv zeta.
  pres ltac:(first [ apply piles_from_setPlayer; same_piles ]).
Qed.

Lemma delete_app_lt {A} (l k : list A) (i : nat) (x : A) :
  l !! i = Some x ->
  delete i (l ++ k)%list = (delete i l ++ k)%list /\ l ≡ₚ x :: delete i l.
Proof.
  revert i. induction l as [| y l IH]; intros [| i] H; cbn in *; try discriminate.
  - injection H as ->. split; reflexivity.
  - destruct (IH i H) as [E P]. split.
    + f_equal. exact E.
    + rewrite perm_swap. apply Permutation_cons; [reflexivity | exact P].
Qed.

(** The state of [playCard] before its last update. *)
Lemma playCard_split o c card index s :
  phase c = BATTLE_PLAYER_TURN ->
  exists u, playCard o c card index s = setPlayer (leaveHand card index) (u s) /\
    forall h0 L D, (forall l, shuffle o l ≡ₚ l) -> preserves (piles_from h0 L D) u.
Proof.
  intros Hph. unfold playCard. rewrite Hph.
  rewrite bool_decide_eq_true_2 by reflexivity. cbn [negb]. cbv zeta.
  eexists (batch [_; _; _; _; _; _; _]). split.
  - unfold batch. cbn [foldl]. reflexivity.
  - intros h0 L D Hsh.
    apply preserves_batch.
    apply List.Forall_cons; [apply piles_from_setPlayer; same_piles |].
    apply List.Forall_cons; [apply processRelicTrigger_piles, Hsh |].
    apply List.Forall_cons;
      [apply preserves_when; intros _; apply piles_from_setPlayer; same_piles |].
    apply List.Forall_cons; [apply playDamage_piles |].
    apply List.Forall_cons; [apply playBlock_piles |].
    apply List.Forall_cons; [apply playEffects_piles, Hsh |].
    apply List.Forall_cons; [apply player_only_addLog, piles_from_player_only |].
    apply List.Forall_nil.
Qed.

(** X9 (playCard): playing the card at a hand index never changes the
    deck, removes that card from the hand (cards drawn by its effects are
    appended behind the rest), and files it in exactly one place: the
    exhaust pile if it exhausts, nowhere if it is a power (it leaves the
    piles), the discard pile otherwise; all other cards in play are
    conserved. *)
Theorem X9_playCard_moves_one_card :
  forall (o : Oracle) (s : GameState) (card : ICard) (index : nat),
    (forall l, shuffle o l ≡ₚ l) ->
    phase s = BATTLE_PLAYER_TURN ->
    p_hand (player s) !! index = Some card ->
    let s' := playCard o s card index s in
    let p := player s in
    let p' := player s' in
    p_deck p' = p_deck p /\
    (exists drawn, p_hand p' = (delete index (p_hand p) ++ drawn)%list) /\
    (if flag (card_exhaust card)
     then battle_piles p' ≡ₚ battle_piles p /\ card ∈ p_exhaustPile p'
     else if bool_decide (card_type card = POWER)
     then card :: battle_piles p' ≡ₚ battle_piles p
     else battle_piles p' ≡ₚ battle_piles p /\ card ∈ p_discardPile p').
Proof.
  intros o s card index Hsh Hph Hcard s' p p'.
  destruct (playCard_split o s card index s Hph) as (u & Eu & Hu).
  assert (Hs : piles_from (p_hand p) (battle_piles p) (p_deck p) s).
  { split; [exists []; rewrite app_nil_r; reflexivity |]. split; reflexivity. }
  apply (Hu _ _ _ Hsh) in Hs. destruct Hs as ([drawn Hh] & Hperm & Hdeck).
  subst p' s'. rewrite Eu. set (q := player (u s)) in *.
  change (player (setPlayer (leaveHand card index) (u s))) with (leaveHand card index q).
  destruct (delete_app_lt (p_hand p) drawn index card Hcard) as [Edel Pdel].
  assert (Hq : battle_piles q ≡ₚ card :: (delete index (p_hand q) ++ p_drawPile q
                                          ++ p_discardPile q ++ p_exhaustPile q)%list).
  { unfold battle_piles. rewrite Hh at 1. rewrite Hh, Edel.
    rewrite Pdel at 1. rewrite <- !app_assoc. reflexivity. }
  unfold leaveHand.
  destruct (flag (card_exhaust card)); [| destruct (bool_decide (card_type card = POWER))].
  - cbn. split; [exact Hdeck |]. split; [exists drawn; rewrite Hh; exact Edel |].
    split; [| apply elem_of_app; right; constructor].
    rewrite <- Hperm, Hq. unfold battle_piles. cbn.
    rewrite !app_assoc. symmetry. apply Permutation_cons_append.
  - cbn. split; [exact Hdeck |]. split; [exists drawn; rewrite Hh; exact Edel |].
    rewrite <- Hperm, Hq. unfold battle_piles. cbn. reflexivity.
  - cbn. split; [exact Hdeck |]. split; [exists drawn; rewrite Hh; exact Edel |].
    split; [| apply elem_of_app; right; constructor].
    rewrite <- Hperm, Hq. unfold battle_piles. cbn.
    rewrite <- !app_assoc. cbn [app].
    rewrite <- Permutation_middle.
    rewrite (app_assoc (delete index (p_hand q))).
    rewrite (app_assoc _ (p_discardPile q)).
    rewrite <- Permutation_middle. rewrite <- !app_assoc. reflexivity.
Qed.

Lemma X9_witness :
  createStrike "1"
  ∈ p_discardPile (player (playCard identity_oracle c1_state (createStrike "1") 0
                             c1_state)).
Proof.
  destruct (X9_playCard_moves_one_card identity_oracle c1_state (createStrike "1") 0)
    as (_ & _ & Hmove);
    [intros l; reflexivity | reflexivity | reflexivity |].
  apply Hmove.
Defined.

(** ** Fetching, removing and the end of the turn *)

Lemma without_other (card : ICard) (l : list ICard) :
  card_id card ∉ card_id <$> l -> without (card_id card) l = l.
Proof.
  unfold without. induction l as [| c l IH]; intros Hn; [reflexivity |].
  rewrite fmap_cons, not_elem_of_cons in Hn. destruct Hn as [Hne Hn].
  rewrite filter_cons_True.
  - rewrite IH by exact Hn. reflexivity.
  - apply String.eqb_neq. congruence.
Qed.

(** With distinct ids in a pile, filtering on the id of one of its cards
    removes that card and nothing else. *)
Lemma without_unique (card : ICard) (l : list ICard) :
  NoDup (card_id <$> l) -> card ∈ l ->
  l ≡ₚ card :: without (card_id card) l.
Proof.
  induction l as [| c l IH]; intros Hnd Hin; [inversion Hin |].
  rewrite fmap_cons in Hnd. apply NoDup_cons in Hnd as [Hc Hnd].
  apply elem_of_cons in Hin as [-> | Hin].
  - unfold without. rewrite filter_cons_False.
    + fold (without (card_id c) l). rewrite without_other by exact Hc. reflexivity.
    + rewrite String.eqb_refl. discriminate.
  - unfold without. rewrite filter_cons_True.
    + fold (without (card_id card) l). rewrite perm_swap.
      apply Permutation_cons; [reflexivity |]. apply IH; assumption.
    + apply String.eqb_neq. intros E. apply Hc. rewrite E.
      apply list_elem_of_fmap_2. exact Hin.
Qed.

(** X10 (fetch callback): fetching a card from the draw, discard or
    exhaust pile, in which card ids are distinct, appends that card to the
    hand and removes exactly that card from the pile; the cards in play
    and the deck are unchanged. *)
Theorem X10_fetch_moves_the_chosen_card :
  forall (src : PileSource) (card : ICard) (p : IPlayer),
    src <> SrcDeck ->
    card ∈ pile_of src p ->
    NoDup (card_id <$> pile_of src p) ->
    let p' := fetchToHand src card p in
    p_hand p' = (p_hand p ++ [card])%list /\
    pile_of src p ≡ₚ card :: pile_of src p' /\
    battle_piles p' ≡ₚ battle_piles p /\
    p_deck p' = p_deck p.
Proof.
  intros src card p Hsrc Hin Hnd p'. subst p'.
  pose proof (without_unique card _ Hnd Hin) as Hperm.
  unfold fetchToHand, battle_piles.
  destruct src; [| | | contradiction]; cbn in *;
    (split; [reflexivity |]); (split; [exact Hperm |]);
    (split; [| reflexivity]).
  - rewrite Hperm at 2. rewrite <- !app_assoc. cbn [app].
    apply Permutation_app_head. reflexivity.
  - rewrite Hperm at 2. rewrite <- !app_assoc. cbn [app].
    apply Permutation_app_head. apply Permutation_middle.
  - rewrite Hperm at 2. rewrite <- !app_assoc. cbn [app].
    apply Permutation_app_head.
    rewrite !(app_assoc (p_drawPile p)). apply Permutation_middle.
Qed.

Lemma X10_witness :
  p_hand (fetchToHand SrcDiscard shop_strike drawing_player) = [shop_strike].
Proof.
  destruct (X10_fetch_moves_the_chosen_card SrcDiscard shop_strike drawing_player)
    as (Hh & _).
  - discriminate.
  - apply list_elem_of_singleton. reflexivity.
  - apply NoDup_singleton.
  - exact Hh.
Defined.

(** X11 (rest site, remove a card): choosing a card of the deck closes
    the selection, returns to the map and removes from the deck every card
    with the chosen card's id, so the chosen card is gone; when the ids in
    the deck are distinct exactly one card is removed. *)
Theorem X11_rest_site_removal :
  forall (card : ICard) (s : GameState),
    card ∈ p_deck (player s) ->
    let s' := onSelect RemoveFromDeck card s in
    phase s' = MAP_SELECTION /\ selection s' = None /\
    p_deck (player s') = without (card_id card) (p_deck (player s)) /\
    (card ∉ p_deck (player s')) /\
    (NoDup (card_id <$> p_deck (player s)) ->
     p_deck (player s) ≡ₚ card :: p_deck (player s') /\
     length (p_deck (player s)) = S (length (p_deck (player s')))).
Proof.
  intros card s Hin s'. subst s'. cbn.
  split; [reflexivity |]. split; [reflexivity |]. split; [reflexivity |].
  split.
  - unfold without. intros H. apply list_elem_of_filter in H as [H _].
    rewrite String.eqb_refl in H. discriminate.
  - intros Hnd. pose proof (without_unique card _ Hnd Hin) as Hperm.
    split; [exact Hperm |]. rewrite Hperm at 1. reflexivity.
Qed.

Lemma X11_witness :
  length (p_deck (player (onSelect RemoveFromDeck (createBash "1") initialState)))
  = 8%nat.
Proof.
  destruct (X11_rest_site_removal (createBash "1") initialState) as (_ & _ & Hdeck & _).
  - apply (bool_decide_unpack _). vm_compute. exact I.
  - rewrite Hdeck. vm_compute. reflexivity.
Defined.

Lemma dot_step (h : Z) (x : option JsNum) :
  (if jgt (num_or x (Num 0)) (Num 0) then jsub (Num h) (num_or x (Num 0)) else Num h)
  = Num (h - match x with Some (Num n) => Z.max 0 n | _ => 0 end).
Proof.
  destruct x as [[| n] |]; cbn; try (f_equal; lia).
  unfold num_or, truthy. destruct (n =? 0) eqn:Hz.
  - apply Z.eqb_eq in Hz as ->. cbn. f_equal; lia.
  - cbn. destruct (0 <? n) eqn:Hp;
      [apply Z.ltb_lt in Hp | apply Z.ltb_ge in Hp]; cbn; f_equal; lia.
Qed.

(** X12 (endTurn): ending the turn moves to the enemy's turn; the hand is
    not discarded: only ethereal cards leave it, to the exhaust pile, and
    every other card stays in hand whether or not it is marked retain; the
    enemy loses its poison and burn stacks in HP (floored at 0) past its
    block; and the enemy's action is scheduled unless the enemy had no HP
    left when the turn was ended. *)
Theorem X12_end_of_turn :
  forall (a : App) (hp : Z),
    let s := state a in
    e_currentHp (enemy s) = Num hp ->
    let a' := endTurn s a in
    let p := player s in
    let p' := player (state a') in
    let dot z := match z with Some (Num n) => Z.max 0 n | _ => 0 end in
    phase (state a') = BATTLE_ENEMY_TURN /\
    p_hand p' = filter (fun card => flag (card_ethereal card) = false) (p_hand p) /\
    p_exhaustPile p' =
      (p_exhaustPile p
       ++ filter (fun card => flag (card_ethereal card) = true) (p_hand p))%list /\
    p_drawPile p' = p_drawPile p /\ p_discardPile p' = p_discardPile p /\
    battle_piles p' ≡ₚ battle_piles p /\
    e_currentHp (enemy (state a')) =
      Num (Z.max 0 (hp - dot (e_statuses (enemy s) !! "poison")
                       - dot (e_statuses (enemy s) !! "burn"))) /\
    e_block (enemy (state a')) = e_block (enemy s) /\
    timers a' = (timers a ++ if hp <=? 0 then [] else [TimerEnemyActs s])%list.
Proof.
  intros a hp s Ehp a' p p' dot. subst a' p'. unfold endTurn. fold s. rewrite Ehp.
  cbn [jle].
  assert (Hst : state (update (fun s0 => endTurnUpdates s0 s0) a)
                = endTurnUpdates s s) by reflexivity.
  assert (Hti : timers (update (fun s0 => endTurnUpdates s0 s0) a) = timers a)
    by reflexivity.
  assert (Hsnap : snapshot BATTLE_ENEMY_TURN (etherealFade p) (dotDamage (enemy s))
                    (endTurnUpdates s s)).
  { unfold endTurnUpdates, batch. cbn [foldl].
    set (s1 := forEach _ _ _).
    assert (H1 : snapshot BATTLE_ENEMY_TURN p (enemy s) s1).
    { subst s1.
      assert (Hp : preserves (snapshot BATTLE_ENEMY_TURN p (enemy s))
                     (forEach (filter (fun card => flag (card_ethereal card) = true)
                                      (p_hand (player s)))
                              (fun card => addLog (card_name card ++ " faded away."))))
        by (pres ltac:(let x := fresh "st" in let H := fresh "Hst" in intros x H; exact H)).
      apply Hp. repeat split. }
    set (s2 := dotLogs _ _).
    assert (H2 : snapshot BATTLE_ENEMY_TURN (etherealFade p) (enemy s) s2).
    { subst s2.
      assert (Hp : preserves (snapshot BATTLE_ENEMY_TURN (etherealFade p) (enemy s))
                     (dotLogs (enemy s)))
        by (unfold dotLogs; cbv zeta; pres ltac:(let x := fresh "st" in let H := fresh "Hst" in intros x H; exact H)).
      apply Hp. destruct H1 as (Hph & Hpl & Hen).
      split; [exact Hph |]. split; [cbn; rewrite Hpl; reflexivity | exact Hen]. }
    destruct H2 as (Hph & Hpl & Hen).
    split; [exact Hph |]. split; [exact Hpl |].
    unfold setEnemy. cbn [enemy set_enemy]. rewrite Hen. reflexivity. }
  destruct Hsnap as (Hph & Hpl & Hen).
  assert (Hgoal :
    phase (endTurnUpdates s s) = BATTLE_ENEMY_TURN /\
    p_hand (player (endTurnUpdates s s))
      = filter (fun card => flag (card_ethereal card) = false) (p_hand p) /\
    p_exhaustPile (player (endTurnUpdates s s)) =
      (p_exhaustPile p
       ++ filter (fun card => flag (card_ethereal card) = true) (p_hand p))%list /\
    p_drawPile (player (endTurnUpdates s s)) = p_drawPile p /\
    p_discardPile (player (endTurnUpdates s s)) = p_discardPile p /\
    battle_piles (player (endTurnUpdates s s)) ≡ₚ battle_piles p /\
    e_currentHp (enemy (endTurnUpdates s s)) =
      Num (Z.max 0 (hp - dot (e_statuses (enemy s) !! "poison")
                       - dot (e_statuses (enemy s) !! "burn"))) /\
    e_block (enemy (endTurnUpdates s s)) = e_block (enemy s)).
  { assert (Hhp : e_currentHp (dotDamage (enemy s))
                  = Num (Z.max 0 (hp - dot (e_statuses (enemy s) !! "poison")
                                    - dot (e_statuses (enemy s) !! "burn")))).
    { unfold dotDamage. cbv zeta. cbn [e_currentHp set_e_currentHp]. rewrite Ehp.
      rewrite dot_step, dot_step. reflexivity. }
    assert (Hblk : e_block (dotDamage (enemy s)) = e_block (enemy s)) by reflexivity.
    rewrite Hph, Hpl, Hen, Hhp, Hblk. clear Hhp Hblk.
    unfold etherealFade, battle_piles. cbn.
    repeat (split; [reflexivity |]). split; [| split; [| reflexivity]].
    - set (N := filter (fun card => flag (card_ethereal card) = false) (p_hand p)).
      set (E := filter (fun card => flag (card_ethereal card) = true) (p_hand p)).
      transitivity ((N ++ E) ++ p_drawPile p ++ p_discardPile p ++ p_exhaustPile p)%list.
      + rewrite <- !app_assoc. apply Permutation_app_head.
        rewrite (Permutation_app_comm E). rewrite <- !app_assoc. reflexivity.
      + apply Permutation_app_tail. subst N E.
        rewrite Permutation_app_comm.
        rewrite (list_filter_iff (fun card => flag (card_ethereal card) = false)
                                 (fun card => ¬ flag (card_ethereal card) = true)).
        * apply filter_app_complement.
        * intros card. destruct (flag (card_ethereal card)); split; congruence.
    - reflexivity. }
  destruct Hgoal as (G1 & G2 & G3 & G4 & G5 & G6 & G7 & G8).
  destruct (hp <=? 0); cbn [state timers setTimeout update]; fold s;
    rewrite ?app_nil_r; repeat (split; [assumption |]); reflexivity.
Qed.

Lemma X12_witness :
  phase (state (endTurn c1_state {| state := c1_state; timers := [] |}))
  = BATTLE_ENEMY_TURN /\
  timers (endTurn c1_state {| state := c1_state; timers := [] |})
  = [TimerEnemyActs c1_state].
Proof.
  destruct (X12_end_of_turn {| state := c1_state; timers := [] |} 20 eq_refl)
    as (Hph & _ & _ & _ & _ & _ & _ & _ & Hti).
  split; [exact Hph | exact Hti].
Defined.

(** ** The sanitizers and the decoders that read their output *)

Lemma no_char_trimStart sep s : no_char sep s = true -> no_char sep (trimStart s) = true.
Proof.
  induction s as [| c s IH]; [reflexivity |]. intros H. cbn [trimStart].
  destruct (is_ws c); [| exact H].
  apply IH. cbn in H. apply andb_true_iff in H as [_ H]. exact H.
Qed.

Lemma no_char_trimEnd sep s : no_char sep s = true -> no_char sep (trimEnd s) = true.
Proof.
  induction s as [| c s IH]; [reflexivity |]. intros H.
  cbn in H. apply andb_true_iff in H as [Hc Hs]. cbn [trimEnd].
  destruct (is_ws c && is_empty (trimEnd s))%bool; [reflexivity |].
  cbn. rewrite Hc, (IH Hs). reflexivity.
Qed.

Lemma split_parts_no_sep sep s :
  Forall (fun p => no_char sep p = true) (split sep s).
Proof.
  induction s as [| c s IH]; [repeat constructor |].
  rewrite split_cons. destruct (Ascii.eqb c sep) eqn:Hc.
  - constructor; [reflexivity | exact IH].
  - destruct (split sep s) as [| p ps]; [repeat constructor; cbn; rewrite Hc; reflexivity |].
    inversion IH as [| ? ? Hp Hps]; subst. constructor; [| exact Hps].
    cbn. rewrite Hc, Hp. reflexivity.
Qed.

Lemma split_parts_clean s :
  Forall (fun p => no_char "_" p = true) (split_parts s).
Proof.
  unfold split_parts. apply Forall_forall. intros p Hp.
  apply list_elem_of_filter in Hp as [_ Hp].
  apply list_elem_of_fmap in Hp as (q & -> & Hq).
  pose proof (split_parts_no_sep "_" s) as Hall.
  rewrite Forall_forall in Hall. specialize (Hall q Hq).
  unfold trim. apply no_char_trimEnd, no_char_trimStart, Hall.
Qed.

(** What the relic sanitizer returns, with the trigger, action and amount
    it was built from. *)
Lemma sanitizeRelicEffectType_shape raw tok :
  sanitizeRelicEffectType (VString raw) = Some tok ->
  (exists a, (a, tok) ∈ MAX_HP_RELIC_TOKENS) \/
  (exists t act a, (t, act, a, tok) ∈ TRIGGERED_RELIC_TOKENS).
Proof.
  cbn [sanitizeRelicEffectType].
  destruct (is_empty (trim raw)); [discriminate |].
  cbv zeta.
  pose proof (split_parts_clean (toLowerCase raw)) as Hclean.
  destruct (split_parts (toLowerCase raw)) as [| p0 rest] eqn:Hparts; [discriminate |].
  set (parts := p0 :: rest) in *.
  set (two := match parts !! 1%nat with
              | Some p1 => Some (p0 ++ "_" ++ p1)
              | None => None
              end).
  assert (Htrig : forall trigger index,
            (if has ALLOWED_RELIC_TRIGGERS two then (default "" two, 2%nat)
             else if mem p0 ALLOWED_RELIC_TRIGGERS then (p0, 1%nat)
             else ("start_combat", 0%nat)) = (trigger, index) ->
            trigger ∈ ALLOWED_RELIC_TRIGGERS).
  { intros trigger index.
    destruct (has ALLOWED_RELIC_TRIGGERS two) eqn:H2.
    - apply has_elem_of in H2 as (t & -> & Hin). intros [= <- _]. exact Hin.
    - destruct (mem p0 ALLOWED_RELIC_TRIGGERS) eqn:H1; intros [= <- _].
      + apply mem_elem_of, H1.
      + unfold ALLOWED_RELIC_TRIGGERS. constructor. }
  destruct (if has ALLOWED_RELIC_TRIGGERS two then _ else _) as [trigger index] eqn:Hti.
  specialize (Htrig trigger index eq_refl).
  destruct (parts !! index) as [action |] eqn:Hact; [| discriminate].
  destruct (String.eqb action "apply") eqn:Happly.
  { destruct (has ALLOWED_RELIC_APPLY (parts !! (index + 1)%nat)) eqn:Hs; [| discriminate].
    apply has_elem_of in Hs as (st & Hs & Hin). rewrite Hs. cbn [negb from_option id].
    intros [= <-]. right. eexists trigger, st, _.
    unfold TRIGGERED_RELIC_TOKENS. apply elem_of_app. left.
    apply list_elem_of_bind. exists trigger. split; [| exact Htrig].
    apply list_elem_of_bind. exists st. split; [| exact Hin].
    apply list_elem_of_bind. eexists.
    split; [apply list_elem_of_singleton; reflexivity |].
    apply (clampNumber_seqZ _ 1 50 1). lia. }
  destruct (String.eqb action "max" && _)%bool.
  { intros [= <-]. left. eexists. unfold MAX_HP_RELIC_TOKENS.
    apply list_elem_of_bind. eexists.
    split; [apply list_elem_of_singleton; reflexivity |].
    apply (clampNumber_seqZ _ 1 50 5). lia. }
  destruct (mem action ALLOWED_RELIC_ACTIONS) eqn:Ha; [| discriminate].
  cbn [negb]. intros [= <-]. right. eexists trigger, action, _.
  unfold TRIGGERED_RELIC_TOKENS. apply elem_of_app. right.
  apply list_elem_of_bind. exists trigger. split; [| exact Htrig].
  apply list_elem_of_bind. exists action. split.
  - apply list_elem_of_bind. eexists.
    split; [apply list_elem_of_singleton; reflexivity |].
    apply (clampNumber_seqZ _ 1 50 1). lia.
  - assert (Hns : no_char "_" action = true).
    { rewrite Forall_forall in Hclean. apply Hclean.
      eapply list_elem_of_lookup_2. exact Hact. }
    apply mem_elem_of in Ha. unfold ALLOWED_RELIC_ACTIONS in Ha.
    unfold RELIC_PLAIN_ACTIONS.
    repeat (apply elem_of_cons in Ha as [-> | Ha]; [try (repeat constructor; fail) |]).
    + discriminate Hns.
    + discriminate Happly.
    + inversion Ha.
Qed.

Lemma decodes_to_eq d t act a :
  decodes_to d t act a = true ->
  d = {| rTrigger := t; rAction := Some act; rAmount := Num a |}.
Proof.
  unfold decodes_to. rewrite !andb_true_iff. intros [[Ht Hact] Ha].
  destruct d as [dt [da |] [| z]]; cbn in *; try discriminate.
  apply String.eqb_eq in Ht, Hact. apply Z.eqb_eq in Ha. subst. reflexivity.
Qed.

Lemma triggered_tokens_checked :
  forallb (fun '(t, act, a, tok) =>
             same_token (sanitizeRelicEffectType (VString tok)) tok
             && decodes_to (decodeRelic "start_combat" tok) t act a
             && decodes_to (decodeRelic "" tok) t act a
             && negb (includes tok "max_hp")
             && (mem act RELIC_PLAIN_ACTIONS || mem act ALLOWED_RELIC_APPLY)
             && mem t ALLOWED_RELIC_TRIGGERS
             && (1 <=? a) && (a <=? 50))%bool
          TRIGGERED_RELIC_TOKENS = true.
Proof. vm_compute. reflexivity. Qed.

Lemma max_hp_tokens_checked :
  forallb (fun '(a, tok) =>
             same_token (sanitizeRelicEffectType (VString tok)) tok
             && includes tok "max_hp"
             && match parseInt (str_or (last (split "_" tok)) "0") with
                | Num z => z =? a | NaN => false end
             && negb (relic_acts (rAction (decodeRelic "start_combat" tok)))
             && negb (relic_acts (rAction (decodeRelic "" tok)))
             && (1 <=? a) && (a <=? 50))%bool
          MAX_HP_RELIC_TOKENS = true.
Proof. vm_compute. reflexivity. Qed.

Lemma relicAction_inert o relic d s :
  relic_acts (rAction d) = false -> relicAction o relic d s = s.
Proof.
  unfold relic_acts, relicAction. cbv zeta.
  rewrite !orb_false_iff. intros [[[[[[H1 H2] H3] H4] H5] H6] H7].
  rewrite H1, H2, H3, H4, H5, H6, H7. reflexivity.
Qed.



Lemma no_char_map sep f s :
  (forall c, Ascii.eqb (f c) sep = true -> Ascii.eqb c sep = true) ->
  no_char sep s = true -> no_char sep (map_string f s) = true.
Proof.
  intros Hf. induction s as [| c s IH]; [reflexivity |]. cbn.
  rewrite !andb_true_iff, !negb_true_iff. intros [Hc Hs]. split; [| apply IH, Hs].
  destruct (Ascii.eqb (f c) sep) eqn:E; [| reflexivity].
  apply Hf in E. congruence.
Qed.

Lemma sanitizeEffectToken_tight raw t :
  sanitizeEffectToken raw = Some t -> t ∈ CARD_TOKENS.
Proof.
  unfold sanitizeEffectToken. cbv zeta.
  destruct (is_empty _); [discriminate |].
  pose proof (split_parts_clean (toLowerCase (trim raw))) as Hclean.
  destruct (split_parts _) as [| head rest] eqn:Hparts; [discriminate |].
  inversion Hclean as [| ? ? Hhead _]; subst. clear Hclean.
  set (parts := head :: rest).
  unfold CARD_TOKENS.
  destruct (String.eqb head "fetch" || String.eqb head "recover")%bool eqn:Hfetch.
  { apply eqb_or_elem in Hfetch.
    destruct (has ALLOWED_FETCH_SOURCES (parts !! 1%nat)) eqn:Hsrc; [| discriminate].
    apply has_elem_of in Hsrc as (src & Hsrc & Hin). rewrite Hsrc. cbn [negb from_option id].
    intros Ht. apply elem_of_app. left. unfold FETCH_TOKENS.
    apply list_elem_of_bind. exists head. split; [| exact Hfetch].
    apply list_elem_of_bind. exists src. split; [| exact Hin].
    destruct (mem _ ALLOWED_FETCH_FILTERS) eqn:Hf; injection Ht as <-.
    - apply elem_of_cons. right.
      apply list_elem_of_bind. eexists.
      split; [apply list_elem_of_singleton; reflexivity |].
      apply mem_elem_of, Hf.
    - apply elem_of_cons. left. reflexivity. }
  destruct (mem head ALLOWED_ENEMY_STATUS || mem head ALLOWED_PLAYER_STATUS)%bool eqn:Hst.
  { intros [= <-]. apply elem_of_app. right. apply elem_of_app. left.
    apply with_amounts_intro.
    - apply elem_of_app. apply orb_true_iff in Hst as [H | H]; [left | right];
        apply mem_elem_of, H.
    - apply (clampNumber_seqZ _ 1 50 1). lia. }
  destruct (String.eqb head "draw" || String.eqb head "energy"
            || String.eqb head "heal" || String.eqb head "lifesteal")%bool eqn:Hd.
  { intros [= <-]. do 2 (apply elem_of_app; right). apply elem_of_app. left.
    apply with_amounts_intro.
    - repeat (apply orb_true_iff in Hd as [Hd | Hd]);
        apply String.eqb_eq in Hd as ->; repeat constructor.
    - apply (clampNumber_seqZ _ 0 50 0). lia. }
  destruct (String.eqb head "self" && bool_decide (parts !! 1%nat = Some "damage"))%bool.
  { intros [= <-]. do 3 (apply elem_of_app; right). apply elem_of_app. left.
    apply (with_amounts_intro ["self_damage"] 0 31 "self_damage").
    - constructor.
    - apply (clampNumber_seqZ _ 0 30 0). lia. }
  destruct (String.eqb head "recurring" || String.eqb head "turn_start"
            || String.eqb head "start_turn")%bool eqn:Hr; [| discriminate].
  destruct (has ALLOWED_RECURRING_ACTIONS (parts !! 1%nat)) eqn:Ha; [| discriminate].
  apply has_elem_of in Ha as (action & Ha & Hin). rewrite Ha. cbn [negb from_option id].
  intros [= <-]. do 4 (apply elem_of_app; right).
  assert (Ehead : head = "recurring").
  { repeat (apply orb_true_iff in Hr as [Hr | Hr]);
      apply String.eqb_eq in Hr as ->; [reflexivity | discriminate Hhead ..]. }
  subst head.
  apply list_elem_of_bind. exists action. split; [| exact Hin].
  apply list_elem_of_bind. eexists.
  split; [apply list_elem_of_singleton; reflexivity |].
  apply (clampNumber_seqZ _ 1 50 1). lia.
Qed.

Lemma card_tokens_checked :
  forallb (fun t => same_token (sanitizeEffectToken t) t && no_char "," t
                    && negb (is_empty t))%bool CARD_TOKENS = true.
Proof. vm_compute. reflexivity. Qed.



(** ** Hit points, block, energy and gold stay in range *)

Lemma player_vitals_spec p :
  player_vitals p = true <->
  exists h m b e me g,
    p_currentHp p = Num h /\ p_maxHp p = Num m /\ p_block p = Num b /\
    p_energy p = Num e /\ p_maxEnergy p = Num me /\ p_gold p = Num g /\
    0 <= h <= m /\ 1 <= m /\ 0 <= b /\ 0 <= e /\ 0 <= me /\ 0 <= g.
Proof.
  unfold player_vitals, hp_ok, amount_ok. split.
  - destruct (p_currentHp p) as [| h], (p_maxHp p) as [| m], (p_block p) as [| b],
             (p_energy p) as [| e], (p_maxEnergy p) as [| me], (p_gold p) as [| g];
      cbn; rewrite ?andb_false_r; try discriminate.
    rewrite !andb_true_iff, !Z.leb_le. intros H.
    exists h, m, b, e, me, g. repeat split; try reflexivity; lia.
  - intros (h & m & b & e & me & g & -> & -> & -> & -> & -> & -> & H).
    rewrite !andb_true_iff, !Z.leb_le. lia.
Qed.

Lemma enemy_vitals_spec e :
  enemy_vitals e = true <->
  exists h b d,
    e_currentHp e = Num h /\ e_block e = Num b /\ e_nextMoveDamage e = Num d /\
    0 <= h /\ 0 <= b /\ 0 <= d.
Proof.
  unfold enemy_vitals, amount_ok. split.
  - destruct (e_currentHp e) as [| h], (e_block e) as [| b],
             (e_nextMoveDamage e) as [| d]; cbn; rewrite ?andb_false_r; try discriminate.
    rewrite !andb_true_iff, !Z.leb_le. intros H.
    exists h, b, d. repeat split; try reflexivity; lia.
  - intros (h & b & d & -> & -> & -> & H).
    rewrite !andb_true_iff, !Z.leb_le. lia.
Qed.

Lemma vitals_setPlayer (f : IPlayer -> IPlayer) :
  (forall p, player_vitals p = true -> player_vitals (f p) = true) ->
  preserves vitals (setPlayer f).
Proof. intros Hf s (Hp & He & Hl). split; [apply Hf, Hp | split; assumption]. Qed.

Lemma vitals_setEnemy (f : IEnemy -> IEnemy) :
  (forall e, enemy_vitals e = true -> enemy_vitals (f e) = true) ->
  preserves vitals (setEnemy f).
Proof. intros Hf s (Hp & He & Hl). split; [exact Hp | split; [apply Hf, He | exact Hl]]. Qed.

Lemma drawCards_upd_vitals o n p :
  player_vitals (drawCards_upd o n p) = player_vitals p.
Proof.
  unfold drawCards_upd.
  destruct (MAX_HAND_SIZE <=? _); [reflexivity |].
  destruct (jle _ _); [reflexivity |].
  destruct (draw_loop _ _ _ _ _) as [[h d] x]. reflexivity.
Qed.

Lemma vitals_drawCards o n : preserves vitals (drawCards o n).
Proof.
  apply vitals_setPlayer. intros p Hp. rewrite drawCards_upd_vitals. exact Hp.
Qed.

(** Updates that write none of the vital fields. *)
Ltac vitals_leaf :=
  first
    [ apply vitals_drawCards
    | apply vitals_setPlayer; (let H := fresh in intros ? H; exact H)
    | apply vitals_setEnemy; (let H := fresh in intros ? H; exact H)
    | solve [ let H := fresh in intros ? H; exact H ] ].

(** The arithmetic of an updater of the player, of the enemy. *)
Ltac player_arith :=
  let p := fresh "p" in
  let H := fresh "Hp" in
  intros p H;
  apply player_vitals_spec in H;
  destruct H as (?h & ?m & ?b & ?e & ?me & ?g & ?E & ?E & ?E & ?E & ?E & ?E & ?H);
  apply player_vitals_spec; cbn;
  repeat match goal with E : _ = Num _ |- _ => rewrite E; clear E end;
  cbn; do 6 eexists; repeat (split; [reflexivity |]); lia.

Ltac enemy_arith :=
  let e := fresh "e" in
  let H := fresh "He" in
  intros e H;
  apply enemy_vitals_spec in H;
  destruct H as (?h & ?b & ?d & ?E & ?E & ?E & ?H);
  apply enemy_vitals_spec; cbn;
  repeat match goal with E : _ = Num _ |- _ => rewrite E; clear E end;
  cbn; do 3 eexists; repeat (split; [reflexivity |]); lia.

Lemma relicAction_vitals o relic d :
  decode_safe d = true -> preserves vitals (relicAction o relic d).
Proof.
  intros Hd. unfold relicAction, decode_safe in *. cbv zeta.
  pres ltac:(first
    [ vitals_leaf
    | repeat match goal with
             | H : is_str _ _ = _ |- _ => rewrite H in Hd
             end;
      cbn [orb] in Hd; rewrite ?orb_true_r in Hd;
      apply amount_ok_Num in Hd as (a & Ea & Ha); rewrite Ea;
      first [ apply vitals_setPlayer; player_arith
            | apply vitals_setEnemy; enemy_arith ] ]).
Qed.

Lemma relic_safe_decode relic trigger :
  relic_safe relic = true ->
  decode_safe (decodeRelic trigger (relic_effectType relic)) = true.
Proof.
  unfold relic_safe. rewrite !andb_true_iff. intros [[[_ H1] H2] _].
  rewrite decodeRelic_trigger. destruct (String.eqb trigger "start_combat"); assumption.
Qed.

Lemma relic_safe_ok relic : relic_safe relic = true -> relic_ok relic = true.
Proof. unfold relic_safe. rewrite !andb_true_iff. tauto. Qed.

Lemma card_safe_ok card : card_safe card = true -> card_ok card = true.
Proof. unfold card_safe. rewrite !andb_true_iff. tauto. Qed.

Lemma processRelicTrigger_vitals o c trigger ctx :
  Forall (fun r => relic_safe r = true) (p_relics (player c)) ->
  preserves vitals (processRelicTrigger o c trigger ctx).
Proof.
  intros Hc. unfold processRelicTrigger. apply preserves_forEach.
  intros relic Hin. rewrite Forall_forall in Hc. specialize (Hc relic Hin).
  unfold relicStep. cbv zeta.
  pres ltac:(apply relicAction_vitals, relic_safe_decode, Hc).
Qed.

Lemma jgt0_Num n : jgt n (Num 0) = true -> exists z, n = Num z /\ 0 < z.
Proof.
  destruct n as [| z]; cbn; [discriminate |].
  rewrite Z.ltb_lt. intros H. exists z. split; [reflexivity | exact H].
Qed.

Lemma triggerPlayerPowers_vitals o c : preserves vitals (triggerPlayerPowers o c).
Proof.
  unfold triggerPlayerPowers. cbv zeta.
  pres ltac:(first
    [ vitals_leaf
    | match goal with
      | H : jgt _ (Num 0) = true |- _ =>
          apply jgt0_Num in H as (?a & Ea & ?Ha); rewrite Ea
      end;
      first [ apply vitals_setPlayer; player_arith
            | apply vitals_setEnemy; enemy_arith ] ]).
Qed.

Lemma applyStatusEffect_vitals c target eff :
  preserves vitals (applyStatusEffect c target eff).
Proof. unfold applyStatusEffect. cbv zeta. pres vitals_leaf. Qed.

(** The damage of a hit is a number: the strength it adds comes through
    [|| 0]. *)
Lemma num_or_Num (x : option JsNum) (z : Z) : exists y, num_or x (Num z) = Num y.
Proof.
  unfold num_or. destruct x as [[| v] |]; cbn; eauto.
  destruct (negb (v =? 0)); eauto.
Qed.

Lemma hitDamage_Num c card : exists d, hitDamage c card = Num d.
Proof.
  unfold hitDamage, getPlayerStats. cbn [fst].
  destruct (num_or_Num (p_statuses (player c) !! "strength") 0) as [y ->].
  cbn [jadd]. destruct (opt_gt0 _), (opt_gt0 _); cbn; eauto.
Qed.

Lemma hit_vitals d e : enemy_vitals e = true -> enemy_vitals (hit (Num d) e) = true.
Proof.
  revert e. unfold hit.
  intros e He. apply enemy_vitals_spec in He.
  destruct He as (h & b & nd & Eh & Eb & Ed & H).
  apply enemy_vitals_spec. rewrite Eb, Eh. cbn [jge jle jsub jmax].
  destruct (d <=? b) eqn:Hc; [apply Z.leb_le in Hc | apply Z.leb_gt in Hc];
    cbn; rewrite Ed; do 3 eexists; repeat (split; [reflexivity |]); lia.
Qed.

Lemma playDamage_vitals c card : preserves vitals (playDamage c card).
Proof.
  unfold playDamage. destruct (hitDamage_Num c card) as [d ->].
  pres ltac:(apply vitals_setEnemy; intros e He; apply hit_vitals; exact He).
Qed.

Lemma floor_x0_75_ok a : amount_ok a = true -> amount_ok (floor_x0_75 a) = true.
Proof.
  rewrite !amount_ok_Num. intros (z & -> & Hz). eexists. split; [reflexivity |].
  apply Z.div_pos; lia.
Qed.

Lemma floor_x1_5_ok a : amount_ok a = true -> amount_ok (floor_x1_5 a) = true.
Proof.
  rewrite !amount_ok_Num. intros (z & -> & Hz). eexists. split; [reflexivity |].
  apply Z.div_pos; lia.
Qed.

Lemma playBlock_vitals c card :
  status_inv c -> preserves vitals (playBlock c card).
Proof.
  intros [Hst _]. unfold playBlock, getPlayerStats. cbn [snd]. cbv zeta.
  destruct (card_block card) as [b |]; [| apply preserves_id].
  apply preserves_when. intros Hb. apply Z.ltb_lt in Hb.
  assert (Hblk : amount_ok (jadd (Num b) (num_or (p_statuses (player c) !! "dexterity") (Num 0)))
                 = true).
  { apply jadd_ok; [cbn; apply Z.leb_le; lia | apply (num_or_ok None), Hst]. }
  set (blk := if jgt _ _ then _ else _).
  assert (Hok : amount_ok blk = true)
    by (subst blk; destruct (jgt _ _); [apply floor_x0_75_ok |]; exact Hblk).
  clearbody blk. apply amount_ok_Num in Hok as (a & -> & Ha).
  apply vitals_setPlayer. player_arith.
Qed.

Lemma playEffect_vitals o c eff :
  token_safe eff = true -> preserves vitals (playEffect o c eff).
Proof.
  intros Htok. unfold token_safe in Htok. unfold playEffect. cbv zeta in *.
  pres ltac:(first
    [ vitals_leaf
    | apply applyStatusEffect_vitals
    | apply amount_ok_Num in Htok as (a & Ea & Ha); rewrite Ea;
      apply vitals_setPlayer; player_arith ]).
Qed.

Lemma playEffects_vitals o c card :
  card_safe card = true -> preserves vitals (playEffects o c card).
Proof.
  unfold card_safe, effect_safe, playEffects. rewrite andb_true_iff. intros [_ Hall].
  destruct (card_specialEffect card) as [se |]; [| apply preserves_id].
  destruct (is_empty se); [apply preserves_id |].
  apply preserves_forEach. intros eff Hin. apply playEffect_vitals.
  rewrite forallb_forall in Hall. apply Hall. apply list_elem_of_In. exact Hin.
Qed.

Lemma leaveHand_vitals card index p :
  player_vitals (leaveHand card index p) = player_vitals p.
Proof.
  unfold leaveHand. destruct (flag _); [reflexivity |].
  destruct (bool_decide _); reflexivity.
Qed.

(** [playCard] after the energy has been paid. *)
Lemma playCard_vitals o c card index s :
  status_inv c -> Forall (fun r => relic_safe r = true) (p_relics (player c)) ->
  card_safe card = true ->
  jge (p_energy (player s)) (Num (card_cost card)) = true ->
  vitals s -> vitals (playCard o c card index s).
Proof.
  intros Hst Hrel Hcard Hen Hs. unfold playCard.
  destruct (negb _); [exact Hs |]. cbv zeta.
  unfold batch. cbn [foldl].
  set (s1 := setPlayer _ s).
  assert (H1 : vitals s1).
  { subst s1. destruct Hs as (Hp & He & Hl). split; [| split; assumption].
    cbn. apply player_vitals_spec in Hp.
    destruct Hp as (h & m & b & e & me & g & E1 & E2 & E3 & E4 & E5 & E6 & H).
    rewrite E4 in Hen. cbn in Hen. apply Z.leb_le in Hen.
    apply player_vitals_spec. cbn. rewrite E1, E2, E3, E4, E5, E6. cbn.
    do 6 eexists. repeat (split; [reflexivity |]). lia. }
  clearbody s1.
  assert (Hrest : forall (us : list Upd) s0,
            Forall (preserves vitals) us -> vitals s0 ->
            vitals (foldl (fun acc u => u acc) s0 us)).
  { intros us s0 Hall. exact (preserves_batch vitals us Hall s0). }
  match goal with
  | |- vitals (setPlayer ?f7 (addLog ?m (?u6 (?u5 (?u4 (when ?b ?u3 (?u2 s1))))))) =>
      apply (Hrest [u2; when b u3; u4; u5; u6; addLog m; setPlayer f7] s1); [| exact H1]
  end.
  repeat apply List.Forall_cons; try apply List.Forall_nil.
  - apply processRelicTrigger_vitals, Hrel.
  - pres vitals_leaf.
  - apply playDamage_vitals.
  - apply playBlock_vitals, Hst.
  - apply playEffects_vitals, Hcard.
  - vitals_leaf.
  - apply vitals_setPlayer. intros p Hp. rewrite leaveHand_vitals. exact Hp.
Qed.

Lemma floor_roll_nonneg (roll : Q) (n : Z) :
  0 <= n -> (0 <= roll)%Q -> 0 <= Qfloor (roll * inject_Z n).
Proof.
  intros Hn H0. change 0 with (Qfloor 0). apply Qfloor_resp_le.
  apply Qmult_le_0_compat; [exact H0 |].
  change 0%Q with (inject_Z 0). rewrite <- Zle_Qle. exact Hn.
Qed.

Lemma checkWin_vitals o c :
  oracle_ok o -> Forall (fun r => relic_safe r = true) (p_relics (player c)) ->
  preserves vitals (checkWin o c).
Proof.
  intros (_ & H0 & _) Hrel. unfold checkWin. cbv zeta.
  pose proof (floor_roll_nonneg (random o) 15 ltac:(lia) H0) as Hf.
  change (inject_Z 15) with 15%Q in Hf.
  set (fl := Qfloor (random o * 15)) in *. clearbody fl.
  set (reward := 15 + fl + _ + _).
  assert (Hr : 0 <= reward)
    by (subst reward; destruct (bool_decide _), (bool_decide _); lia).
  clearbody reward.
  pres ltac:(first
    [ apply processRelicTrigger_vitals; exact Hrel
    | vitals_leaf
    | apply vitals_setPlayer; player_arith ]).
Qed.

Lemma dotDamage_vitals e : enemy_vitals e = true -> enemy_vitals (dotDamage e) = true.
Proof.
  intros He. apply enemy_vitals_spec in He.
  destruct He as (h & b & d & Eh & Eb & Ed & H).
  apply enemy_vitals_spec. unfold dotDamage. cbv zeta.
  cbn [e_currentHp e_block e_nextMoveDamage set_e_currentHp]. rewrite Eh, Eb, Ed.
  destruct (num_or_Num (e_statuses e !! "poison") 0) as [x ->].
  destruct (num_or_Num (e_statuses e !! "burn") 0) as [y ->].
  destruct (jgt (Num x) (Num 0)), (jgt (Num y) (Num 0)); cbn;
    do 3 eexists; repeat (split; [reflexivity |]); lia.
Qed.

Lemma endTurnUpdates_vitals prev : preserves vitals (endTurnUpdates prev).
Proof.
  unfold endTurnUpdates, dotLogs. cbv zeta.
  pres ltac:(first
    [ vitals_leaf
    | apply vitals_setEnemy; intros e He; apply dotDamage_vitals; exact He ]).
Qed.

(** The enemy's attack leaves block and HP in range. *)
Lemma enemyAttack_vitals c p :
  enemy_vitals (enemy c) = true -> player_vitals p = true ->
  let '(newBlock, dmg, newHp) := enemyAttack c p in
  player_vitals (set_p_currentHp newHp (set_p_block newBlock p)) = true.
Proof.
  intros He Hp. apply enemy_vitals_spec in He.
  destruct He as (eh & eb & d & _ & _ & Ed & Hd).
  unfold enemyAttack. cbv zeta. rewrite Ed.
  set (d1 := if jgt _ _ then floor_x0_75 (Num d) else Num d).
  assert (H1 : amount_ok d1 = true).
  { subst d1. destruct (jgt _ _); [apply floor_x0_75_ok |]; cbn; apply Z.leb_le; lia. }
  clearbody d1.
  set (d2 := if jgt _ _ then floor_x1_5 d1 else d1).
  assert (H2 : amount_ok d2 = true)
    by (subst d2; destruct (jgt _ _); [apply floor_x1_5_ok |]; exact H1).
  clearbody d2. clear d1 H1. apply amount_ok_Num in H2 as (a & -> & Ha).
  apply player_vitals_spec in Hp.
  destruct Hp as (h & m & b & e & me & g & E1 & E2 & E3 & E4 & E5 & E6 & H).
  rewrite E3, E1. cbn [jge jle jsub jmax].
  destruct (a <=? b) eqn:Hc; [apply Z.leb_le in Hc | apply Z.leb_gt in Hc];
    apply player_vitals_spec; cbn; rewrite E2, E4, E5, E6;
    do 6 eexists; repeat (split; [reflexivity |]); lia.
Qed.

Lemma vitals_update (u : Upd) a :
  preserves vitals u -> vitals (state a) -> vitals (state (update u a)).
Proof. intros Hu Ha. apply Hu, Ha. Qed.

Lemma enemyActs_vitals c a :
  enemy_vitals (enemy c) = true ->
  vitals (state a) -> vitals (state (enemyActs c a)).
Proof.
  intros Hc Ha. unfold enemyActs. cbv zeta.
  change (state (setTimeout (TimerNextTurn c) ?x)) with (state x).
  destruct (jgt _ _).
  - apply vitals_update; [| exact Ha]. pres vitals_leaf.
  - pose proof (enemyAttack_vitals c (player (state a)) Hc (proj1 Ha)) as Hatt.
    destruct (enemyAttack c (player (state a))) as [[newBlock dmg] newHp].
    destruct (num_or_Num (p_statuses (player (state a)) !! "reflect") 0) as [r Er].
    rewrite Er.
    assert (H1 : forall b : bool, vitals (state
      (update (batch [
          addLog (e_name (enemy c) ++ " attacks!");
          setPlayer (fun p => set_p_currentHp newHp (set_p_block newBlock p));
          when b
            (batch [ setEnemy (fun e =>
                       set_e_currentHp (jmax (Num 0) (jsub (e_currentHp e) (Num r))) e);
                     addLog ("Reflected " ++ num_to_string (Num r) ++ " dmg!") ])
        ]) a))).
    { intros b. unfold update, batch. cbn [foldl state].
      assert (Hs1 : vitals (setPlayer
                (fun p => set_p_currentHp newHp (set_p_block newBlock p))
                (addLog (e_name (enemy c) ++ " attacks!") (state a)))).
      { destruct Ha as (Hp & He & Hl). split; [exact Hatt | split; assumption]. }
      revert Hs1. generalize (setPlayer
                (fun p => set_p_currentHp newHp (set_p_block newBlock p))
                (addLog (e_name (enemy c) ++ " attacks!") (state a))).
      change (preserves vitals
                (when b (fun s => foldl (fun acc u => u acc) s
                   [ setEnemy (fun e =>
                       set_e_currentHp (jmax (Num 0) (jsub (e_currentHp e) (Num r))) e);
                     addLog ("Reflected " ++ num_to_string (Num r) ++ " dmg!") ]))).
      apply preserves_when. intros _.
      apply (preserves_batch vitals).
      repeat apply List.Forall_cons; try apply List.Forall_nil.
      - apply vitals_setEnemy. enemy_arith.
      - vitals_leaf. }
    destruct (jle newHp (Num 0)); apply H1.
Qed.

Lemma decayPlayer_vitals p : player_vitals p = true -> player_vitals (decayPlayer p) = true.
Proof. revert p. unfold decayPlayer. player_arith. Qed.

Lemma nextTurn_vitals o c :
  oracle_ok o -> 0 <= level c ->
  Forall (fun r => relic_safe r = true) (p_relics (player c)) ->
  preserves vitals (nextTurn o c).
Proof.
  intros (_ & H0 & _) Hl Hrel. unfold nextTurn. cbv zeta.
  pose proof (floor_roll_nonneg (random o) 4 ltac:(lia) H0) as Hf.
  change (inject_Z 4) with 4%Q in Hf.
  set (fl := Qfloor (random o * 4)) in *. clearbody fl.
  assert (Hd : 0 <= 5 + 3 * level c / 2 + fl)
    by (pose proof (Z.div_pos (3 * level c) 2 ltac:(lia) ltac:(lia)); lia).
  set (nextDmg := 5 + 3 * level c / 2 + fl) in *. clearbody nextDmg.
  pres ltac:(first
    [ apply processRelicTrigger_vitals; exact Hrel
    | apply triggerPlayerPowers_vitals
    | apply vitals_setPlayer; intros p Hp; apply decayPlayer_vitals; exact Hp
    | vitals_leaf
    | apply vitals_setEnemy; enemy_arith ]).
Qed.

Lemma startCombat_vitals o c :
  Forall (fun r => relic_safe r = true) (p_relics (player c)) ->
  preserves vitals (startCombat o c).
Proof.
  intros Hrel. unfold startCombat.
  pres ltac:(first
    [ apply processRelicTrigger_vitals; exact Hrel | vitals_leaf ]).
Qed.

Lemma applyRelicPickupEffect_vitals relic :
  pickup_safe (relic_effectType relic) = true ->
  preserves vitals (applyRelicPickupEffect relic).
Proof.
  intros Hp. unfold applyRelicPickupEffect, pickup_safe in *. cbv zeta.
  destruct (includes _ _); [| apply preserves_id].
  apply amount_ok_Num in Hp as (a & -> & Ha).
  pres ltac:(first [ vitals_leaf | apply vitals_setPlayer; player_arith ]).
Qed.

Lemma fetchToHand_vitals src card p :
  player_vitals (fetchToHand src card p) = player_vitals p.
Proof. unfold fetchToHand. destruct src; reflexivity. Qed.

Lemma onSelect_vitals cb card : preserves vitals (onSelect cb card).
Proof.
  unfold onSelect, generateNextPathsAndContinue.
  pres ltac:(first
    [ vitals_leaf
    | apply vitals_setPlayer; intros p Hp; rewrite fetchToHand_vitals; exact Hp ]).
Qed.

Lemma restHeal_vitals : preserves vitals restHeal.
Proof.
  unfold restHeal, generateNextPathsAndContinue.
  apply preserves_batch.
  repeat apply List.Forall_cons; try apply List.Forall_nil; [| vitals_leaf].
  apply vitals_setPlayer. intros p Hp. apply player_vitals_spec in Hp.
  destruct Hp as (h & m & b & e & me & g & E1 & E2 & E3 & E4 & E5 & E6 & Hr).
  apply player_vitals_spec. cbn. rewrite E1, E2, E3, E4, E5, E6. cbn.
  pose proof (Z.div_pos (3 * m) 10 ltac:(lia) ltac:(lia)) as Hq.
  do 6 eexists. repeat (split; [reflexivity |]). lia.
Qed.

(** A purchase is guarded by the gold at hand. *)
Lemma spend_vitals (price : option Z) (f : IPlayer -> IPlayer) s :
  (forall p, player_vitals (f p) = player_vitals p) ->
  (forall p v, f (set_p_gold v p) = set_p_gold v (f p)) ->
  jge (p_gold (player s)) (Num (price_or price 999)) = true ->
  vitals s ->
  vitals (setPlayer (fun p => set_p_gold (jsub (p_gold p) (Num (price_or price 0))) (f p)) s).
Proof.
  intros Hf _ Hg (Hp & He & Hl). split; [| split; assumption]. cbn.
  pose proof (Hf (player s)) as Hfp. rewrite Hp in Hfp.
  apply player_vitals_spec in Hp.
  destruct Hp as (h & m & b & e & me & g & E1 & E2 & E3 & E4 & E5 & E6 & H).
  rewrite E6 in Hg. cbn in Hg. apply Z.leb_le in Hg.
  apply player_vitals_spec in Hfp.
  destruct Hfp as (h' & m' & b' & e' & me' & g' & F1 & F2 & F3 & F4 & F5 & F6 & H').
  apply player_vitals_spec. cbn. rewrite E6, F1, F2, F3, F4, F5. cbn.
  assert (Hprice : price_or price 0 <= Z.max 0 (price_or price 999)).
  { unfold price_or. destruct price as [v |]; [destruct (v =? 0) |]; lia. }
  do 6 eexists. repeat (split; [reflexivity |]). lia.
Qed.

(** ** Held content keeps its properties *)

Section Holds.
Variable C : ICard -> Prop.
Variable R : IRelic -> Prop.

Lemma held_piles p :
  held C R p <->
  (Forall C (p_deck p) /\ Forall C (p_hand p) /\ Forall C (p_drawPile p) /\
   Forall C (p_discardPile p) /\ Forall C (p_exhaustPile p)) /\
  Forall R (p_relics p).
Proof. unfold held, player_cards. rewrite !Forall_app. tauto. Qed.

Lemma holds_setPlayer (f : IPlayer -> IPlayer) :
  (forall p, held C R p -> held C R (f p)) -> preserves (holds C R) (setPlayer f).
Proof. intros Hf s Hs. apply Hf, Hs. Qed.

Lemma Forall_filter_keeps {A} (P : A -> Prop) (Q : A -> Prop)
    `{!forall x, Decision (Q x)} l :
  Forall P l -> Forall P (filter Q l).
Proof.
  rewrite !Forall_forall. intros Hall c Hc.
  apply list_elem_of_filter in Hc as [_ Hc]. apply Hall, Hc.
Qed.

Lemma drawCards_upd_held o n p :
  (forall l, shuffle o l ≡ₚ l) -> held C R p -> held C R (drawCards_upd o n p).
Proof.
  intros Hsh Hp. unfold drawCards_upd.
  destruct (MAX_HAND_SIZE <=? _); [exact Hp |].
  destruct (jle _ _); [exact Hp |].
  set (k := match jmin n _ with Num z => Z.to_nat z | NaN => 0%nat end).
  pose proof (draw_loop_spec o k (p_hand p) (p_drawPile p) (p_discardPile p) Hsh) as Hd.
  destruct (draw_loop o k _ _ _) as [[h' d'] x']. destruct Hd as [Hperm _].
  apply held_piles in Hp as [(Hdeck & Hh & Hd & Hx & He) Hr].
  apply held_piles. cbn. split; [| exact Hr].
  assert (Hall : Forall C (h' ++ d' ++ x')%list).
  { rewrite Hperm. rewrite !Forall_app. auto. }
  rewrite !Forall_app in Hall. tauto.
Qed.

Lemma holds_drawCards o n :
  (forall l, shuffle o l ≡ₚ l) -> preserves (holds C R) (drawCards o n).
Proof.
  intros Hsh. apply holds_setPlayer. intros p Hp.
  apply drawCards_upd_held; assumption.
Qed.

Ltac holds_leaf :=
  first
    [ apply holds_drawCards; assumption
    | apply holds_setPlayer; (let H := fresh in intros ? H; exact H)
    | solve [ let H := fresh in intros ? H; exact H ] ].

Lemma processRelicTrigger_holds o c trigger ctx :
  (forall l, shuffle o l ≡ₚ l) ->
  preserves (holds C R) (processRelicTrigger o c trigger ctx).
Proof.
  intros Hsh. unfold processRelicTrigger, relicStep, relicAction. cbv zeta.
  pres holds_leaf.
Qed.

Lemma triggerPlayerPowers_holds o c :
  (forall l, shuffle o l ≡ₚ l) -> preserves (holds C R) (triggerPlayerPowers o c).
Proof. intros Hsh. unfold triggerPlayerPowers. cbv zeta. pres holds_leaf. Qed.

Lemma playEffects_holds o c card :
  (forall l, shuffle o l ≡ₚ l) -> preserves (holds C R) (playEffects o c card).
Proof.
  intros Hsh. unfold playEffects, playEffect, applyStatusEffect. cbv zeta.
  pres holds_leaf.
Qed.

Lemma leaveHand_held card index p :
  C card -> held C R p -> held C R (leaveHand card index p).
Proof.
  intros Hc Hp. apply held_piles in Hp as [(Hdeck & Hh & Hd & Hx & He) Hr].
  unfold leaveHand.
  destruct (flag _); [| destruct (bool_decide _)];
    apply held_piles; cbn; rewrite ?Forall_app;
    repeat split; auto using Forall_delete.
Qed.

Lemma playCard_holds o c card index :
  (forall l, shuffle o l ≡ₚ l) -> C card ->
  preserves (holds C R) (playCard o c card index).
Proof.
  intros Hsh Hcard. unfold playCard, playDamage, playBlock. cbv zeta.
  pres ltac:(first
    [ apply processRelicTrigger_holds; exact Hsh
    | apply playEffects_holds; exact Hsh
    | apply holds_setPlayer; intros p Hp; apply leaveHand_held; assumption
    | holds_leaf ]).
Qed.

Lemma checkWin_holds o c :
  (forall l, shuffle o l ≡ₚ l) -> preserves (holds C R) (checkWin o c).
Proof.
  intros Hsh. unfold checkWin. cbv zeta.
  pres ltac:(first [ apply processRelicTrigger_holds; exact Hsh | holds_leaf ]).
Qed.

Lemma nextTurn_holds o c :
  (forall l, shuffle o l ≡ₚ l) -> preserves (holds C R) (nextTurn o c).
Proof.
  intros Hsh. unfold nextTurn. cbv zeta.
  pres ltac:(first
    [ apply processRelicTrigger_holds; exact Hsh
    | apply triggerPlayerPowers_holds; exact Hsh
    | holds_leaf ]).
Qed.

Lemma startCombat_holds o c :
  (forall l, shuffle o l ≡ₚ l) -> preserves (holds C R) (startCombat o c).
Proof.
  intros Hsh. unfold startCombat.
  pres ltac:(first [ apply processRelicTrigger_holds; exact Hsh | holds_leaf ]).
Qed.

Lemma applyRelicPickupEffect_holds relic :
  preserves (holds C R) (applyRelicPickupEffect relic).
Proof. unfold applyRelicPickupEffect. cbv zeta. pres holds_leaf. Qed.

Lemma onSelect_holds cb card :
  C card -> preserves (holds C R) (onSelect cb card).
Proof.
  intros Hc. unfold onSelect, generateNextPathsAndContinue.
  pres ltac:(first
    [ apply holds_setPlayer; intros p Hp;
      apply held_piles in Hp as [(Hdeck & Hh & Hd & Hx & He) Hr];
      unfold fetchToHand, without;
      repeat match goal with |- context [match ?x with _ => _ end] => destruct x end;
      apply held_piles; cbn; rewrite ?Forall_app;
      repeat split; auto using Forall_filter_keeps
    | holds_leaf ]).
Qed.

Lemma endTurnUpdates_holds prev : preserves (holds C R) (endTurnUpdates prev).
Proof.
  unfold endTurnUpdates, dotLogs. cbv zeta.
  pres ltac:(first
    [ apply holds_setPlayer; intros p Hp;
      apply held_piles in Hp as [(Hdeck & Hh & Hd & Hx & He) Hr];
      unfold etherealFade; apply held_piles; cbn; rewrite ?Forall_app;
      repeat split; auto using Forall_filter_keeps
    | holds_leaf ]).
Qed.

Lemma enemyActs_holds c a :
  holds C R (state a) -> holds C R (state (enemyActs c a)).
Proof.
  intros Ha. unfold enemyActs. cbv zeta.
  change (state (setTimeout (TimerNextTurn c) ?x)) with (state x).
  destruct (jgt _ _).
  - assert (Hp : preserves (holds C R)
        (batch [ addLog (e_name (enemy c) ++ " is Frozen! Turn skipped.");
                 setEnemy (fun e =>
                   set_e_statuses (<["freeze" := Num 0]> (e_statuses e)) e) ]))
      by pres holds_leaf.
    apply Hp, Ha.
  - destruct (enemyAttack c (player (state a))) as [[newBlock dmg] newHp].
    match goal with
    | |- holds C R (state (if _ then setTimeout _ (update ?u a) else _)) =>
        assert (Hp : preserves (holds C R) u) by pres holds_leaf;
        destruct (jle newHp (Num 0)); apply Hp, Ha
    end.
Qed.

Lemma startBattle_holds o c node a :
  (forall l, shuffle o l ≡ₚ l) ->
  holds C R (state a) -> holds C R (state (startBattle o c node a)).
Proof.
  intros Hsh Ha. unfold startBattle. cbv zeta.
  destruct (match node_type node with
            | ELITE => _ | BOSS => _ | _ => _ end) as [[[enemyHp damage] enemyName] enemyEmoji].
  change (state (setTimeout ?t ?x)) with (state x).
  match goal with
  | |- holds C R (state (update ?u a)) => assert (Hp : preserves (holds C R) u)
  end; [| apply Hp, Ha].
  pres ltac:(first
    [ apply holds_setPlayer; intros p Hp;
      apply held_piles in Hp as [(Hdeck & Hh & Hd & Hx & He) Hr];
      apply held_piles; cbn; rewrite ?Forall_app;
      repeat split; auto;
      apply Forall_filter_keeps; rewrite (Hsh (p_deck p)); exact Hdeck
    | holds_leaf ]).
Qed.

Lemma selectPath_holds o c node a :
  (forall l, shuffle o l ≡ₚ l) ->
  holds C R (state a) -> holds C R (state (selectPath o c node a)).
Proof.
  intros Hsh Ha. unfold selectPath.
  destruct (node_type node) eqn:Ht;
    try (apply startBattle_holds; [exact Hsh | exact Ha]); exact Ha.
Qed.

End Holds.

(** ** The invariant of the transition system, with the vital numbers *)

Lemma safe_content_relics s :
  safe_content s -> Forall (fun r => relic_safe r = true) (p_relics (player s)).
Proof. intros [_ H]. exact H. Qed.

Lemma safe_content_inv s : safe_content s -> content_inv s.
Proof.
  intros [Hc Hr]. split.
  - eapply Forall_impl; [exact Hc |]. intros c. apply card_safe_ok.
  - eapply Forall_impl; [exact Hr |]. intros r. apply relic_safe_ok.
Qed.

Lemma sound_app_inv a : sound_app a -> app_inv a.
Proof.
  intros [(Hst & _ & Hco) Hti]. split; [exact Hst |].
  split; [apply safe_content_inv, Hco |].
  unfold timers_ok. eapply Forall_impl; [exact Hti |].
  intros [c | c | c |]; cbn; try tauto;
    intros (_ & _ & H); apply content_inv_relics, safe_content_inv, H.
Qed.

Lemma payload_safe_ok ev : payload_safe ev -> payload_ok ev.
Proof.
  destruct ev; cbn; try tauto; first [apply card_safe_ok | apply relic_safe_ok].
Qed.

Lemma filteredPile_held C R sel p card :
  held C R p -> card ∈ filteredPile sel p -> C card.
Proof.
  intros Hp Hin. apply held_piles in Hp as [(Hdeck & Hh & Hd & Hx & He) Hr].
  assert (Hpile : Forall C (pile_of (sel_source sel) p))
    by (destruct (sel_source sel); assumption).
  assert (Hfp : Forall C (filteredPile sel p)).
  { unfold filteredPile. destruct (sel_filter sel) as [f |]; [| exact Hpile].
    destruct (is_empty f); [exact Hpile | apply Forall_filter_keeps, Hpile]. }
  rewrite Forall_forall in Hfp. apply Hfp, Hin.
Qed.

Lemma closures_sound_snoc ts t :
  closures_sound ts ->
  match timer_closure t with Some c => sound c | None => True end ->
  closures_sound (ts ++ [t]).
Proof.
  intros Hts Ht. apply Forall_app. split; [exact Hts |].
  constructor; [exact Ht | constructor].
Qed.

Lemma startBattle_vitals o c node a :
  0 <= node_level node ->
  vitals (state a) -> vitals (state (startBattle o c node a)).
Proof.
  intros Hl (Hp & He & Hlv). unfold startBattle. cbv zeta.
  assert (Hhp : 0 <= 20 + node_level node * 8) by lia.
  assert (Hd : 0 <= 5 + 6 * node_level node / 5)
    by (pose proof (Z.div_pos (6 * node_level node) 5 ltac:(lia) ltac:(lia)); lia).
  set (hp := 20 + node_level node * 8) in *.
  set (dmg := 5 + 6 * node_level node / 5) in *. clearbody hp dmg.
  assert (H1 : 0 <= 9 * hp / 5) by (apply Z.div_pos; lia).
  assert (H2 : 0 <= 3 * dmg / 2) by (apply Z.div_pos; lia).
  assert (H3 : 0 <= 9 * dmg / 5) by (apply Z.div_pos; lia).
  apply player_vitals_spec in Hp.
  destruct Hp as (h & m & b & e & me & g & E1 & E2 & E3 & E4 & E5 & E6 & Hr).
  destruct (node_type node); cbn;
    (split; [| split; [| exact Hlv]]);
    try (apply player_vitals_spec; cbn; rewrite E1, E2, E5, E6;
         do 6 eexists; repeat (split; [reflexivity |]); lia);
    apply enemy_vitals_spec; cbn;
    do 3 eexists; repeat (split; [reflexivity |]); lia.
Qed.

Lemma selectPath_vitals o c node a :
  0 <= node_level node ->
  vitals (state a) -> vitals (state (selectPath o c node a)).
Proof.
  intros Hl Ha. unfold selectPath.
  assert (H1 : vitals (state (update (batch [ set_level (node_level node);
                                              set_currentRoom (Some (node_type node));
                                              set_logs [] ]) a))).
  { destruct Ha as (Hp & He & _). split; [exact Hp | split; [exact He | exact Hl]]. }
  destruct (node_type node);
    try (apply startBattle_vitals; [exact Hl | exact H1]); exact H1.
Qed.

Lemma selectPath_timers o c node a :
  timers (selectPath o c node a) = timers a \/
  timers (selectPath o c node a) = (timers a ++ [TimerStartCombat c])%list.
Proof.
  unfold selectPath, startBattle.
  destruct (node_type node); cbn; auto.
Qed.

Lemma enemyActs_timers c a :
  exists extra, timers (enemyActs c a) = (timers a ++ extra ++ [TimerNextTurn c])%list /\
                (extra = [] \/ extra = [TimerLoss]).
Proof.
  unfold enemyActs. cbv zeta. destruct (jgt _ _).
  - exists []. split; [reflexivity | auto].
  - destruct (enemyAttack c (player (state a))) as [[newBlock dmg] newHp].
    destruct (jle newHp (Num 0)).
    + exists [TimerLoss]. split; [cbn; rewrite <- app_assoc; reflexivity | auto].
    + exists []. split; [reflexivity | auto].
Qed.

Lemma initialApp_sound : sound_app initialApp.
Proof.
  split; [| constructor].
  split; [split; apply statuses_ok_empty |].
  split; [repeat split; cbn; lia |].
  split; cbn; [repeat (constructor; [reflexivity |]) |]; constructor.
Qed.

Lemma sound_update (u : Upd) a :
  preserves vitals u -> preserves safe_content u ->
  vitals (state a) /\ safe_content (state a) /\ closures_sound (timers a) ->
  vitals (state (update u a)) /\ safe_content (state (update u a))
  /\ closures_sound (timers (update u a)).
Proof.
  intros Hv Hc (H1 & H2 & H3). split; [apply Hv, H1 |]. split; [apply Hc, H2 | exact H3].
Qed.

Ltac holds_leaf' Hsh :=
  first
    [ apply holds_drawCards; exact Hsh
    | apply holds_setPlayer; (let H := fresh in intros ? H; exact H)
    | solve [ let H := fresh in intros ? H; exact H ] ].

Lemma handle_sound o ev a a' :
  oracle_ok o -> payload_safe ev -> sound_app a ->
  handle o ev a = Some a' ->
  vitals (state a') /\ safe_content (state a') /\ closures_sound (timers a').
Proof.
  intros Ho Hpay Ha Hh. pose proof Ho as (Hsh & _).
  pose proof Ha as ((Hst & Hvi & Hco) & Hti).
  pose proof (safe_content_relics _ Hco) as Hrel.
  assert (Hsound : sound (state a)) by (split; [| split]; assumption).
  assert (Hall : vitals (state a) /\ safe_content (state a) /\ closures_sound (timers a))
    by (split; [| split]; assumption).
  destruct ev; cbn in Hh, Hpay.
  - (* EvSelectPath *)
    destruct (_ && _)%bool; [| discriminate]. injection Hh as <-.
    split; [| split].
    + apply selectPath_vitals; [cbn; destruct Hvi as (_ & _ & Hl); lia | exact Hvi].
    + apply selectPath_holds; assumption.
    + destruct (selectPath_timers o (state a) (nodeFor (level (state a)) t) a) as [-> | ->];
        [exact Hti | apply closures_sound_snoc; [exact Hti | exact Hsound]].
  - (* EvTimer *)
    destruct (timers a !! i) as [t |] eqn:Hi; [| discriminate]. injection Hh as <-.
    assert (Hc : match timer_closure t with Some c => sound c | None => True end).
    { unfold closures_sound in Hti. rewrite Forall_forall in Hti.
      apply Hti. eapply list_elem_of_lookup_2. exact Hi. }
    assert (Hdel : closures_sound (delete i (timers a))) by apply Forall_delete, Hti.
    destruct t as [c | c | c |]; cbn [fireTimer timer_closure] in Hc |- *.
    + destruct Hc as (_ & _ & Hcc).
      split; [apply startCombat_vitals; [apply safe_content_relics, Hcc | exact Hvi] |].
      split; [apply startCombat_holds; assumption | exact Hdel].
    + pose proof Hc as (_ & (_ & Hce & _) & _).
      split; [apply (enemyActs_vitals c {| state := state a; timers := _ |} Hce Hvi) |].
      split; [apply (enemyActs_holds _ _ c {| state := state a; timers := _ |} Hco) |].
      destruct (enemyActs_timers c {| state := state a; timers := delete i (timers a) |})
        as (extra & -> & Hex). cbn.
      apply Forall_app. split; [exact Hdel |].
      apply Forall_app. split; [destruct Hex as [-> | ->]; repeat constructor |].
      constructor; [exact Hc | constructor].
    + pose proof Hc as (_ & (_ & _ & Hl) & Hcc).
      split; [apply nextTurn_vitals;
              [exact Ho | exact Hl | apply safe_content_relics, Hcc | exact Hvi] |].
      split; [apply nextTurn_holds; assumption | exact Hdel].
    + split; [exact Hvi | split; [exact Hco | exact Hdel]].
  - (* EvPlayCard *)
    destruct (p_hand (player (state a)) !! index) as [card |] eqn:Hc; [| discriminate].
    destruct (selection (state a)); [discriminate |].
    destruct (_ && _)%bool eqn:Hg; [| discriminate]. injection Hh as <-.
    apply andb_true_iff in Hg as [_ Hen].
    assert (Hcard : card_safe card = true).
    { pose proof Hco as Hco'. apply held_piles in Hco' as [(_ & Hh & _) _].
      rewrite Forall_forall in Hh. apply Hh. eapply list_elem_of_lookup_2. exact Hc. }
    split; [apply playCard_vitals; assumption |].
    split; [apply playCard_holds; assumption | exact Hti].
  - (* EvEndTurn *)
    destruct (selection (state a)); [discriminate |].
    destruct (bool_decide _); [| discriminate]. injection Hh as <-.
    unfold endTurn.
    assert (H1 : vitals (endTurnUpdates (state a) (state a)) /\
                 safe_content (endTurnUpdates (state a) (state a)))
      by (split; [apply endTurnUpdates_vitals | apply endTurnUpdates_holds]; assumption).
    destruct (jle _ _); cbn; (split; [apply H1 |]); (split; [apply H1 |]);
      [exact Hti | apply closures_sound_snoc; [exact Hti | exact Hsound]].
  - (* EvSelect *)
    destruct (selection (state a)) as [sel |]; [| discriminate].
    destruct (sel_isOpen sel && overlay_rendered (phase (state a))
              && bool_decide (card ∈ filteredPile sel (player (state a))))%bool eqn:Hg;
      [| discriminate].
    injection Hh as <-.
    apply andb_true_iff in Hg as [_ Hin]. apply bool_decide_eq_true in Hin.
    assert (Hcard : card_safe card = true)
      by exact (filteredPile_held (fun c => card_safe c = true) _ sel _ card Hco Hin).
    apply sound_update; [apply onSelect_vitals | apply onSelect_holds, Hcard | exact Hall].
  - (* EvCloseSelection *)
    destruct (selection (state a)) as [sel |]; [| discriminate].
    destruct (_ && _)%bool; [| discriminate]. injection Hh as <-. exact Hall.
  - (* EvOpenRewards *)
    destruct (bool_decide _); [| discriminate]. injection Hh as <-. exact Hall.
  - (* EvCollectRelic *)
    destruct (_ && _)%bool; [| discriminate]. injection Hh as <-.
    pose proof Hpay as Hpay'. unfold relic_safe in Hpay'.
    rewrite !andb_true_iff in Hpay'. destruct Hpay' as [_ Hpick].
    apply sound_update; [| | exact Hall].
    + pres ltac:(first [ apply applyRelicPickupEffect_vitals; exact Hpick | vitals_leaf ]).
    + pres ltac:(first
        [ apply applyRelicPickupEffect_holds
        | apply holds_setPlayer; intros p Hp;
          apply held_piles in Hp as [Hcards Hr];
          apply held_piles; cbn; split; [exact Hcards |];
          apply Forall_app; split; [exact Hr | constructor; [exact Hpay | constructor]] ]).
  - (* EvTakeReward *)
    destruct (bool_decide _); [| discriminate]. injection Hh as <-.
    apply sound_update; [| | exact Hall]; unfold generateNextPathsAndContinue.
    + pres vitals_leaf.
    + pres ltac:(first
        [ apply holds_setPlayer; intros p Hp;
          apply held_piles in Hp as [(Hdeck & Hrest) Hr];
          apply held_piles; cbn; rewrite ?Forall_app;
          repeat split; try tauto; constructor; [exact Hpay | constructor]
        | holds_leaf' Hsh ]).
  - (* EvSkipReward *)
    destruct (bool_decide _); [| discriminate]. injection Hh as <-. exact Hall.
  - (* EvBuyCard *)
    destruct (bool_decide _); [| discriminate]. injection Hh as <-.
    unfold buyCard, update. cbn [state timers].
    destruct (jge _ _) eqn:Hg; cbn [when]; [| exact Hall].
    unfold batch. cbn [foldl].
    split; [| split; [| exact Hti]].
    + apply (spend_vitals (card_price card) (fun p => set_p_deck (p_deck p ++ [card]) p));
        [reflexivity | reflexivity | exact Hg | exact Hvi].
    + apply held_piles in Hco as [(Hdeck & Hrest) Hr].
      apply held_piles; cbn; rewrite ?Forall_app.
      repeat split; try tauto. constructor; [exact Hpay | constructor].
  - (* EvBuyRelic *)
    destruct (bool_decide _); [| discriminate]. injection Hh as <-.
    pose proof Hpay as Hpay'. unfold relic_safe in Hpay'.
    rewrite !andb_true_iff in Hpay'. destruct Hpay' as [_ Hpick].
    unfold buyRelic, update. cbn [state timers].
    destruct (jge _ _) eqn:Hg; cbn [when]; [| exact Hall].
    unfold batch. cbn [foldl].
    split; [| split; [| exact Hti]].
    + change (vitals (addLog ("Bought " ++ relic_name relic)
               (applyRelicPickupEffect relic
                  (setPlayer (fun p =>
                     set_p_gold (jsub (p_gold p) (Num (price_or (relic_price relic) 0)))
                       (set_p_relics (p_relics p ++ [relic]) p)) (state a))))).
      apply (applyRelicPickupEffect_vitals relic Hpick).
      apply (spend_vitals (relic_price relic)
               (fun p => set_p_relics (p_relics p ++ [relic]) p));
        [reflexivity | reflexivity | exact Hg | exact Hvi].
    + change (safe_content (addLog ("Bought " ++ relic_name relic)
               (applyRelicPickupEffect relic
                  (setPlayer (fun p =>
                     set_p_gold (jsub (p_gold p) (Num (price_or (relic_price relic) 0)))
                       (set_p_relics (p_relics p ++ [relic]) p)) (state a))))).
      apply (applyRelicPickupEffect_holds _ _ relic).
      apply held_piles in Hco as [Hcards Hr].
      apply held_piles; cbn. split; [exact Hcards |].
      apply Forall_app. split; [exact Hr | constructor; [exact Hpay | constructor]].
  - (* EvLeaveShop *)
    destruct (bool_decide _); [| discriminate]. injection Hh as <-. exact Hall.
  - (* EvRestHeal *)
    destruct (bool_decide _); [| discriminate]. injection Hh as <-.
    apply sound_update; [apply restHeal_vitals | | exact Hall].
    unfold restHeal, generateNextPathsAndContinue. pres ltac:(holds_leaf' Hsh).
  - (* EvRestRemove *)
    destruct (bool_decide _); [| discriminate]. injection Hh as <-. exact Hall.
  - (* EvRestart *)
    destruct (bool_decide _); [| discriminate]. injection Hh as <-.
    destruct initialApp_sound as [(_ & H1 & H2) H3]. split; [| split]; assumption.
Qed.

Lemma step_sound o ev a a' :
  oracle_ok o -> payload_safe ev -> sound_app a ->
  step o ev a = Some a' -> sound_app a'.
Proof.
  intros Ho Hpay Ha Hstep.
  pose proof (step_inv o ev a a' Ho (payload_safe_ok ev Hpay) (sound_app_inv a Ha) Hstep)
    as (Hst & _ & _).
  unfold step in Hstep.
  destruct (handle o ev a) as [a1 |] eqn:Hh; [| discriminate].
  injection Hstep as <-.
  destruct (handle_sound _ _ _ _ Ho Hpay Ha Hh) as (Hv & Hc & Ht).
  split; [| exact Ht]. split; [exact Hst |]. split; cbn.
  - apply checkWin_vitals; [exact Ho | apply safe_content_relics, Hc | exact Hv].
  - apply checkWin_holds; [apply Ho | exact Hc].
Qed.

Lemma run_sound trace a a' :
  Forall (fun oe => oracle_ok (fst oe) /\ payload_safe (snd oe)) trace ->
  sound_app a -> run trace a = Some a' -> sound_app a'.
Proof.
  revert a. induction trace as [| [o ev] trace IH]; intros a Hall Ha Hrun; cbn in Hrun.
  - injection Hrun as <-. exact Ha.
  - inversion Hall as [| ? ? [Ho Hp] Hrest]; subst.
    destruct (step o ev a) as [a1 |] eqn:Hstep; [| discriminate].
    apply (IH a1); [exact Hrest | | exact Hrun].
    eapply step_sound; eassumption.
Qed.

(** ** What the sanitizers let through keeps the numbers in range *)

(** The string the special-effect sanitizer returns is the join of
    canonical tokens, and splits back into them. *)
Lemma sanitizeSpecialEffect_tokens raw se :
  sanitizeSpecialEffect (VString raw) = Some se ->
  exists toks,
    Forall (fun t => t ∈ CARD_TOKENS) toks /\ toks <> [] /\
    se = join "," toks /\ split "," se = toks.
Proof.
  cbn [sanitizeSpecialEffect].
  set (toks := filter _ (omap sanitizeEffectToken (split "," raw))).
  assert (Hcanon : Forall (fun t => t ∈ CARD_TOKENS) toks).
  { subst toks. apply Forall_forall. intros t Ht.
    apply list_elem_of_filter in Ht as [_ Ht].
    apply list_elem_of_omap in Ht as (r & _ & Hr).
    eapply sanitizeEffectToken_tight. exact Hr. }
  clearbody toks.
  destruct toks as [| t0 ts] eqn:Htoks; [discriminate |].
  intros [= <-]. exists (t0 :: ts).
  change (match ts with [] => t0 | _ :: _ => _ end) with (join "," (t0 :: ts)).
  split; [exact Hcanon |]. split; [discriminate |]. split; [reflexivity |].
  apply split_join; [discriminate |].
  pose proof card_tokens_checked as Hchk. rewrite forallb_forall in Hchk.
  eapply Forall_impl; [exact Hcanon |]. intros t Ht.
  apply list_elem_of_In, Hchk in Ht.
  rewrite !andb_true_iff in Ht. tauto.
Qed.

Lemma card_tokens_safe :
  forallb (fun t => token_safe (trim t)) CARD_TOKENS = true.
Proof. vm_compute. reflexivity. Qed.

Lemma relic_tokens_safe :
  forallb (fun e =>
             decode_safe (decodeRelic "start_combat" e)
             && decode_safe (decodeRelic "" e) && pickup_safe e)%bool
          RELIC_TOKENS = true.
Proof. vm_compute. reflexivity. Qed.



(** X24 (the whole component, one handler per render): along every
    play-through from the start of a run, with shuffles that permute,
    uniform draws in [0,1) and generated cards and relics whose amounts are
    non-negative integers, the player's HP stays between 0 and the maximum
    HP, block, energy and gold never go negative, and the enemy's HP and
    block never go negative: a card is only played when the energy covers
    its cost, a purchase only when the gold covers the price, and every
    loss of HP or block is floored at 0. *)
Theorem X24_vital_numbers_stay_in_range :
  forall (trace : list (Oracle * Event)) (a : App),
    Forall (fun oe => oracle_ok (fst oe) /\ payload_safe (snd oe)) trace ->
    run trace initialApp = Some a ->
    let p := player (state a) in
    let e := enemy (state a) in
    exists hp maxHp block energy gold enemyHp enemyBlock : Z,
      p_currentHp p = Num hp /\ p_maxHp p = Num maxHp /\ 0 <= hp <= maxHp /\
      p_block p = Num block /\ 0 <= block /\
      p_energy p = Num energy /\ 0 <= energy /\
      p_gold p = Num gold /\ 0 <= gold /\
      e_currentHp e = Num enemyHp /\ 0 <= enemyHp /\
      e_block e = Num enemyBlock /\ 0 <= enemyBlock.
Proof.
  intros trace a Hall Hrun p e.
  pose proof (run_sound trace initialApp a Hall initialApp_sound Hrun)
    as [(_ & (Hp & He & _) & _) _].
  apply player_vitals_spec in Hp.
  destruct Hp as (h & m & b & en & me & g & E1 & E2 & E3 & E4 & E5 & E6 & H).
  apply enemy_vitals_spec in He.
  destruct He as (eh & eb & d & F1 & F2 & F3 & H').
  exists h, m, b, en, g, eh, eb. subst p e.
  rewrite E1, E2, E3, E4, E6, F1, F2. repeat split; try reflexivity; lia.
Qed.

Lemma X24_witness :
  exists a gold,
    run (scripted fight_1) initialApp = Some a /\
    p_gold (player (state a)) = Num gold /\ 0 <= gold.
Proof.
  destruct (run (scripted fight_1) initialApp) as [a |] eqn:Hrun;
    [| vm_compute in Hrun; discriminate].
  destruct (X24_vital_numbers_stay_in_range (scripted fight_1) a)
    as (hp & maxHp & block & energy & gold & _ & _ & _ & _ & _ & _ & _ & _ & _ & Hg & Hg0 & _).
  - unfold scripted. rewrite Forall_fmap.
    repeat (constructor;
            [split; [apply identity_oracle_ok | first [exact I | vm_compute; reflexivity]] |]).
    constructor.
  - exact Hrun.
  - exists a, gold. split; [reflexivity |]. split; [exact Hg | exact Hg0].
Defined.

(** ** The tokens of the sanitizers, as the orchestrator decodes them *)

Lemma is_num_eq v n : is_num v n = true -> v = Num n.
Proof.
  destruct v as [| z]; cbn; [discriminate |]. intros H. apply Z.eqb_eq in H. congruence.
Qed.

Lemma recurring_tokens_decode :
  forallb (fun a => forallb (recurring_decodes a) (seqZ 1 50))
          ALLOWED_RECURRING_ACTIONS = true.
Proof. vm_compute. reflexivity. Qed.

Lemma plain_tokens_ignored_by_powers :
  forallb (fun t =>
             String.prefix "recurring_" t
             || (match power_match t with None => true | Some _ => false end
                 && negb (String.eqb t "recurring_freeze")
                 && negb (String.eqb t "turn_start_freeze")))%bool
          CARD_TOKENS = true.
Proof. vm_compute. reflexivity. Qed.

Lemma elem_of_seqZ_range (lo len n : Z) : lo <= n < lo + len -> n ∈ seqZ lo len.
Proof. intros H. apply elem_of_seqZ. lia. Qed.

(** X26 (sanitizeEffectToken, triggerPlayerPowers): every recurring token
    the card sanitizer can return, recurring_<action>_<n>, is understood
    by the powers of the next turns: it adds exactly n to the effect of
    its action (regen counts as heal, metallicize and plates as block), so
    a single such power yields n of it per turn; every other token of the
    card vocabulary is ignored by triggerPlayerPowers. *)
Theorem X26_recurring_tokens_are_understood :
  forall (action : string) (n : Z) (effects : gmap string JsNum),
    action ∈ ALLOWED_RECURRING_ACTIONS -> 1 <= n <= 50 ->
    power_effect ("recurring_" ++ action ++ "_" ++ pretty n) effects
    = eff_add (power_key action) (Num n) effects /\
    eff_get
      (collect_power_effects
         [ {| power_id := ""; power_name := ""; power_description := "";
              power_effectType := "recurring_" ++ action ++ "_" ++ pretty n;
              power_icon := "" |} ])
      (power_key action) = Num n /\
    (forall t, t ∈ CARD_TOKENS -> String.prefix "recurring_" t = false ->
               power_effect t effects = effects).
Proof.
  intros action n effects Hin Hn.
  assert (Hdec : recurring_decodes action n = true).
  { pose proof recurring_tokens_decode as Hchk. rewrite forallb_forall in Hchk.
    specialize (Hchk action (proj1 (list_elem_of_In _ _) Hin)).
    rewrite forallb_forall in Hchk. apply Hchk. apply list_elem_of_In.
    apply elem_of_seqZ_range. lia. }
  assert (Hone : forall eff0,
            power_effect ("recurring_" ++ action ++ "_" ++ pretty n) eff0
            = eff_add (power_key action) (Num n) eff0).
  { intros eff0. unfold recurring_decodes in Hdec. unfold power_effect.
    destruct (power_match _) as [[m1 [ds |]] |]; try discriminate.
    apply andb_true_iff in Hdec as [Hm Hd].
    apply String.eqb_eq in Hm. apply is_num_eq in Hd. cbv zeta. rewrite Hm, Hd.
    unfold ALLOWED_RECURRING_ACTIONS in Hin.
    repeat (apply elem_of_cons in Hin as [-> | Hin]; [reflexivity |]).
    inversion Hin. }
  split; [apply Hone |]. split.
  - unfold collect_power_effects. cbn [foldl power_effectType].
    assert (Hsplit : map trim (split "," ("recurring_" ++ action ++ "_" ++ pretty n))
                     = ["recurring_" ++ action ++ "_" ++ pretty n]).
    { assert (Hchk : forallb (fun a => forallb (fun n =>
                let t := "recurring_" ++ a ++ "_" ++ pretty n in
                match map trim (split "," t) with
                | [t'] => String.eqb t' t
                | _ => false
                end) (seqZ 1 50)) ALLOWED_RECURRING_ACTIONS = true)
        by (vm_compute; reflexivity).
      rewrite forallb_forall in Hchk.
      specialize (Hchk action (proj1 (list_elem_of_In _ _) Hin)).
      rewrite forallb_forall in Hchk.
      specialize (Hchk n (proj1 (list_elem_of_In _ _) (elem_of_seqZ_range 1 50 n ltac:(lia)))).
      cbv zeta in Hchk.
      destruct (map trim _) as [| t' [| ? ?]]; try discriminate.
      apply String.eqb_eq in Hchk. subst. reflexivity. }
    rewrite Hsplit. cbn [foldl]. rewrite Hone.
    unfold ALLOWED_RECURRING_ACTIONS in Hin.
    repeat (apply elem_of_cons in Hin as [-> | Hin];
            [vm_compute; f_equal; lia |]).
    inversion Hin.
  - intros t Ht Hpre.
    pose proof plain_tokens_ignored_by_powers as Hchk. rewrite forallb_forall in Hchk.
    specialize (Hchk t (proj1 (list_elem_of_In _ _) Ht)). cbv beta in Hchk.
    rewrite Hpre in Hchk. cbn [orb] in Hchk.
    rewrite !andb_true_iff, !negb_true_iff in Hchk. destruct Hchk as [[Hm H1] H2].
    unfold power_effect. destruct (power_match t); [discriminate |].
    rewrite H1, H2. reflexivity.
Qed.

Lemma status_tokens_decode :
  forallb (fun h => forallb (amount_decodes h "1") (seqZ 1 50))
          (ALLOWED_ENEMY_STATUS ++ ALLOWED_PLAYER_STATUS) = true.
Proof. vm_compute. reflexivity. Qed.

Lemma amount_tokens_decode :
  forallb (fun n =>
             amount_decodes "draw" "1" n && amount_decodes "energy" "1" n
             && amount_decodes "heal" "1" n
             && negb (includes ("heal_" ++ pretty n) "lifesteal")
             && amount_decodes "lifesteal" "0" n
             && includes ("lifesteal_" ++ pretty n) "lifesteal")%bool
          (seqZ 0 51) = true.
Proof. vm_compute. reflexivity. Qed.

Lemma self_damage_tokens_decode :
  forallb (fun n =>
             let parts := split "_" ("self_damage_" ++ pretty n) in
             String.eqb (default "" (parts !! 0%nat)) "self"
             && is_str (parts !! 1%nat) "damage"
             && is_num (parseInt (str_or (parts !! 2%nat) "0")) n)%bool
          (seqZ 0 31) = true.
Proof. vm_compute. reflexivity. Qed.

Lemma amount_decodes_spec head d n :
  amount_decodes head d n = true ->
  default "" (split "_" (head ++ "_" ++ pretty n) !! 0%nat) = head /\
  parseInt (str_or (split "_" (head ++ "_" ++ pretty n) !! 1%nat) d) = Num n /\
  statusAmount (head ++ "_" ++ pretty n) = Num n /\
  statusRealType (head ++ "_" ++ pretty n) = Some head.
Proof.
  unfold amount_decodes. cbv zeta. rewrite !andb_true_iff.
  intros [[[H0 H1] H2] H3].
  apply String.eqb_eq in H0. apply is_num_eq in H1, H2.
  destruct (statusRealType _) as [r |]; [| discriminate].
  apply String.eqb_eq in H3. subst r. auto.
Qed.

(** X27 (sanitizeEffectToken, playCard, applyStatusEffect): the tokens of
    the card vocabulary do what they name when the card is played: an
    enemy status token adds n stacks to the enemy (freeze and stun set the
    freeze flag to 1), a player status token adds n stacks to the player,
    draw_n draws n cards, energy_n adds n energy, heal_n and lifesteal_n
    both heal n up to the maximum HP, and self_damage_n takes n HP but
    never leaves less than 1. *)
Theorem X27_card_tokens_are_understood :
  forall (o : Oracle) (c s : GameState) (n : Z),
    (forall status, status ∈ ALLOWED_ENEMY_STATUS -> 1 <= n <= 50 ->
       let s' := playEffect o c (status ++ "_" ++ pretty n) s in
       player s' = player s /\
       enemy s' =
         set_e_statuses
           (if bool_decide (status ∈ ["freeze"; "stun"])
            then <["freeze" := Num 1]> (e_statuses (enemy s))
            else add_status status (Num n) (e_statuses (enemy s)))
           (enemy s)) /\
    (forall status, status ∈ ALLOWED_PLAYER_STATUS -> 1 <= n <= 50 ->
       let s' := playEffect o c (status ++ "_" ++ pretty n) s in
       enemy s' = enemy s /\
       player s' =
         set_p_statuses (add_status status (Num n) (p_statuses (player s))) (player s)) /\
    (0 <= n <= 50 ->
       playEffect o c ("draw_" ++ pretty n) s = drawCards o (Num n) s /\
       playEffect o c ("energy_" ++ pretty n) s
       = setPlayer (fun p => set_p_energy (jadd (p_energy p) (Num n)) p) s /\
       playEffect o c ("heal_" ++ pretty n) s
       = setPlayer (fun p =>
           set_p_currentHp (jmin (p_maxHp p) (jadd (p_currentHp p) (Num n))) p) s /\
       playEffect o c ("lifesteal_" ++ pretty n) s
       = playEffect o c ("heal_" ++ pretty n) s) /\
    (0 <= n <= 30 ->
       let s' := playEffect o c ("self_damage_" ++ pretty n) s in
       player s' =
         set_p_currentHp (jmax (Num 1) (jsub (p_currentHp (player s)) (Num n)))
           (player s) /\
       enemy s' = enemy s).
Proof.
  intros o c s n.
  assert (Hstatus : forall status,
            status ∈ (ALLOWED_ENEMY_STATUS ++ ALLOWED_PLAYER_STATUS)%list -> 1 <= n <= 50 ->
            amount_decodes status "1" n = true).
  { intros status Hin Hn.
    pose proof status_tokens_decode as Hchk. rewrite forallb_forall in Hchk.
    specialize (Hchk status (proj1 (list_elem_of_In _ _) Hin)).
    rewrite forallb_forall in Hchk. apply Hchk. apply list_elem_of_In.
    apply elem_of_seqZ_range. lia. }
  split; [| split; [| split]].
  - intros status Hin Hn s'. subst s'.
    destruct (amount_decodes_spec _ _ _
                (Hstatus status ltac:(apply elem_of_app; left; exact Hin) Hn))
      as (H0 & _ & H2 & H3).
    unfold playEffect, applyStatusEffect. cbv zeta. rewrite H0, H2, H3.
    unfold ALLOWED_ENEMY_STATUS in Hin.
    repeat (apply elem_of_cons in Hin as [-> | Hin]; [split; reflexivity |]).
    inversion Hin.
  - intros status Hin Hn s'. subst s'.
    destruct (amount_decodes_spec _ _ _
                (Hstatus status ltac:(apply elem_of_app; right; exact Hin) Hn))
      as (H0 & _ & H2 & H3).
    unfold playEffect, applyStatusEffect. cbv zeta. rewrite H0, H2, H3.
    unfold ALLOWED_PLAYER_STATUS in Hin.
    repeat (apply elem_of_cons in Hin as [-> | Hin]; [split; reflexivity |]).
    inversion Hin.
  - intros Hn.
    pose proof amount_tokens_decode as Hchk. rewrite forallb_forall in Hchk.
    specialize (Hchk n (proj1 (list_elem_of_In _ _)
                          (elem_of_seqZ_range 0 51 n ltac:(lia)))).
    cbv beta in Hchk. rewrite !andb_true_iff, negb_true_iff in Hchk.
    destruct Hchk as [[[[[Hd He] Hh] Hnl] Hl] Hil].
    change ("draw_" ++ pretty n) with ("draw" ++ "_" ++ pretty n).
    change ("energy_" ++ pretty n) with ("energy" ++ "_" ++ pretty n).
    change ("heal_" ++ pretty n) with ("heal" ++ "_" ++ pretty n) in *.
    change ("lifesteal_" ++ pretty n) with ("lifesteal" ++ "_" ++ pretty n) in *.
    destruct (amount_decodes_spec _ _ _ Hd) as (D0 & D1 & _).
    destruct (amount_decodes_spec _ _ _ He) as (E0 & E1 & _).
    destruct (amount_decodes_spec _ _ _ Hh) as (A0 & A1 & _).
    destruct (amount_decodes_spec _ _ _ Hl) as (L0 & L1 & _).
    assert (Hheal : playEffect o c ("heal" ++ "_" ++ pretty n) s
                    = setPlayer (fun p =>
                        set_p_currentHp
                          (jmin (p_maxHp p) (jadd (p_currentHp p) (Num n))) p) s).
    { unfold playEffect. cbv zeta. rewrite A0, A1, Hnl. reflexivity. }
    split; [unfold playEffect; cbv zeta; rewrite D0, D1; reflexivity |].
    split; [unfold playEffect; cbv zeta; rewrite E0, E1; reflexivity |].
    split; [exact Hheal |].
    rewrite Hheal. unfold playEffect. cbv zeta. rewrite L0, L1, Hil. reflexivity.
  - intros Hn s'. subst s'.
    pose proof self_damage_tokens_decode as Hchk. rewrite forallb_forall in Hchk.
    specialize (Hchk n (proj1 (list_elem_of_In _ _)
                          (elem_of_seqZ_range 0 31 n ltac:(lia)))).
    cbv beta zeta in Hchk. rewrite !andb_true_iff in Hchk.
    destruct Hchk as [[H0 H1] H2].
    apply String.eqb_eq in H0. apply is_num_eq in H2.
    unfold playEffect. cbv zeta. rewrite H0, H1, H2. split; reflexivity.
Qed.

Lemma X26_witness :
  eff_get
    (collect_power_effects
       [ {| power_id := ""; power_name := ""; power_description := "";
            power_effectType := "recurring_block_3"; power_icon := "" |} ])
    "block" = Num 3.
Proof.
  destruct (X26_recurring_tokens_are_understood "block" 3 effects_init)
    as (_ & Hturn & _).
  - unfold ALLOWED_RECURRING_ACTIONS. apply list_elem_of_In. cbn. tauto.
  - lia.
  - exact Hturn.
Defined.

Lemma X27_witness :
  e_statuses (enemy (playEffect identity_oracle c1_state "poison_4" c1_state))
    !! "poison" = Some (Num 4).
Proof.
  destruct (X27_card_tokens_are_understood identity_oracle c1_state c1_state 4)
    as (Henemy & _).
  destruct (Henemy "poison") as [_ He].
  - unfold ALLOWED_ENEMY_STATUS. apply list_elem_of_In. cbn. tauto.
  - lia.
  - change ("poison" ++ "_" ++ pretty 4) with "poison_4" in He.
    rewrite He. vm_compute. reflexivity.
Defined.

(** ** The start of the next turn *)

Lemma triggerPlayerPowers_none o c s :
  p_powers (player c) = [] -> triggerPlayerPowers o c s = s.
Proof. intros H. unfold triggerPlayerPowers. rewrite H. reflexivity. Qed.

Lemma decrement_lookup k k' (m : gmap string JsNum) :
  decrement k m !! k' = if bool_decide (k' = k) then decremented <$> m !! k else m !! k'.
Proof.
  unfold decrement, decremented. case_bool_decide as Hk.
  - subst k'. destruct (m !! k) as [v |] eqn:Hv; [| exact Hv]. cbn.
    destruct (truthy v); [apply lookup_insert_eq | exact Hv].
  - destruct (m !! k) as [v |]; [| reflexivity].
    destruct (truthy v); [| reflexivity]. apply lookup_insert_ne. congruence.
Qed.

(** Three guarded decrements of distinct counters. *)
Lemma decrement3_lookup a b c k (m : gmap string JsNum) :
  a <> b -> a <> c -> b <> c ->
  decrement a (decrement b (decrement c m)) !! k
  = if bool_decide (k ∈ [c; b; a]) then decremented <$> m !! k else m !! k.
Proof.
  intros Hab Hac Hbc. rewrite decrement_lookup.
  case_bool_decide as Ha.
  - subst k. rewrite !decrement_lookup.
    rewrite (bool_decide_eq_false_2 (a = b)), (bool_decide_eq_false_2 (a = c)) by assumption.
    rewrite bool_decide_eq_true_2; [reflexivity |].
    do 2 apply list_elem_of_further. apply list_elem_of_here.
  - rewrite decrement_lookup. case_bool_decide as Hb.
    + subst k. rewrite decrement_lookup.
      rewrite (bool_decide_eq_false_2 (b = c)) by assumption.
      rewrite bool_decide_eq_true_2; [reflexivity |].
      apply list_elem_of_further. apply list_elem_of_here.
    + rewrite decrement_lookup. case_bool_decide as Hc.
      * subst k. rewrite bool_decide_eq_true_2; [reflexivity |]. apply list_elem_of_here.
      * rewrite bool_decide_eq_false_2; [reflexivity |].
        intros Hin. repeat (apply elem_of_cons in Hin as [Hin | Hin]; [congruence |]).
        inversion Hin.
Qed.

(** X28 (endTurn, next-turn timeout): without powers and relics, the
    next turn does not start if the player had no HP left when the turn
    was ended; otherwise the phase returns to the player, energy is reset
    to the maximum, block to 0, the HP is unchanged, three cards are drawn,
    vulnerable, weak and frail of the player and poison, vulnerable and
    weak of the enemy lose one stack unless they are 0 while every other
    counter (burn, strength, ...) keeps its value, the enemy's block is
    reset to 0 and its next attack is 5 + floor(1.5 * level) plus 0 to
    3. *)
Theorem X28_next_turn :
  forall (o : Oracle) (c s : GameState),
    oracle_ok o ->
    p_powers (player c) = [] -> p_relics (player c) = [] ->
    let s' := nextTurn o c s in
    (jgt (p_currentHp (player c)) (Num 0) = false -> s' = s) /\
    (jgt (p_currentHp (player c)) (Num 0) = true ->
       phase s' = BATTLE_PLAYER_TURN /\
       player s' = drawCards_upd o (Num 3) (decayPlayer (player s)) /\
       p_energy (player s') = p_maxEnergy (player s) /\
       p_block (player s') = Num 0 /\
       p_currentHp (player s') = p_currentHp (player s) /\
       (forall k, p_statuses (player s') !! k =
                  if bool_decide (k ∈ ["vulnerable"; "weak"; "frail"])
                  then decremented <$> p_statuses (player s) !! k
                  else p_statuses (player s) !! k) /\
       (forall k, e_statuses (enemy s') !! k =
                  if bool_decide (k ∈ ["poison"; "vulnerable"; "weak"])
                  then decremented <$> e_statuses (enemy s) !! k
                  else e_statuses (enemy s) !! k) /\
       e_block (enemy s') = Num 0 /\
       e_currentHp (enemy s') = e_currentHp (enemy s) /\
       exists d, e_nextMoveDamage (enemy s') = Num d /\
                 5 + 3 * level c / 2 <= d <= 8 + 3 * level c / 2).
Proof.
  intros o c s (_ & H0 & H1) Hpow Hrel s'. subst s'. unfold nextTurn. split.
  - intros ->. reflexivity.
  - intros ->. cbn [when]. cbv zeta. unfold batch. cbn [foldl].
    rewrite triggerPlayerPowers_none by exact Hpow.
    unfold processRelicTrigger, forEach. rewrite Hrel. cbn [foldl].
    pose proof (floor_roll (random o) 4 ltac:(lia) H0 H1) as Hf.
    change (inject_Z 4) with 4%Q in Hf.
    set (fl := Qfloor (random o * 4)) in *. clearbody fl.
    assert (Hvit : forall p, p_energy (drawCards_upd o (Num 3) p) = p_energy p /\
                             p_block (drawCards_upd o (Num 3) p) = p_block p /\
                             p_currentHp (drawCards_upd o (Num 3) p) = p_currentHp p /\
                             p_statuses (drawCards_upd o (Num 3) p) = p_statuses p).
    { intros p. unfold drawCards_upd.
      destruct (MAX_HAND_SIZE <=? _); [repeat split |].
      destruct (jle _ _); [repeat split |].
      destruct (draw_loop _ _ _ _ _) as [[h d] x]. repeat split. }
    destruct (Hvit (decayPlayer (player s))) as (Ve & Vb & Vh & Vs).
    split; [reflexivity |]. split; [reflexivity |].
    cbn [player enemy setPhase setEnemy setPlayer drawCards set_phase set_enemy set_player].
    change CARDS_PER_TURN with 3.
    split; [rewrite Ve; reflexivity |]. split; [rewrite Vb; reflexivity |].
    split; [rewrite Vh; reflexivity |]. split.
    { intros k. rewrite Vs. cbn [decayPlayer p_statuses set_p_energy set_p_block set_p_statuses].
      unfold decayPlayer. cbn.
      rewrite decrement3_lookup by discriminate. reflexivity. }
    split.
    { intros k. cbn. rewrite decrement3_lookup by discriminate. reflexivity. }
    split; [reflexivity |]. split; [reflexivity |].
    eexists. split; [reflexivity |]. lia.
Qed.

Lemma X28_witness :
  p_block (player (nextTurn identity_oracle late_turn late_turn)) = Num 0 /\
  p_energy (player (nextTurn identity_oracle late_turn late_turn)) = Num 3 /\
  p_statuses (player (nextTurn identity_oracle late_turn late_turn)) !! "weak"
  = Some (Num 0) /\
  p_statuses (player (nextTurn identity_oracle late_turn late_turn)) !! "strength"
  = Some (Num 2).
Proof.
  destruct (X28_next_turn identity_oracle late_turn late_turn) as [_ Hturn];
    [apply identity_oracle_ok | reflexivity | reflexivity |].
  destruct (Hturn eq_refl) as (_ & _ & He & Hb & _ & Hst & _).
  split; [exact Hb |]. split; [exact He |].
  split; rewrite Hst; reflexivity.
Defined.

End SpireUpdates.

(* ===================================================================== *)
(** * Theorems: AI Alchemy, reaction cache *)
(* ===================================================================== *)

Section AlchemyCache.
Import Alchemy.

(** ** What each step does to the cache and to the pending set *)

Lemma elem_of_set_add (k x : string) (l : list string) :
  x ∈ set_add k l <-> x = k \/ x ∈ l.
Proof.
  unfold set_add. case_bool_decide as Hk.
  - split; [auto | intros [-> | H]; assumption].
  - rewrite elem_of_app, list_elem_of_singleton. tauto.
Qed.

Lemma elem_of_set_delete (k x : string) (l : list string) :
  x ∈ set_delete k l -> x ∈ l.
Proof. unfold set_delete. rewrite list_elem_of_filter. tauto. Qed.

(** [queueReaction] never removes a cache entry, and adds a key to the
    pending set only if that key is not cached. *)
Lemma queueReaction_cache i id1 id2 s :
  reactionsCache (queueReaction i id1 id2 s) = reactionsCache s.
Proof.
  unfold queueReaction.
  destruct (id1 =? id2); [reflexivity |].
  destruct (reactionsCache s !! pairKey id1 id2) as [res |].
  - destruct (0 <? res); reflexivity.
  - match goal with |- context [if ?b then _ else _] => destruct b end; reflexivity.
Qed.

Lemma queueReaction_pending i id1 id2 s k :
  k ∈ pendingReactions (queueReaction i id1 id2 s) ->
  k ∈ pendingReactions s \/ (k = pairKey id1 id2 /\ reactionsCache s !! k = None).
Proof.
  unfold queueReaction.
  destruct (id1 =? id2); [auto |].
  destruct (reactionsCache s !! pairKey id1 id2) as [res |] eqn:Hc.
  - destruct (0 <? res); cbn; auto.
  - match goal with |- context [if ?b then _ else _] => destruct b end; cbn; auto.
    rewrite elem_of_set_add. intros [-> | H]; auto.
Qed.

(** On a cached pair [queueReaction] leaves the pending set alone. *)
Lemma queueReaction_cached i id1 id2 s res :
  reactionsCache s !! pairKey id1 id2 = Some res ->
  pendingReactions (queueReaction i id1 id2 s) = pendingReactions s.
Proof.
  intros Hc. unfold queueReaction.
  destruct (id1 =? id2); [reflexivity |].
  rewrite Hc. destruct (0 <? res); reflexivity.
Qed.

Lemma ignore_cache_mono id1 id2 s k :
  k ∈ dom (reactionsCache s) -> k ∈ dom (reactionsCache (ignore id1 id2 s)).
Proof.
  unfold ignore. destruct id1, id2; cbn; try tauto.
  rewrite dom_insert. set_solver.
Qed.

Lemma ignore_pending id1 id2 s :
  pendingReactions (ignore id1 id2 s) = pendingReactions s.
Proof. unfold ignore. destruct id1, id2; reflexivity. Qed.

(** Folding a step function that keeps both properties keeps them. *)
Lemma foldl_keeps {A} (f : Sandbox -> A -> Sandbox) (l : list A) k s :
  (forall s x, k ∈ dom (reactionsCache s) ->
               k ∈ dom (reactionsCache (f s x)) /\
               pendingReactions (f s x) = pendingReactions s) ->
  k ∈ dom (reactionsCache s) ->
  k ∈ dom (reactionsCache (foldl f s l)) /\
  pendingReactions (foldl f s l) = pendingReactions s.
Proof.
  intros Hf. revert s. induction l as [| x l IH]; intros s Hk; cbn.
  - auto.
  - destruct (Hf s x Hk) as [Hk' Hp'].
    destruct (IH _ Hk') as [Hk'' Hp'']. split; [exact Hk'' | congruence].
Qed.

Lemma elementsEffect_keeps elements s k :
  k ∈ dom (reactionsCache s) ->
  k ∈ dom (reactionsCache (elementsEffect elements s)) /\
  pendingReactions (elementsEffect elements s) = pendingReactions s.
Proof.
  intros Hk. unfold elementsEffect.
  set (s1 := foldl _ s (map_to_list (pendingResolution s))).
  assert (H1 : k ∈ dom (reactionsCache s1) /\ pendingReactions s1 = pendingReactions s).
  { subst s1. apply foldl_keeps; [| exact Hk].
    intros s0 [key name] Hk0.
    destruct (find_by_name_ci elements name); cbn; [| auto].
    split; [| reflexivity]. rewrite dom_insert. set_solver. }
  destruct H1 as [Hk1 Hp1]. cbv zeta.
  set (s2 := ignore _ _ (ignore _ _ (ignore _ _ (ignore _ _ (ignore _ _ (ignore _ _ s1)))))).
  assert (H2 : k ∈ dom (reactionsCache s2) /\ pendingReactions s2 = pendingReactions s).
  { subst s2. split.
    - do 6 apply ignore_cache_mono. exact Hk1.
    - rewrite !ignore_pending. exact Hp1. }
  destruct H2 as [Hk2 Hp2].
  destruct (getId elements "Water") as [w |]; [| auto].
  rewrite <- Hp2. apply foldl_keeps; [| exact Hk2].
  intros s0 elem Hk0. case_bool_decide.
  - split; [apply ignore_cache_mono, Hk0 | apply ignore_pending].
  - auto.
Qed.

(** No step forgets a cache entry, and no step puts a cached key into the
    pending set. *)
Lemma sandbox_step_keeps s s' k :
  sandbox_step s s' ->
  k ∈ dom (reactionsCache s) ->
  k ∈ dom (reactionsCache s') /\
  (k ∈ pendingReactions s' -> k ∈ pendingReactions s).
Proof.
  intros Hstep Hk. destruct Hstep as [s | i id1 id2 s | elements key s
                                      | elements key d s | elements s | s].
  - split; [exact Hk | auto].
  - split; [rewrite queueReaction_cache; exact Hk |].
    intros Hin. apply queueReaction_pending in Hin as [H | [_ Hnone]]; [exact H |].
    apply elem_of_dom in Hk as [v Hv]. congruence.
  - unfold dispatchKey. cbv zeta.
    repeat match goal with
           | |- context [if ?b then _ else _] => destruct b
           | |- context [match ?x with _ => _ end] => destruct x
           end; cbn; (split; [exact Hk | apply elem_of_set_delete]).
  - unfold resolveKey.
    destruct d as [name | | |]; cbn;
      try destruct (find_by_name_ci elements name); cbn;
      (split; [try rewrite dom_insert; set_solver | auto]).
  - destruct (elementsEffect_keeps elements s k Hk) as [Hk' Hp'].
    split; [exact Hk' | rewrite Hp'; auto].
  - split; [exact Hk | auto].
Qed.

Lemma cache_entries_stay s s' k :
  rtc sandbox_step s s' ->
  k ∈ dom (reactionsCache s) -> k ∈ dom (reactionsCache s').
Proof.
  induction 1 as [s | s s1 s2 Hstep _ IH]; intros Hk.
  - exact Hk.
  - apply IH. apply (sandbox_step_keeps s s1 k Hstep Hk).
Qed.

(** The value a cell of the next grid holds after a store of an id that
    fits 32 bits. *)
Lemma toInt32_small (z : Z) : 0 <= z < 2 ^ 31 -> toInt32 z = z.
Proof.
  intros H. unfold toInt32. rewrite Z.mod_small by lia. lia.
Qed.

(** C7: once the reaction cache maps a pair key to 0, the key stays cached
    through every later step of the bookkeeping, no later step adds it to
    the pending set, and a queueReaction on that pair leaves the pending
    set as it is; and a cached positive result turns the current cell of
    the next grid into the cached element id, with mass 1. *)
Theorem C7_reaction_cache_determinism :
  forall (s : Sandbox) (k : string),
    reactionsCache s !! k = Some 0 ->
    (forall s', rtc sandbox_step s s' ->
       k ∈ dom (reactionsCache s') /\
       (forall i id1 id2, pairKey id1 id2 = k ->
          pendingReactions (queueReaction i id1 id2 s') = pendingReactions s') /\
       (forall s'', sandbox_step s' s'' ->
          k ∈ pendingReactions s'' -> k ∈ pendingReactions s')) /\
    (forall (t : Sandbox) (i : nat) (id1 id2 res : Z),
       id1 <> id2 ->
       reactionsCache t !! pairKey id1 id2 = Some res -> 0 < res ->
       nextGrid (queueReaction i id1 id2 t) = <[i := toInt32 res]> (nextGrid t) /\
       nextDensity (queueReaction i id1 id2 t) = <[i := 1%Q]> (nextDensity t) /\
       pendingReactions (queueReaction i id1 id2 t) = pendingReactions t /\
       (res < 2 ^ 31 -> (i < length (nextGrid t))%nat ->
        nextGrid (queueReaction i id1 id2 t) !! i = Some res)).
Proof.
  intros s k Hzero.
  assert (Hs : k ∈ dom (reactionsCache s)) by (apply elem_of_dom; eauto).
  split.
  - intros s' Hreach.
    pose proof (cache_entries_stay s s' k Hreach Hs) as Hk.
    split; [exact Hk |]. split.
    + intros i id1 id2 <-. apply elem_of_dom in Hk as [v Hv].
      eapply queueReaction_cached. exact Hv.
    + intros s'' Hstep. apply (sandbox_step_keeps s' s'' k Hstep Hk).
  - intros t i id1 id2 res Hne Hc Hpos.
    assert (Hq : queueReaction i id1 id2 t = set_cell i (toInt32 res) 1 t).
    { unfold queueReaction.
      rewrite (proj2 (Z.eqb_neq id1 id2) Hne), Hc.
      rewrite (proj2 (Z.ltb_lt 0 res) Hpos). reflexivity. }
    rewrite Hq. cbn. repeat split.
    intros Hsmall Hi. rewrite toInt32_small by lia.
    apply list_lookup_insert_eq. exact Hi.
Qed.

(** After another pair resolved, element 2 next to element 1 queues
    nothing; element 1 next to element 3 turns cell 2 into element 4. *)
Lemma C7_witness :
  pendingReactions
    (queueReaction 0 2 1 (resolveKey [] "5:6" NoReaction c7_sandbox)) = [] /\
  nextGrid (queueReaction 2 1 3 c7_sandbox) !! 2%nat = Some 4.
Proof.
  destruct (C7_reaction_cache_determinism c7_sandbox "1:2" eq_refl) as [Hfut Hpos].
  split.
  - destruct (Hfut (resolveKey [] "5:6" NoReaction c7_sandbox)) as (_ & Hq & _).
    + apply rtc_once. apply step_resolve.
    + rewrite (Hq 0%nat 2 1 eq_refl). reflexivity.
  - destruct (Hpos c7_sandbox 2%nat 1 3 4) as (_ & _ & _ & Hcell).
    + discriminate.
    + reflexivity.
    + reflexivity.
    + apply Hcell; [reflexivity | cbn; lia].
Defined.

(** ** Element discovery, the request queue and the grid *)

(** *** Element discovery *)

Lemma foldl_max_ge (m : Z) (l : list Z) :
  m <= foldl Z.max m l /\ Forall (fun x => x <= foldl Z.max m l) l.
Proof.
  revert m. induction l as [| x l IH]; intros m; cbn.
  - split; [lia | constructor].
  - destruct (IH (Z.max m x)) as [H1 H2]. split; [lia |].
    constructor; [lia | exact H2].
Qed.

Lemma maxId_bound prev m :
  maxId prev = Some m -> Forall (fun e => elem_id e <= m) prev.
Proof.
  destruct prev as [| e rest]; [discriminate |]. intros [= <-].
  destruct (foldl_max_ge (elem_id e) (elem_id <$> rest)) as [H1 H2].
  constructor; [exact H1 |]. rewrite Forall_fmap in H2. exact H2.
Qed.

Lemma find_by_name_ci_app_new prev name e :
  find_by_name_ci prev name = None -> elem_name e = name ->
  find_by_name_ci (prev ++ [e]) name = Some e.
Proof.
  unfold find_by_name_ci. intros Hnone <-.
  induction prev as [| x prev IH]; cbn in *.
  - rewrite String.eqb_refl. reflexivity.
  - destruct (String.eqb _ _); [discriminate |]. apply IH, Hnone.
Qed.

(** X15 (handleElementDiscovery): on a non-empty element list, registering
    a discovered name yields a list that contains the name (compared
    without case), and registering it again changes nothing; no element is
    ever removed, distinct ids stay distinct, and a new element is appended
    at the end with an id greater than every existing id. *)
Theorem X15_element_discovery :
  forall (name : string) (physics : PhysicsType) (prev : list ElementDef),
    prev <> [] ->
    exists next,
      handleElementDiscovery name physics prev = Some next /\
      (exists e, find_by_name_ci next name = Some e) /\
      handleElementDiscovery name physics next = Some next /\
      (forall e, e ∈ prev -> e ∈ next) /\
      (NoDup (elem_id <$> prev) -> NoDup (elem_id <$> next)) /\
      (find_by_name_ci prev name = None ->
       exists e, next = (prev ++ [e])%list /\ elem_name e = name /\
                 Forall (fun e' => elem_id e' < elem_id e) prev).
Proof.
  intros name physics prev Hne. unfold handleElementDiscovery at 1.
  destruct (find_by_name_ci prev name) as [e0 |] eqn:Hfind.
  - exists prev. split; [reflexivity |]. split; [eauto |].
    split; [unfold handleElementDiscovery; rewrite Hfind; reflexivity |].
    split; [auto |]. split; [auto | discriminate].
  - destruct (maxId prev) as [m |] eqn:Hmax;
      [| destruct prev; [congruence | discriminate]].
    set (e := {| elem_id := m + 1; elem_name := name; elem_physics := physics |}).
    pose proof (maxId_bound prev m Hmax) as Hbound.
    exists (prev ++ [e])%list. split; [reflexivity |].
    pose proof (find_by_name_ci_app_new prev name e Hfind eq_refl) as Hnew.
    split; [eauto |].
    split; [unfold handleElementDiscovery; rewrite Hnew; reflexivity |].
    split; [intros e' He'; apply elem_of_app; left; exact He' |].
    assert (Hlt : Forall (fun e' => elem_id e' < elem_id e) prev).
    { eapply Forall_impl; [exact Hbound |]. intros e' He'. unfold e. cbn in *. lia. }
    split.
    + intros Hnd. rewrite fmap_app. apply NoDup_app. split; [exact Hnd |].
      split; [| cbn; apply NoDup_singleton].
      intros x Hx Hx'. cbn in Hx'. apply list_elem_of_singleton in Hx'. subst x.
      apply list_elem_of_fmap in Hx as (e' & He & Hin).
      rewrite Forall_forall in Hlt. specialize (Hlt e' Hin). unfold e in *. cbn in *. lia.
    + intros _. exists e. split; [reflexivity |]. split; [reflexivity | exact Hlt].
Qed.

Lemma X15_witness :
  exists next,
    handleElementDiscovery "Steam" GAS basic_elements = Some next /\
    handleElementDiscovery "Steam" GAS next = Some next.
Proof.
  destruct (X15_element_discovery "Steam" GAS basic_elements)
    as (next & H1 & _ & H2 & _); [discriminate |].
  exists next. split; [exact H1 | exact H2].
Defined.

(** *** The pending set *)

Lemma set_add_NoDup k l : NoDup l -> NoDup (set_add k l).
Proof.
  intros H. unfold set_add. case_bool_decide as Hk; [exact H |].
  apply NoDup_app. split; [exact H |]. split; [| apply NoDup_singleton].
  intros x Hx Hx'. apply list_elem_of_singleton in Hx'. subst. contradiction.
Qed.

Lemma set_delete_ok k l :
  NoDup l -> NoDup (set_delete k l) /\ (length (set_delete k l) <= length l)%nat.
Proof.
  intros H. unfold set_delete. split; [apply NoDup_filter, H | apply length_filter].
Qed.

Lemma queueReaction_pending_ok i id1 id2 s :
  pending_ok s -> pending_ok (queueReaction i id1 id2 s).
Proof.
  intros [Hnd Hlen]. unfold queueReaction.
  destruct (id1 =? id2); [split; assumption |].
  destruct (reactionsCache s !! pairKey id1 id2) as [res |].
  - destruct (0 <? res); split; assumption.
  - match goal with |- context [if ?b then _ else _] => destruct b eqn:Hb end;
      [| split; assumption].
    rewrite !andb_true_iff in Hb. destruct Hb as [_ Hsize].
    apply Z.ltb_lt in Hsize. unfold pending_ok. cbn.
    split; [apply set_add_NoDup, Hnd |].
    unfold set_add. case_bool_decide; [exact Hlen |].
    rewrite length_app. cbn. unfold MAX_QUEUE_SIZE in *. lia.
Qed.

Lemma dispatchKey_pending_ok elements key s :
  pending_ok s -> pending_ok (fst (dispatchKey elements key s)).
Proof.
  intros [Hnd Hlen]. destruct (set_delete_ok key _ Hnd) as [Hnd' Hlen'].
  unfold dispatchKey. cbv zeta.
  repeat match goal with
         | |- context [if ?b then _ else _] => destruct b
         | |- context [match ?x with _ => _ end] => destruct x
         end; unfold pending_ok; cbn -[set_delete]; (split; [exact Hnd' | lia]).
Qed.

Lemma pending_ok_same s s' :
  pendingReactions s' = pendingReactions s -> pending_ok s -> pending_ok s'.
Proof. unfold pending_ok. intros ->. auto. Qed.

Lemma elementsEffect_pending elements s :
  pendingReactions (elementsEffect elements s) = pendingReactions s.
Proof.
  unfold elementsEffect.
  set (s1 := foldl _ s (map_to_list (pendingResolution s))).
  assert (H1 : pendingReactions s1 = pendingReactions s).
  { subst s1. generalize (map_to_list (pendingResolution s)). intros l.
    revert s. induction l as [| [key name] l IH]; intros s; [reflexivity |].
    cbn [foldl]. rewrite IH. destruct (find_by_name_ci elements name); reflexivity. }
  cbv zeta.
  set (s2 := ignore _ _ (ignore _ _ (ignore _ _ (ignore _ _ (ignore _ _ (ignore _ _ s1)))))).
  assert (H2 : pendingReactions s2 = pendingReactions s).
  { subst s2. rewrite !ignore_pending. exact H1. }
  destruct (getId elements "Water") as [w |]; [| exact H2].
  rewrite <- H2. generalize s2. clear. intros s2.
  induction elements as [| elem l IH] in s2 |- *; [reflexivity |].
  cbn [foldl]. rewrite IH. case_bool_decide; [apply ignore_pending | reflexivity].
Qed.

(** X17 (queueReaction, processReactions): from a sandbox whose pending
    set holds no key twice and at most 50 keys, whatever sequence of
    bookkeeping steps runs, the pending set still holds no key twice and
    at most 50 keys. *)
Theorem X17_pending_queue_is_bounded :
  forall s s' : Sandbox,
    pending_ok s -> rtc sandbox_step s s' ->
    NoDup (pendingReactions s') /\
    Z.of_nat (length (pendingReactions s')) <= 50.
Proof.
  intros s s' Hs Hrun. induction Hrun as [s | s s1 s2 Hstep _ IH]; [exact Hs |].
  apply IH. clear IH. destruct Hstep as [s | i id1 id2 s | elements key s
                                         | elements key d s | elements s | s].
  - exact Hs.
  - apply queueReaction_pending_ok, Hs.
  - apply dispatchKey_pending_ok, Hs.
  - eapply pending_ok_same; [| exact Hs]. unfold resolveKey.
    destruct d as [name | | |]; cbn; try destruct (find_by_name_ci elements name);
      reflexivity.
  - eapply pending_ok_same; [apply elementsEffect_pending | exact Hs].
  - exact Hs.
Qed.

Lemma X17_witness :
  Z.of_nat (length (pendingReactions (queueReaction 0 5 6 c7_sandbox))) <= 50.
Proof.
  destruct (X17_pending_queue_is_bounded c7_sandbox (queueReaction 0 5 6 c7_sandbox))
    as [_ Hlen].
  - split; [apply NoDup_nil_2 | vm_compute; discriminate].
  - apply rtc_once. apply step_queueReaction.
  - exact Hlen.
Defined.

(** *** Requests in flight *)

Lemma same_inflight_refl s : same_inflight s s.
Proof. split; reflexivity. Qed.

Lemma same_inflight_trans s1 s2 s3 :
  same_inflight s1 s2 -> same_inflight s2 s3 -> same_inflight s1 s3.
Proof. intros [A B] [C D]. split; congruence. Qed.

Lemma ignore_inflight id1 id2 s : same_inflight s (ignore id1 id2 s).
Proof. unfold ignore. destruct id1, id2; split; reflexivity. Qed.

Lemma foldl_same_inflight {A} (f : Sandbox -> A -> Sandbox) (l : list A) s :
  (forall s x, same_inflight s (f s x)) -> same_inflight s (foldl f s l).
Proof.
  intros Hf. revert s. induction l as [| x l IH]; intros s; cbn.
  - apply same_inflight_refl.
  - eapply same_inflight_trans; [apply Hf | apply IH].
Qed.

Lemma elementsEffect_inflight elements s :
  same_inflight s (elementsEffect elements s).
Proof.
  unfold elementsEffect. cbv zeta.
  set (s1 := foldl _ s (map_to_list (pendingResolution s))).
  assert (H1 : same_inflight s s1).
  { subst s1. apply foldl_same_inflight. intros s0 [key name].
    destruct (find_by_name_ci elements name); split; reflexivity. }
  set (s2 := ignore _ _ (ignore _ _ (ignore _ _ (ignore _ _ (ignore _ _ (ignore _ _ s1)))))).
  assert (H2 : same_inflight s s2).
  { subst s2. repeat (eapply same_inflight_trans; [| apply ignore_inflight]). exact H1. }
  destruct (getId elements "Water") as [w |]; [| exact H2].
  eapply same_inflight_trans; [exact H2 |].
  apply foldl_same_inflight. intros s0 elem.
  case_bool_decide; [apply ignore_inflight | apply same_inflight_refl].
Qed.

Lemma queueReaction_inflight i id1 id2 s :
  same_inflight s (queueReaction i id1 id2 s).
Proof.
  unfold queueReaction.
  repeat match goal with
         | |- context [if ?b then _ else _] => destruct b
         | |- context [match ?x with _ => _ end] => destruct x
         end; split; reflexivity.
Qed.

Lemma dispatchKey_inflight elements key s :
  activeRequestCount s = Z.of_nat (size (inflightReactions s)) ->
  let s' := fst (dispatchKey elements key s) in
  activeRequestCount s' = Z.of_nat (size (inflightReactions s')) /\
  activeRequestCount s' <= activeRequestCount s + 1.
Proof.
  intros Hc. unfold dispatchKey. cbv zeta.
  cbn [reactionsCache pendingResolution inflightReactions set_pending].
  destruct (bool_decide (key ∈ dom (reactionsCache s))
            || bool_decide (key ∈ dom (pendingResolution s))
            || bool_decide (key ∈ inflightReactions s))%bool eqn:Hskip.
  { cbn. split; [exact Hc | lia]. }
  rewrite !orb_false_iff in Hskip. destruct Hskip as [_ Hnin].
  apply bool_decide_eq_false in Hnin.
  assert (Hsz : size ({[key]} ∪ inflightReactions s) = S (size (inflightReactions s))).
  { rewrite size_union by (apply disjoint_singleton_l; exact Hnin).
    rewrite size_singleton. reflexivity. }
  assert (Hdel : ({[key]} ∪ inflightReactions s) ∖ {[key]} = inflightReactions s).
  { rewrite difference_union_distr_l_L, difference_diag_L, union_empty_l_L.
    apply difference_disjoint_L. apply disjoint_singleton_r. exact Hnin. }
  repeat match goal with
         | |- context [match ?x with _ => _ end] => destruct x
         end; cbn; rewrite ?Hdel, ?Hsz; split; lia.
Qed.

Lemma processReactions_inflight elements s :
  inflight_ok s -> inflight_ok (processReactions elements s).
Proof.
  intros [Hc Hmax]. unfold processReactions.
  destruct (isRateLimited s); [split; assumption |].
  destruct (MAX_CONCURRENT_REQUESTS <=? activeRequestCount s) eqn:Hfull;
    [split; assumption |].
  apply Z.leb_gt in Hfull. cbv zeta.
  set (keys := take _ (pendingReactions s)).
  assert (Hlen : Z.of_nat (length keys) <= MAX_CONCURRENT_REQUESTS - activeRequestCount s).
  { subst keys. rewrite length_take. lia. }
  clearbody keys.
  assert (Hgen : forall l s0,
            activeRequestCount s0 = Z.of_nat (size (inflightReactions s0)) ->
            let s1 := foldl (fun s k => fst (dispatchKey elements k s)) s0 l in
            activeRequestCount s1 = Z.of_nat (size (inflightReactions s1)) /\
            activeRequestCount s1 <= activeRequestCount s0 + Z.of_nat (length l)).
  { induction l as [| k l IH]; intros s0 H0; cbn [foldl length].
    - split; [exact H0 | lia].
    - destruct (dispatchKey_inflight elements k s0 H0) as [H1 H2].
      destruct (IH _ H1) as [H3 H4]. split; [exact H3 | lia]. }
  destruct (Hgen keys s Hc) as [H1 H2]. split; [exact H1 | lia].
Qed.

Lemma resolveKey_inflight elements key d s :
  key ∈ inflightReactions s -> inflight_ok s -> inflight_ok (resolveKey elements key d s).
Proof.
  intros Hin [Hc Hmax].
  assert (Hsz : size (inflightReactions s) = S (size (inflightReactions s ∖ {[key]}))).
  { rewrite (union_difference_L {[key]} (inflightReactions s)) at 1
      by (apply singleton_subseteq_l; exact Hin).
    rewrite size_union by (apply disjoint_difference_r1; reflexivity).
    rewrite size_singleton. reflexivity. }
  unfold resolveKey, cleanup, inflight_ok.
  destruct d as [name | | |]; cbn; try destruct (find_by_name_ci elements name);
    cbn; split; lia.
Qed.

Lemma inflight_ok_same s s' : same_inflight s s' -> inflight_ok s -> inflight_ok s'.
Proof. intros [A B] [C D]. unfold inflight_ok. rewrite A, B. auto. Qed.



(** *** Pending element names *)

Lemma resolve_entries_other elements l s k :
  k ∉ l.*1 ->
  reactionsCache (foldl (resolve_entry elements) s l) !! k = reactionsCache s !! k /\
  pendingResolution (foldl (resolve_entry elements) s l) !! k = pendingResolution s !! k.
Proof.
  revert s. induction l as [| [key name] l IH]; intros s Hk; [split; reflexivity |].
  rewrite fmap_cons, not_elem_of_cons in Hk. destruct Hk as [Hne Hk]. cbn in Hne.
  cbn [foldl]. destruct (IH (resolve_entry elements s (key, name)) Hk) as [H1 H2].
  rewrite H1, H2. unfold resolve_entry.
  destruct (find_by_name_ci elements name); cbn; [| split; reflexivity].
  rewrite lookup_insert_ne, lookup_delete_ne by congruence. split; reflexivity.
Qed.

Lemma resolve_entries_found elements l s k name e :
  NoDup l.*1 -> (k, name) ∈ l -> find_by_name_ci elements name = Some e ->
  reactionsCache (foldl (resolve_entry elements) s l) !! k = Some (elem_id e) /\
  pendingResolution (foldl (resolve_entry elements) s l) !! k = None.
Proof.
  revert s. induction l as [| [key0 name0] l IH]; intros s Hnd Hin Hfind;
    [inversion Hin |].
  rewrite fmap_cons in Hnd. apply NoDup_cons in Hnd as [Hnew Hnd]. cbn in Hnew.
  apply elem_of_cons in Hin as [[= <- <-] | Hin].
  - cbn [foldl].
    destruct (resolve_entries_other elements l (resolve_entry elements s (k, name)) k Hnew)
      as [H1 H2].
    rewrite H1, H2. unfold resolve_entry. rewrite Hfind. cbn.
    rewrite lookup_insert_eq, lookup_delete_eq. split; reflexivity.
  - cbn [foldl]. apply IH; assumption.
Qed.

Lemma ignore_resolution id1 id2 s :
  pendingResolution (ignore id1 id2 s) = pendingResolution s.
Proof. unfold ignore. destruct id1, id2; reflexivity. Qed.

Lemma ignore_cache_value id1 id2 s k v :
  reactionsCache s !! k = Some v ->
  reactionsCache (ignore id1 id2 s) !! k = Some v \/
  reactionsCache (ignore id1 id2 s) !! k = Some 0.
Proof.
  intros H. unfold ignore. destruct id1 as [a |], id2 as [b |]; cbn; auto.
  destruct (decide (pairKey a b = k)) as [<- | Hne].
  - right. apply lookup_insert_eq.
  - left. rewrite lookup_insert_ne by exact Hne. exact H.
Qed.

Lemma ignore_cache_value2 id1 id2 s k v :
  reactionsCache s !! k = Some v \/ reactionsCache s !! k = Some 0 ->
  reactionsCache (ignore id1 id2 s) !! k = Some v \/
  reactionsCache (ignore id1 id2 s) !! k = Some 0.
Proof.
  intros [H | H]; [apply ignore_cache_value, H |].
  right. destruct (ignore_cache_value id1 id2 s k 0 H); assumption.
Qed.

Lemma elementsEffect_resolves :
  forall (elements : list ElementDef) (s : Sandbox) (key name : string)
         (e : ElementDef),
    pendingResolution s !! key = Some name ->
    find_by_name_ci elements name = Some e ->
    let s' := elementsEffect elements s in
    pendingResolution s' !! key = None /\
    (reactionsCache s' !! key = Some (elem_id e) \/
     reactionsCache s' !! key = Some 0) /\
    pendingReactions s' = pendingReactions s.
Proof.
  intros elements s key name e Hpend Hfind s'.
  split; [| split; [| apply elementsEffect_pending]].
  - subst s'. unfold elementsEffect. cbv zeta.
    set (s1 := foldl _ s (map_to_list (pendingResolution s))).
    assert (H1 : pendingResolution s1 !! key = None).
    { subst s1.
      apply (resolve_entries_found elements (map_to_list (pendingResolution s))
               s key name e).
      - apply NoDup_fst_map_to_list.
      - apply elem_of_map_to_list. exact Hpend.
      - exact Hfind. }
    set (s2 := ignore _ _ (ignore _ _ (ignore _ _ (ignore _ _ (ignore _ _ (ignore _ _ s1)))))).
    assert (H2 : pendingResolution s2 = pendingResolution s1).
    { subst s2. rewrite !ignore_resolution. reflexivity. }
    destruct (getId elements "Water") as [w |]; [| rewrite H2; exact H1].
    rewrite <- H2 in H1. revert H1. generalize s2. clear.
    induction elements as [| elem l IH]; intros s2 H; [exact H |].
    cbn [foldl]. apply IH. case_bool_decide; [rewrite ignore_resolution |]; exact H.
  - subst s'. unfold elementsEffect. cbv zeta.
    set (s1 := foldl _ s (map_to_list (pendingResolution s))).
    assert (H1 : reactionsCache s1 !! key = Some (elem_id e)).
    { subst s1.
      apply (resolve_entries_found elements (map_to_list (pendingResolution s))
               s key name e).
      - apply NoDup_fst_map_to_list.
      - apply elem_of_map_to_list. exact Hpend.
      - exact Hfind. }
    set (s2 := ignore _ _ (ignore _ _ (ignore _ _ (ignore _ _ (ignore _ _ (ignore _ _ s1)))))).
    assert (H2 : reactionsCache s2 !! key = Some (elem_id e) \/
                 reactionsCache s2 !! key = Some 0).
    { subst s2. do 6 apply ignore_cache_value2. left. exact H1. }
    destruct (getId elements "Water") as [w |]; [| exact H2].
    revert H2. generalize s2. generalize (elem_id e). clear.
    induction elements as [| elem l IH]; intros v s2 H; [exact H |].
    cbn [foldl]. apply IH. case_bool_decide; [apply ignore_cache_value2 |]; exact H.
Qed.

(** X16 (performDiscovery, handleElementDiscovery and the elements
    effect): when a request proposes an element name that is not yet known,
    the pair is parked under that name without touching the cache; once
    the element is registered and the elements effect runs, the pair is no
    longer parked and the cache holds for it the id of the new element (or
    0 if the pair is one of the pairs the effect always ignores). *)
Theorem X16_discovered_element_resolves_pending_key :
  forall (elements : list ElementDef) (s : Sandbox) (key name : string)
         (physics : PhysicsType),
    elements <> [] ->
    find_by_name_ci elements name = None ->
    let s1 := resolveKey elements key (Proposed name) s in
    pendingResolution s1 !! key = Some name /\
    reactionsCache s1 = reactionsCache s /\
    exists elements' e,
      handleElementDiscovery name physics elements = Some elements' /\
      find_by_name_ci elements' name = Some e /\
      Forall (fun e' => elem_id e' < elem_id e) elements /\
      let s2 := elementsEffect elements' s1 in
      pendingResolution s2 !! key = None /\
      (reactionsCache s2 !! key = Some (elem_id e) \/
       reactionsCache s2 !! key = Some 0).
Proof.
  intros elements s key name physics Hne Hnew s1.
  assert (H1 : pendingResolution s1 !! key = Some name).
  { subst s1. unfold resolveKey. rewrite Hnew. cbn. apply lookup_insert_eq. }
  split; [exact H1 |]. split.
  { subst s1. unfold resolveKey. rewrite Hnew. reflexivity. }
  unfold handleElementDiscovery. rewrite Hnew.
  destruct (maxId elements) as [m |] eqn:Hmax;
    [| destruct elements; [congruence | discriminate]].
  set (e := {| elem_id := m + 1; elem_name := name; elem_physics := physics |}).
  exists (elements ++ [e])%list, e. split; [reflexivity |].
  pose proof (find_by_name_ci_app_new elements name e Hnew eq_refl) as Hfind.
  split; [exact Hfind |]. split.
  { eapply Forall_impl; [apply maxId_bound; exact Hmax |].
    intros e' He'. unfold e. cbn in *. lia. }
  cbv zeta.
  destruct (elementsEffect_resolves (elements ++ [e])%list s1 key name e H1 Hfind)
    as (Hp & Hc & _).
  split; assumption.
Qed.

Lemma X16_witness :
  pendingResolution (resolveKey basic_elements "1:2" (Proposed "Steam") c7_sandbox)
    !! "1:2" = Some "Steam".
Proof.
  destruct (X16_discovered_element_resolves_pending_key basic_elements c7_sandbox
              "1:2" "Steam" GAS) as (Hparked & _);
    [discriminate | reflexivity |].
  exact Hparked.
Defined.

(** *** discoverReaction *)



(** *** The pair key and the grid index *)

(** X20 (queueReaction, pair key): the cache key of a pair of elements
    does not depend on the order of the two, queueing a contact of A with B
    has exactly the effect of queueing B with A, and a contact of an
    element with itself is ignored. *)
Theorem X20_reaction_pairs_are_unordered :
  forall (i : nat) (id1 id2 : Z) (s : Sandbox),
    pairKey id1 id2 = pairKey id2 id1 /\
    queueReaction i id1 id2 s = queueReaction i id2 id1 s /\
    queueReaction i id1 id1 s = s.
Proof.
  intros i id1 id2 s.
  assert (Hk : pairKey id1 id2 = pairKey id2 id1).
  { unfold pairKey. destruct (Z.ltb_spec id1 id2), (Z.ltb_spec id2 id1);
      try reflexivity; try lia.
    assert (id1 = id2) by lia. subst. reflexivity. }
  split; [exact Hk |]. split.
  - unfold queueReaction. rewrite (Z.eqb_sym id2 id1), Hk. reflexivity.
  - unfold queueReaction. rewrite Z.eqb_refl. reflexivity.
Qed.

(** X21 (getIdx): inside the 120 x 100 grid the cell index lies in
    [0, 12000) and determines both coordinates (x is the index modulo the
    width, y the quotient); outside the grid the index is -1; so two
    positions share a valid index only if they are the same position. *)
Theorem X21_grid_index :
  forall x y : Z,
    (0 <= x < GRID_WIDTH -> 0 <= y < GRID_HEIGHT ->
     0 <= getIdx x y < GRID_WIDTH * GRID_HEIGHT /\
     getIdx x y mod GRID_WIDTH = x /\ getIdx x y / GRID_WIDTH = y) /\
    (~ (0 <= x < GRID_WIDTH /\ 0 <= y < GRID_HEIGHT) -> getIdx x y = -1) /\
    (forall x' y', getIdx x y = getIdx x' y' -> getIdx x y <> -1 ->
                   x = x' /\ y = y').
Proof.
  intros x y.
  assert (Hin : forall u v, 0 <= u < GRID_WIDTH -> 0 <= v < GRID_HEIGHT ->
                            getIdx u v = v * GRID_WIDTH + u).
  { intros u v Hu Hv. unfold getIdx.
    destruct (Z.ltb_spec u 0), (Z.leb_spec GRID_WIDTH u),
             (Z.ltb_spec v 0), (Z.leb_spec GRID_HEIGHT v); try lia. reflexivity. }
  assert (Hout : forall u v, ~ (0 <= u < GRID_WIDTH /\ 0 <= v < GRID_HEIGHT) ->
                             getIdx u v = -1).
  { intros u v Hn. unfold getIdx.
    destruct (Z.ltb_spec u 0), (Z.leb_spec GRID_WIDTH u),
             (Z.ltb_spec v 0), (Z.leb_spec GRID_HEIGHT v); try reflexivity.
    exfalso. apply Hn. lia. }
  split; [| split].
  - intros Hx Hy. rewrite (Hin x y Hx Hy). unfold GRID_WIDTH, GRID_HEIGHT in *.
    split; [nia |]. split.
    + rewrite Z.add_comm, Z.mod_add by lia. apply Z.mod_small. lia.
    + rewrite Z.add_comm, Z.div_add by lia. rewrite Z.div_small by lia. lia.
  - apply Hout.
  - intros x' y' Heq Hvalid.
    destruct (decide (0 <= x < GRID_WIDTH /\ 0 <= y < GRID_HEIGHT)) as [[Hx Hy] | Hn];
      [| rewrite (Hout x y Hn) in Hvalid; congruence].
    destruct (decide (0 <= x' < GRID_WIDTH /\ 0 <= y' < GRID_HEIGHT)) as [[Hx' Hy'] | Hn'];
      [| rewrite (Hout x' y' Hn') in Heq; congruence].
    rewrite (Hin x y Hx Hy), (Hin x' y' Hx' Hy') in Heq.
    unfold GRID_WIDTH, GRID_HEIGHT in *. lia.
Qed.

Lemma X21_witness : getIdx 5 7 mod GRID_WIDTH = 5 /\ getIdx 5 7 / GRID_WIDTH = 7.
Proof.
  destruct (X21_grid_index 5 7) as [Hin _].
  destruct Hin as (_ & Hx & Hy);
    [unfold GRID_WIDTH; lia | unfold GRID_HEIGHT; lia |].
  split; [exact Hx | exact Hy].
Defined.

End AlchemyCache.

(* ===================================================================== *)
(** * Theorems: Cosmic Voyager, narration and terrain *)
(* ===================================================================== *)

Section VoyagerTerrain.
Import Voyager.

Lemma str_or_nonempty (x : option string) (d : string) :
  d <> "" -> str_or x d <> "".
Proof.
  intros Hd. unfold str_or. destruct x as [[| c s] |]; cbn; try exact Hd.
  discriminate.
Qed.

Lemma fallback_lookup_none table n :
  n ∉ table.*1 -> fallback_lookup table n = None.
Proof.
  induction table as [| [k v] table IH]; [reflexivity |].
  rewrite fmap_cons, not_elem_of_cons. cbn. intros [Hne Hn].
  destruct (String.eqb_spec k n); [congruence | apply IH, Hn].
Qed.

(** X22 (getPlanetDetails): for a body name that is not a property
    inherited by every object and an ASCII fallback text, the narration is
    never the empty string; a non-empty model answer is returned as it is;
    and when the model call fails for a body outside the built-in table
    the result is the trimmed fallback text of the request, or the generic
    failure message if there is none. *)
Theorem X22_planet_details_never_empty :
  forall (request : PlanetDetailRequest) (reply : Outcome Response),
    name request ∉ OBJECT_PROTOTYPE_KEYS ->
    from_option ascii_only true (fallbackText request) = true ->
    let result := getPlanetDetails request reply in
    result <> "" /\
    (forall response t, reply = Returns response -> text response = Some t ->
                        t <> "" -> result = t) /\
    (forall e, reply = Throws e -> name request ∉ BODIES ->
       result = str_or (trim <$> fallbackText request) GENERIC_FAILURE).
Proof.
  intros request reply _ _ result. subst result. unfold getPlanetDetails. cbv zeta.
  split; [| split].
  - destruct reply as [e | response].
    + destruct (fallback_lookup _ _) as [d |] eqn:Hd.
      * destruct (is_empty d) eqn:He.
        -- apply str_or_nonempty. discriminate.
        -- intros ->. discriminate.
      * apply str_or_nonempty. discriminate.
    + repeat apply str_or_nonempty. discriminate.
  - intros response t -> Ht Hne. rewrite Ht. unfold str_or at 1.
    destruct t; [congruence | reflexivity].
  - intros e -> Hnot.
    assert (Hnone : fallback_lookup FALLBACK_DESCRIPTIONS (name request) = None).
    { apply fallback_lookup_none. exact Hnot. }
    rewrite Hnone. reflexivity.
Qed.

Lemma X22_witness :
  getPlanetDetails
    {| name := "Pluto"; bodyType := None; fallbackText := Some " a dwarf planet " |}
    (Throws {| message := "fetch failed"; stringified := "{}" |})
  = "a dwarf planet".
Proof.
  destruct (X22_planet_details_never_empty
              {| name := "Pluto"; bodyType := None;
                 fallbackText := Some " a dwarf planet " |}
              (Throws {| message := "fetch failed"; stringified := "{}" |}))
    as (_ & _ & Hfail).
  - unfold OBJECT_PROTOTYPE_KEYS.
    repeat (apply not_elem_of_cons; split; [discriminate |]). apply not_elem_of_nil.
  - reflexivity.
  - rewrite (Hfail _ eq_refl).
    + reflexivity.
    + unfold BODIES.
      repeat (apply not_elem_of_cons; split; [discriminate |]). apply not_elem_of_nil.
Defined.

(** X23 (getTerrainPreference): for a planet name that is not a property
    inherited by every object, the profile returned is stored in the cache
    under that name, a second call returns the same profile whatever the
    model answers then and leaves the cache as it is, the entries of other
    planets are untouched, and when the model call fails on an uncached
    planet the profile is the built-in one of that planet, or balanced. *)
Theorem X23_terrain_preference_is_memoized :
  forall (planetName : string) (reply reply' : Outcome Response)
         (terrainCache : gmap string TerrainProfile),
    planetName ∉ OBJECT_PROTOTYPE_KEYS ->
    let '(profile, cache1) := getTerrainPreference planetName reply terrainCache in
    cache1 !! planetName = Some profile /\
    getTerrainPreference planetName reply' cache1 = (profile, cache1) /\
    (forall other, other <> planetName -> cache1 !! other = terrainCache !! other) /\
    (terrainCache !! planetName = None ->
     forall e, reply = Throws e ->
       profile = default balanced (terrain_lookup heuristicTerrain planetName)).
Proof.
  intros planetName reply reply' terrainCache _.
  unfold getTerrainPreference at 1.
  destruct (terrainCache !! planetName) as [cached |] eqn:Hc.
  - split; [exact Hc |]. split.
    + unfold getTerrainPreference. rewrite Hc. reflexivity.
    + split; [reflexivity | discriminate].
  - cbv zeta.
    assert (Hins : forall v, let cache1 := <[planetName := v]> terrainCache in
              cache1 !! planetName = Some v /\
              getTerrainPreference planetName reply' cache1 = (v, cache1) /\
              (forall other, other <> planetName ->
                             cache1 !! other = terrainCache !! other)).
    { intros v cache1. subst cache1. split; [apply lookup_insert_eq |]. split.
      - unfold getTerrainPreference. rewrite lookup_insert_eq. reflexivity.
      - intros other Hne. apply lookup_insert_ne. congruence. }
    destruct reply as [e | response].
    + destruct (Hins (default balanced (terrain_lookup heuristicTerrain planetName)))
        as (H1 & H2 & H3).
      repeat split; try assumption. 
    + match goal with
      | |- context [<[planetName := ?v]> terrainCache] =>
          destruct (Hins v) as (H1 & H2 & H3)
      end.
      repeat split; try assumption. intros _ e He. discriminate.
Qed.

Lemma X23_witness :
  exists profile cache1,
    getTerrainPreference "Mars"
      (Throws {| message := "fetch failed"; stringified := "{}" |}) ∅
    = (profile, cache1) /\
    getTerrainPreference "Mars" (Returns {| text := Some "flat" |}) cache1
    = (profile, cache1).
Proof.
  pose proof (X23_terrain_preference_is_memoized "Mars"
                (Throws {| message := "fetch failed"; stringified := "{}" |})
                (Returns {| text := Some "flat" |}) ∅) as H.
  destruct (getTerrainPreference "Mars"
              (Throws {| message := "fetch failed"; stringified := "{}" |}) ∅)
    as [profile cache1].
  exists profile, cache1. split; [reflexivity |].
  destruct H as (_ & Hagain & _); [| exact Hagain].
  unfold OBJECT_PROTOTYPE_KEYS.
  repeat (apply not_elem_of_cons; split; [discriminate |]). apply not_elem_of_nil.
Defined.

End VoyagerTerrain.
